(** * Substance document model: annotations, containers and transactions

    A shallow embedding of the parts of [src/annotator.js], [src/document.js]
    and of the older and newer [Document] classes that the specification
    speaks about, together with the properties checked against them.

    JavaScript numbers that hold text offsets and array positions are
    integers ([Z], resp. [nat] for positions); objects used as dictionaries
    are [gmap]s with string keys; a call that may throw returns an
    [outcome] next to the state reached when it returned or threw. *)

From Stdlib Require Import ZArith Lia.
From stdpp Require Import base option list functions sorting gmap strings pretty.

Local Open Scope Z_scope.

(** ** Calls that may throw *)

Inductive error : Type :=
  | DuplicateIdError (id : string)
  | UnknownNodeError (id : string)
  | DocumentError (msg : string)
  | OperationError (msg : string)
  | TypeError (msg : string)
  | JsError (msg : string).

Inductive outcome (A : Type) : Type :=
  | Returned (a : A)
  | Thrown (e : error).
Arguments Returned {A} a.
Arguments Thrown {A} e.

(** A computation over a mutable store [S]: the store is the one reached
    when the call returned or when the exception left it. *)
Definition Eff (S A : Type) : Type := S → outcome A * S.

Definition ret {S A} (a : A) : Eff S A := λ s, (Returned a, s).
Definition throw {S A} (e : error) : Eff S A := λ s, (Thrown e, s).
Definition bind {S A B} (m : Eff S A) (k : A → Eff S B) : Eff S B :=
  λ s, match m s with
       | (Returned a, s') => k a s'
       | (Thrown e, s') => (Thrown e, s')
       end.

#[export] Instance Eff_ret {S} : MRet (Eff S) := λ A a, ret a.
#[export] Instance Eff_bind {S} : MBind (Eff S) := λ A B k m, bind m k.

(** [_.each(list, f)] with an [f] that may throw. *)
Fixpoint each {S A} (f : A → Eff S unit) (l : list A) : Eff S unit :=
  match l with
  | [] => ret tt
  | x :: l' => bind (f x) (λ _, each f l')
  end.

(** JavaScript truthiness of a number that may be missing
    ([undefined] or [null]): [0] is falsy, like a missing value. *)
Definition truthy (v : option Z) : bool :=
  match v with
  | Some z => negb (z =? 0)
  | None => false
  end.

(** ** The annotator ([src/annotator.js]) *)

Module Annotator.

(** An annotation node: [{id, type, path, range}]. *)
Record annotation : Type := Annotation {
  ann_id : string;
  ann_type : string;
  ann_path : list string;
  ann_range : Z * Z
}.

#[export] Instance annotation_eq_dec : EqDecision annotation.
Proof. solve_decision. Defined.

Definition set_range (a : annotation) (r : Z * Z) : annotation :=
  {| ann_id := ann_id a; ann_type := ann_type a;
     ann_path := ann_path a; ann_range := r |}.

(** The document as the annotator sees it: the annotation nodes of the
    graph by id, and the source of [util.uuid()]. *)
Record doc : Type := Doc {
  nodes : gmap string annotation;
  uuid_source : nat → string;
  uuid_count : nat
}.

Definition with_nodes (d : doc) (m : gmap string annotation) : doc :=
  {| nodes := m; uuid_source := uuid_source d; uuid_count := uuid_count d |}.

(** [util.uuid()]: the next identifier of the source. *)
Definition uuid : Eff doc string :=
  λ d, (Returned (uuid_source d (uuid_count d)),
        {| nodes := nodes d; uuid_source := uuid_source d;
           uuid_count := S (uuid_count d) |}).

(** Modelled from the spec: the graph operations of substance-data
    reached through [document.create], [document.delete] and
    [document.apply(Set([id, "range"], old, new))]. Creating an id that
    exists and deleting or setting a node that does not exist fail. *)
Definition document_create (a : annotation) : Eff doc annotation :=
  λ d, match nodes d !! ann_id a with
       | Some _ => (Thrown (DuplicateIdError (ann_id a)), d)
       | None => (Returned a, with_nodes d (<[ann_id a := a]> (nodes d)))
       end.

Definition document_delete (id : string) : Eff doc unit :=
  λ d, match nodes d !! id with
       | Some _ => (Returned tt, with_nodes d (delete id (nodes d)))
       | None => (Thrown (UnknownNodeError id), d)
       end.

Definition document_set_range (id : string) (r : Z * Z) : Eff doc unit :=
  λ d, match nodes d !! id with
       | Some a => (Returned tt, with_nodes d (<[id := set_range a r]> (nodes d)))
       | None => (Thrown (UnknownNodeError id), d)
       end.

(** The annotation behavior of a document class. *)
Record expandSpec : Type := ExpandSpec {
  exp_left : option (annotation → bool);
  exp_right : option (annotation → bool)
}.

Record behavior : Type := Behavior {
  groups : gmap string string;
  expansion : gmap string expandSpec;
  split : list string;
  levels : gmap string Z
}.

Definition isOnNodeStart (a : annotation) : bool := (ann_range a).1 =? 0.
Definition isTrue (a : annotation) : bool := true.

Definition defaultBehavior : behavior :=
  {| groups := list_to_map
       [("emphasis", "style"); ("strong", "style"); ("link", "style");
        ("question", "marker"); ("idea", "marker"); ("error", "marker")]%string;
     expansion := list_to_map
       [("emphasis", ExpandSpec (Some isOnNodeStart) None);
        ("strong", ExpandSpec (Some isOnNodeStart) None)]%string;
     split := ["emphasis"; "strong"]%string;
     levels := list_to_map
       [("idea", 1); ("question", 1); ("error", 1); ("comment", 1);
        ("link", 1); ("strong", 2); ("emphasis", 2); ("code", 2);
        ("subscript", 2); ("superscript", 2); ("underline", 2);
        ("cross_reference", 1); ("figure_reference", 1);
        ("person_reference", 1); ("citation_reference", 1)]%string |}.

(** [this.create(annotation)] *)
Definition create (a : annotation) : Eff doc annotation :=
  _ ← document_create a; ret a.

(** [_create(self, path, type, range)] without extra data. *)
Definition _create (path : list string) (type : string) (range : Z * Z)
  : Eff doc annotation :=
  id ← uuid;
  create {| ann_id := id; ann_type := type; ann_path := path; ann_range := range |}.

Definition _delete (a : annotation) : Eff doc unit :=
  document_delete (ann_id a).

Definition _update (a : annotation) (newRange : Z * Z) : Eff doc unit :=
  document_set_range (ann_id a) newRange.

(** What [object[name]] gives for an object that was written as a
    literal: its own entry; for a name that every such object inherits
    from [Object.prototype], the inherited member, one and the same
    object per name and no string; and [undefined] otherwise. *)
Inductive member (A : Type) : Type :=
  | Own (a : A)
  | Inherited (name : string)
  | Undefined.
Arguments Own {A} a.
Arguments Inherited {A} name.
Arguments Undefined {A}.

#[export] Instance member_eq_dec {A} `{EqDecision A} : EqDecision (member A).
Proof. solve_decision. Defined.

Definition Object_prototype : list string :=
  ["constructor"; "toString"; "toLocaleString"; "valueOf"; "hasOwnProperty";
   "isPrototypeOf"; "propertyIsEnumerable"; "__proto__"; "__defineGetter__";
   "__defineSetter__"; "__lookupGetter__"; "__lookupSetter__"].

Definition get_member {A} (object : gmap string A) (name : string) : member A :=
  match object !! name with
  | Some a => Own a
  | None =>
      if bool_decide (name ∈ Object_prototype) then Inherited name
      else Undefined
  end.

(** [this.groups[type1] === this.groups[type2]] *)
Definition isExclusive (self : behavior) (type1 type2 : string) : bool :=
  bool_decide (get_member (groups self) type1 = get_member (groups self) type2).

Definition isSplittable (self : behavior) (type : string) : bool :=
  bool_decide (type ∈ split self).

(** The test inside [_filterByNodeAndRange]:
    [overlap = (aEnd >= sStart); if (sEnd) overlap &= aStart <= sEnd]. *)
Definition overlap (a : annotation) (sStart : Z) (sEnd : option Z) : bool :=
  let aStart := (ann_range a).1 in
  let aEnd := (ann_range a).2 in
  let overlap := aEnd >=? sStart in
  match sEnd with
  | Some e => if truthy (Some e) then overlap && (aStart <=? e) else overlap
  | None => overlap
  end.

(** [_filterByNodeAndRange]: [annotations] is what the index returns
    for the node; the result is keyed by annotation id. *)
Definition _filterByNodeAndRange (annotations : list annotation)
    (range : option (Z * option Z)) : gmap string annotation :=
  match range with
  | Some (sStart, sEnd) =>
      foldl (λ filtered a,
               if overlap a sStart sEnd then <[ann_id a := a]> filtered
               else filtered)
            ∅ annotations
  | None => foldl (λ acc a, <[ann_id a := a]> acc) ∅ annotations
  end.

(** [_truncate(self, annotation, range)] *)
Definition _truncate (self : behavior) (a : annotation) (range : Z * Z)
  : Eff doc unit :=
  let s1 := (ann_range a).1 in
  let s2 := range.1 in
  let e1 := (ann_range a).2 in
  let e2 := range.2 in
  if (s1 >=? s2) && (e1 <=? e2) then _delete a
  else if (s1 >=? s2) && (e1 >? e2) then _update a (e2, e1)
  else if (s1 <? s2) && (e1 <=? e2) then _update a (s1, s2)
  else if isSplittable self (ann_type a) then
    _update a (s1, s2);;
    _ ← _create (ann_path a) (ann_type a) (e2, e1);
    ret tt
  else _delete a.

(** The operations the annotator is told about: their type, the path
    they touch and, for updates, the diff. *)
Inductive op_type : Type := OpCreate | OpDelete | OpUpdate | OpSet.

Record operation (Diff : Type) : Type := Operation {
  op_kind : op_type;
  op_path : list string;
  op_diff : Diff
}.
Arguments Operation {Diff} _ _ _.
Arguments op_kind {Diff} _.
Arguments op_path {Diff} _.
Arguments op_diff {Diff} _.

(** The expansion flags [_transform] computes from
    [this.expansion[annotation.type]]; without a spec, or without the
    predicate, the flag is [false]. *)
Definition expandLeft (self : behavior) (a : annotation) : bool :=
  match expansion self !! ann_type a with
  | Some expandSpec =>
      match exp_left expandSpec with Some f => f a | None => false end
  | None => false
  end.

Definition expandRight (self : behavior) (a : annotation) : bool :=
  match expansion self !! ann_type a with
  | Some expandSpec =>
      match exp_right expandSpec with Some f => f a | None => false end
  | None => false
  end.

(** The overlap test as the specification words it: [aEnd >= sStart]
    and, when an end is given, [aStart <= sEnd]. *)
Definition spec_overlap (a : annotation) (sStart : Z) (sEnd : option Z) : bool :=
  ((ann_range a).2 >=? sStart)
  && match sEnd with
     | Some e => (ann_range a).1 <=? e
     | None => true
     end.

Section Transform.
(** [Operator.TextOperation.Range.transform(range, diff, expandLeft,
    expandRight)] of substance-operator: it rewrites the range it is
    given and returns whether it changed it. Here it returns that
    flag together with the range as it is after the call. *)
Context {Diff : Type}.
Variable Range_transform : Z * Z → Diff → bool → bool → bool * (Z * Z).

(** [_transform.call(this, op, annotation)] *)
Definition _transform (self : behavior) (op : operation Diff)
    (a : annotation) : Eff doc unit :=
  if negb (bool_decide (ann_path a = op_path op)) then mret tt
  else match op_kind op with
  | OpUpdate =>
      let '(changed, newRange) :=
        Range_transform (ann_range a) (op_diff op)
          (expandLeft self a) (expandRight self a) in
      if changed then
        if newRange.1 =? newRange.2 then _delete a
        else document_set_range (ann_id a) newRange
      else mret tt
  | OpDelete | OpSet => _delete a
  | OpCreate => mret tt
  end.
End Transform.

End Annotator.

(** ** The commands of the annotator: [getAnnotations], [annotate],
    [transform] ([src/annotator.js]) *)

Module Commands.
Import Annotator.

(** Modelled from the spec: the annotation index on the property
    [path]; [this._index.get(path)] gives the annotations whose path
    starts with the given one. The order in which the index lists them
    is not fixed by the annotator; here it is the order of the ids. *)
Definition index_get (d : doc) (path : list string) : list annotation :=
  filter (λ a, path `prefix_of` ann_path a) (map_to_list (nodes d)).*2.

(** [options] of [getAnnotations]: a node id with an optional range, or
    the ranges of a selection ([selection.getRanges()], each with the id
    of its node, its start and its end), and an optional filter. *)
Record options : Type := Options {
  opt_node : option string;
  opt_range : option (Z * option Z);
  opt_selection : option (list (string * (Z * Z)));
  opt_filter : option (annotation → bool)
}.

(** JavaScript truthiness of a string that may be missing. *)
Definition truthy_string (s : option string) : bool :=
  match s with
  | Some s => negb (bool_decide (s = ""))
  | None => false
  end.

(** [getAnnotations(options)] *)
Definition getAnnotations (options : options) (d : doc) : gmap string annotation :=
  let annotations : gmap string annotation :=
    if truthy_string (opt_node options) then
      _filterByNodeAndRange (index_get d [default "" (opt_node options)])
        (opt_range options)
    else
      match opt_selection options with
      | Some ranges =>
          foldl (λ annotations range,
                   _filterByNodeAndRange (index_get d [range.1])
                     (Some (range.2.1, Some range.2.2))
                   ∪ annotations)
                ∅ ranges
      | None =>
          foldl (λ annotations node, <[ann_id node := node]> annotations)
                ∅ (map_to_list (nodes d)).*2
      end in
  match opt_filter options with
  | Some f =>
      foldl (λ filtered a, if f a then <[ann_id a := a]> filtered else filtered)
            ∅ (map_to_list annotations).*2
  | None => annotations
  end.

(** What [annotate] reads from the selection: [selection.range()]
    with a node position and a character position at either end, the
    node of the cursor, and [selection.isCollapsed()]. *)
Record selection : Type := Selection {
  sel_start : Z * Z;
  sel_end : Z * Z;
  cursor_node : string;
  isCollapsed : bool
}.

(** The loop of [annotate] over a selection that is not collapsed, with
    [toggled] so far. *)
Fixpoint truncate_each (self : behavior) (type : string) (range : Z * Z)
    (annotations : list annotation) (toggled : bool) : Eff doc bool :=
  match annotations with
  | [] => ret toggled
  | a :: annotations' =>
      if isExclusive self type (ann_type a) then
        _truncate self a range;;
        truncate_each self type range annotations'
          (if bool_decide (type = ann_type a) then true else toggled)
      else truncate_each self type range annotations' toggled
  end.

(** [annotate(selection, type)] without extra data; the result is the
    annotation created, if one is. *)
Definition annotate (self : behavior) (sel : selection) (type : string)
  : Eff doc (option annotation) :=
  λ d,
  if negb (bool_decide ((sel_start sel).1 = (sel_end sel).1)) then
    (Thrown (DocumentError "Multi-node annotations are not supported."), d)
  else
    let range := ((sel_start sel).2, (sel_end sel).2) in
    let annotations :=
      getAnnotations
        {| opt_node := Some (cursor_node sel);
           opt_range := Some (range.1, Some range.2);
           opt_selection := None; opt_filter := None |} d in
    let annotations := (map_to_list annotations).*2 in
    if isCollapsed sel then
      (each (λ a, if bool_decide (ann_type a = type) then _delete a else ret tt)
            annotations;;
       ret None) d
    else
      (toggled ← truncate_each self type range annotations false;
       if negb toggled then
         a ← _create [cursor_node sel; "content"] type range;
         ret (Some a)
       else ret None) d.

(** What [copy] reads from the selection: the ids of its nodes
    ([getNodes()]), [startChar()] and [endChar()], and its ranges
    ([getRanges()], each with the id of its node, its start and its
    end). *)
Record extent : Type := Extent {
  getNodes : list string;
  startChar : Z;
  endChar : Z;
  getRanges : list (string * (Z * Z))
}.

(** [_getRanges(self, sel)]: for every node of the selection the part
    that is selected, [[0, null]] but for the start in the first node
    and the end in the last. *)
Definition _getRanges (sel : extent) : gmap string (Z * option Z) :=
  let nodes := getNodes sel in
  foldl (λ (ranges : gmap string (Z * option Z)) (entry : nat * string),
           let i := entry.1 in
           let range0 := if decide (i = 0%nat) then startChar sel else 0 in
           let range1 :=
             if decide (i = (length nodes - 1)%nat) then Some (endChar sel)
             else None in
           <[entry.2 := (range0, range1)]> ranges)
        ∅ (imap pair nodes).

(** [range[0] > annotation.range[0] || range[1] < annotation.range[1]];
    in the comparison a [null] counts as [0]. *)
Definition isPartial (range : Z * option Z) (a : annotation) : bool :=
  (range.1 >? (ann_range a).1) || (default 0 range.2 <? (ann_range a).2).

(** The loop of [copy], with [result] so far. *)
Fixpoint copy_each (self : behavior) (ranges : gmap string (Z * option Z))
    (annotations : list annotation) (result : list annotation)
  : Eff doc (list annotation) :=
  match annotations with
  | [] => ret result
  | annotation :: annotations' =>
      match head (ann_path annotation) ≫= (ranges !!.) with
      | None => throw (TypeError "Cannot read properties of undefined")
      | Some range =>
          if isPartial range annotation then
            if isSplittable self (ann_type annotation) then
              id ← uuid;
              copy_each self ranges annotations'
                (result ++ [{| ann_id := id; ann_type := ann_type annotation;
                               ann_path := ann_path annotation;
                               ann_range :=
                                 (Z.max 0 ((ann_range annotation).1 - range.1),
                                  (ann_range annotation).2 - range.1) |}])
            else copy_each self ranges annotations' result
          else
            id ← uuid;
            copy_each self ranges annotations'
              (result ++ [{| ann_id := id; ann_type := ann_type annotation;
                             ann_path := ann_path annotation;
                             ann_range :=
                               ((ann_range annotation).1 - range.1,
                                (ann_range annotation).2 - range.1) |}])
      end
  end.

(** [copy(selection)] *)
Definition copy (self : behavior) (sel : extent) : Eff doc (list annotation) :=
  λ d,
  let ranges := _getRanges sel in
  let annotations :=
    getAnnotations
      {| opt_node := None; opt_range := None;
         opt_selection := Some (getRanges sel); opt_filter := None |} d in
  copy_each self ranges (map_to_list annotations).*2 [] d.

Section Transform.
Context {Diff : Type}.
Variable Range_transform : Z * Z → Diff → bool → bool → bool * (Z * Z).

(** [transform(op)] *)
Definition transform (self : behavior) (op : operation Diff) : Eff doc unit :=
  λ d, each (_transform Range_transform self op) (index_get d (op_path op)) d.

(** What [handleOperation] asks the document: [schema.typeChain(type)],
    and the type of the node with an id; [content] gives it for the
    nodes that are not annotations. *)
Variable typeChain : string → list string.
Variable content : string → option string.

Definition node_type (d : doc) (id : string) : option string :=
  match nodes d !! id with
  | Some a => Some (ann_type a)
  | None => content id
  end.

(** [handleOperation(op)] for an operation that has been applied;
    [val_type] is [op.val.type] of a creation or deletion. The
    ["annotation:changed"] events it triggers are left out. *)
Definition handleOperation (self : behavior) (withTransformation : bool)
    (op : operation Diff) (val_type : string) : Eff doc unit :=
  λ d,
  match op_kind op with
  | OpDelete | OpCreate =>
      if bool_decide ("annotation" ∈ typeChain val_type) then (Returned tt, d)
      else
        match op_kind op with
        | OpDelete => each _delete (index_get d (op_path op)) d
        | _ => (Returned tt, d)
        end
  | OpUpdate | OpSet =>
      match head (op_path op) ≫= node_type d with
      | None => (Returned tt, d)
      | Some type =>
          if bool_decide ("annotation" ∈ typeChain type) then (Returned tt, d)
          else if withTransformation then transform self op d
          else (Returned tt, d)
      end
  end.
End Transform.

End Commands.

(** ** Annotation objects by reference: [paste]

    [paste] writes into the objects it is handed, so here annotations and
    their [path] and [range] arrays live in a store and are named by
    references. *)

Module Objects.

(** An annotation object: [path] and [range] are references to arrays. *)
Record object : Type := Object {
  o_id : string;
  o_type : string;
  o_path : positive;
  o_range : positive
}.

Record store : Type := Store {
  objects : gmap positive object;
  paths : gmap positive (list string);
  ranges : gmap positive (Z * Z);
  (** the document's nodes: id to the object created under it *)
  nodes : gmap string positive
}.

(** [array[0] = x] on a JavaScript array: an empty array grows. *)
Definition set_first (x : string) (l : list string) : list string :=
  match l with
  | [] => [x]
  | _ :: l' => x :: l'
  end.

(** Reading a reference that is not in the store cannot happen in
    JavaScript; the model throws a [TypeError] there. *)
Definition read {A} (m : store → gmap positive A) (r : positive) : Eff store A :=
  λ s, match m s !! r with
       | Some a => (Returned a, s)
       | None => (Thrown (TypeError "dangling reference"), s)
       end.

(** [annotation.path = _.clone(annotation.path); annotation.path[0] = newNodeId] *)
Definition clone_path (l : positive) (newNodeId : string) : Eff store unit :=
  annotation ← read objects l;
  old ← read paths (o_path annotation);
  ((λ s, let r := fresh (dom (paths s)) in
         (Returned tt,
          {| objects := <[l := {| o_id := o_id annotation; o_type := o_type annotation;
                                o_path := r; o_range := o_range annotation |}]> (objects s);
             paths := <[r := set_first newNodeId old]> (paths s);
             ranges := ranges s;
             nodes := nodes s |})) : Eff store unit).

(** [annotation.range[0] += offset; annotation.range[1] += offset] *)
Definition shift_range (l : positive) (offset : Z) : Eff store unit :=
  annotation ← read objects l;
  range ← read ranges (o_range annotation);
  ((λ s, (Returned tt,
          {| objects := objects s; paths := paths s;
             ranges := <[o_range annotation := (range.1 + offset, range.2 + offset)]> (ranges s);
             nodes := nodes s |})) : Eff store unit).

(** Modelled from the spec: [document.create(annotation)] fails with
    [DuplicateIdError] when the id exists; otherwise the node is stored
    under its id. *)
Definition create (l : positive) : Eff store unit :=
  annotation ← read objects l;
  ((λ s, match nodes s !! o_id annotation with
         | Some _ => (Thrown (DuplicateIdError (o_id annotation)), s)
         | None => (Returned tt,
                    {| objects := objects s; paths := paths s; ranges := ranges s;
                       nodes := <[o_id annotation := l]> (nodes s) |})
         end) : Eff store unit).

(** The body of the loop of [paste]. *)
Definition paste_one (newNodeId : option string) (offset : option Z)
    (l : positive) : Eff store unit :=
  match newNodeId with Some n => clone_path l n | None => mret tt end;;
  match offset with Some k => shift_range l k | None => mret tt end;;
  create l.

(** [paste(annotations, newNodeId, offset)] *)
Definition paste (annotations : list positive) (newNodeId : option string)
    (offset : option Z) : Eff store unit :=
  each (paste_one newNodeId offset) annotations.

(** The range [offset] makes of [range]. *)
Definition shifted (offset : option Z) (range : Z * Z) : Z * Z :=
  match offset with
  | Some k => (range.1 + k, range.2 + k)
  | None => range
  end.

(** The annotation objects of a list are ready to be pasted when they
    are distinct objects of the store with their arrays, no two of them
    share a [range] array or an id, and the document has none of the
    ids. *)
Definition ready (s : store) (ls : list positive) : Prop :=
  NoDup ls
  ∧ (∀ l, l ∈ ls → ∃ o, objects s !! l = Some o
       ∧ is_Some (paths s !! o_path o) ∧ is_Some (ranges s !! o_range o)
       ∧ nodes s !! o_id o = None)
  ∧ (∀ l1 l2 o1 o2, l1 ∈ ls → l2 ∈ ls → l1 ≠ l2 →
       objects s !! l1 = Some o1 → objects s !! l2 = Some o2 →
       o_range o1 ≠ o_range o2 ∧ o_id o1 ≠ o_id o2).

(** What a call of [paste] from store [s] to store [s'] has done to the
    object [o] at reference [l]: it is the same object with the same
    [range] array, whose content is shifted; with a new node id its
    [path] is an array the store did not have, holding the old path
    with the new first element, and the old array is as it was; and the
    document holds the object under its id. *)
Definition pasted (newNodeId : option string) (offset : option Z)
    (s s' : store) (l : positive) (o : object) : Prop :=
  ∃ o', objects s' !! l = Some o'
    ∧ o_id o' = o_id o ∧ o_type o' = o_type o ∧ o_range o' = o_range o
    ∧ ranges s' !! o_range o = shifted offset <$> ranges s !! o_range o
    ∧ match newNodeId with
      | Some n => paths s !! o_path o' = None
                  ∧ paths s' !! o_path o' = set_first n <$> paths s !! o_path o
      | None => o_path o' = o_path o
      end
    ∧ paths s' !! o_path o = paths s !! o_path o
    ∧ nodes s' !! o_id o = Some l.

End Objects.

(** ** The node graph and its operations

    The graph and the operations come from substance-data and
    substance-operator; what the document classes use of them is modelled
    here after the specification. *)

Module Graph.

(** Property values: scalars and ordered sequences of ids or strings. *)
Inductive value : Type :=
  | VString (s : string)
  | VNumber (z : Z)
  | VBool (b : bool)
  | VNull
  | VArray (l : list string).

Record node : Type := Node {
  node_id : string;
  node_type : string;
  properties : gmap string value
}.

Definition set_property (n : node) (p : string) (v : value) : node :=
  {| node_id := node_id n; node_type := node_type n;
     properties := <[p := v]> (properties n) |}.

(** [ArrayOperation.Insert(pos, val)] and [ArrayOperation.Delete(pos, val)];
    [ArrayOperation.Compound(ops)] is a list of them. *)
Inductive array_op : Type :=
  | ArrayInsert (pos : nat) (val : string)
  | ArrayDelete (pos : nat) (val : option string).

(** Modelled from the spec: a splice at a position. A deletion names
    the value it removes and fails when the array holds another value
    there; an insertion fails beyond the end. [None] is a throw. *)
Definition apply_array_op (o : array_op) (arr : list string) : option (list string) :=
  match o with
  | ArrayInsert pos val =>
      if decide (pos ≤ length arr)%nat
      then Some (take pos arr ++ val :: drop pos arr) else None
  | ArrayDelete pos val =>
      if decide (arr !! pos = val) then Some (delete pos arr) else None
  end.

Fixpoint apply_array_compound (ops : list array_op) (arr : list string)
  : option (list string) :=
  match ops with
  | [] => Some arr
  | o :: ops' =>
      match apply_array_op o arr with
      | Some arr' => apply_array_compound ops' arr'
      | None => None
      end
  end.

(** [ObjectOperation]: create, delete, set, update with an array diff,
    and compound. *)
#[warnings="-register-all"]
Inductive operation : Type :=
  | Create (n : node)
  | Delete (n : node)
  | Set_ (path : list string) (old new : value)
  | Update (path : list string) (diff : list array_op)
  | Compound (ops : list operation).

(** [op.type !== "compound"] *)
Definition is_compound (op : operation) : bool :=
  match op with Compound _ => true | _ => false end.

(** Modelled from the spec: the mutation [apply(op)] performs on the
    node mapping. [None] is a rejected operation, which leaves the
    graph as it was. *)
Fixpoint graph_apply (op : operation) (g : gmap string node)
  : option (gmap string node) :=
  match op with
  | Create n =>
      match g !! node_id n with
      | Some _ => None
      | None => Some (<[node_id n := n]> g)
      end
  | Delete n =>
      match g !! node_id n with
      | Some _ => Some (delete (node_id n) g)
      | None => None
      end
  | Set_ [id; p] _ new =>
      match g !! id with
      | Some n => Some (<[id := set_property n p new]> g)
      | None => None
      end
  | Update [id; p] diff =>
      match g !! id with
      | Some n =>
          match properties n !! p with
          | Some (VArray arr) =>
              match apply_array_compound diff arr with
              | Some arr' => Some (<[id := set_property n p (VArray arr')]> g)
              | None => None
              end
          | _ => None
          end
      | None => None
      end
  | Set_ _ _ _ | Update _ _ => None
  | Compound ops =>
      (fix go (l : list operation) (g : gmap string node) :=
         match l with
         | [] => Some g
         | o :: l' =>
             match graph_apply o g with
             | Some g' => go l' g'
             | None => None
             end
         end) ops g
  end.

(** Modelled from the spec: [Operator.Helpers.flatten(ops)] turns the
    compound operations of a list into a single flat operation list. *)
Fixpoint flatten_op (op : operation) : list operation :=
  match op with
  | Compound ops =>
      (fix go (l : list operation) :=
         match l with
         | [] => []
         | o :: l' => flatten_op o ++ go l'
         end) ops
  | _ => [op]
  end.

Definition Helpers_flatten (ops : list operation) : list operation :=
  flat_map flatten_op ops.

(** A list of operations is flat when none of them is a compound. *)
Definition flat (ops : list operation) : Prop :=
  Forall (λ o, is_compound o = false) ops.

End Graph.

(** ** The document ([src/document.js]) *)

Module Document.
Import Graph.

(** [toJSON()]: [{schema: [name, version], nodes, id}]. *)
Record snapshot : Type := Snapshot {
  snap_schema : option (string * string);
  snap_nodes : gmap string node;
  snap_id : option string
}.

(** A document is either built by the constructor, or the object
    [startTransaction] derives from a document: it keeps a link to the
    original, a copy-on-write graph with the log of the operations
    applied to it, and events of its own; every other property,
    [fileData] among them, is the original's.
    [applied] is the sequence of ["operation:applied"] notifications
    the document has sent to its listeners. *)
Inductive document : Type :=
  | Plain (id : option string) (schema : option (string * string))
      (nodes : gmap string node) (fileData : gmap string string)
      (applied : list operation)
  | Transaction (original : document) (nodes : gmap string node)
      (ops : list operation) (applied : list operation).

Definition nodes (d : document) : gmap string node :=
  match d with
  | Plain _ _ g _ _ => g
  | Transaction _ g _ _ => g
  end.

Definition applied (d : document) : list operation :=
  match d with
  | Plain _ _ _ _ ev => ev
  | Transaction _ _ _ ev => ev
  end.

Definition transacting (d : document) : bool :=
  match d with
  | Plain _ _ _ _ _ => false
  | Transaction _ _ _ _ => true
  end.

Fixpoint id (d : document) : option string :=
  match d with
  | Plain i _ _ _ _ => i
  | Transaction o _ _ _ => id o
  end.

Fixpoint schema (d : document) : option (string * string) :=
  match d with
  | Plain _ s _ _ _ => s
  | Transaction o _ _ _ => schema o
  end.

Fixpoint fileData (d : document) : gmap string string :=
  match d with
  | Plain _ _ _ fd _ => fd
  | Transaction o _ _ _ => fileData o
  end.

(** [this.original], [None] for [undefined]. *)
Definition original (d : document) : option document :=
  match d with
  | Plain _ _ _ _ _ => None
  | Transaction o _ _ _ => Some o
  end.

(** [fileData[key] = data] on the object that holds [fileData]. *)
Fixpoint set_fileData (key data : string) (d : document) : document :=
  match d with
  | Plain i s g fd ev => Plain i s g (<[key := data]> fd) ev
  | Transaction o g l ev => Transaction (set_fileData key data o) g l ev
  end.

(** [get(path)] for a node id. The wrapping of the node in its node
    class or in a [Container] does not change what is read from it. *)
Definition get (d : document) (id : string) : option node := nodes d !! id.

(** [apply(op)]: the graph performs the mutation, a copy-on-write
    graph also records the operation, and the listeners are told. A
    rejected operation throws and changes nothing. *)
Definition apply (op : operation) : Eff document unit :=
  λ d, match graph_apply op (nodes d) with
       | None => (Thrown (OperationError "rejected"), d)
       | Some g' =>
           (Returned tt,
            match d with
            | Plain i s _ fd ev => Plain i s g' fd (ev ++ [op])
            | Transaction o _ l ev => Transaction o g' (l ++ [op]) (ev ++ [op])
            end)
       end.

(** What [apply(compound)] on the original leaves when the graph
    accepts the compound (one more operation told to the listeners) and
    when it rejects it (nothing changed). *)
Definition committed (compound : operation) (before after : document)
    (result : outcome unit) : Prop :=
  match graph_apply compound (nodes before) with
  | Some g' =>
      result = Returned tt ∧ nodes after = g'
      ∧ applied after = applied before ++ [compound]
  | None =>
      result = Thrown (OperationError "rejected") ∧ nodes after = nodes before
      ∧ applied after = applied before
  end.

(** Modelled from the spec: [this.graph.toJSON()] of substance-data,
    which gives the schema and the nodes of the graph; [toJSON()] adds
    the id of the document to it. *)
Definition toJSON (d : document) : snapshot :=
  {| snap_schema := schema d; snap_nodes := nodes d; snap_id := id d |}.

(** Modelled from the spec: the [Graph] constructor of substance-data,
    which starts the graph from the nodes of [options.seed].
    [Document.fromSnapshot(data, options)] is [new Document(options)]
    with [options.seed = data]; [options] carries the schema. *)
Definition fromSnapshot (data : snapshot) (options : option (string * string))
  : document :=
  Plain None options (snap_nodes data) ∅ [].

(** [view.nodes.indexOf(n)], [None] for [-1]. *)
Definition indexOf (l : list string) (n : string) : option nat :=
  fst <$> list_find (λ x, x = n) l.

(** [Array.prototype.sort()] without a comparison function orders the
    elements by their string conversions. *)
Definition sort (l : list nat) : list nat :=
  merge_sort (λ a b, String.le (pretty a) (pretty b)) l.

(** [_.uniq(array)]: the first occurrence of every element. *)
Fixpoint uniq_from (seen l : list nat) : list nat :=
  match l with
  | [] => []
  | x :: l' =>
      if decide (x ∈ seen) then uniq_from seen l'
      else x :: uniq_from (x :: seen) l'
  end.
Definition uniq (l : list nat) : list nat := uniq_from [] l.

(** The [nodes] argument of [hide]: one id or a list of ids. *)
Inductive ids : Type :=
  | OneId (n : string)
  | ManyIds (l : list string).

(** [hide(viewId, nodes)] *)
Definition hide (viewId : string) (nodes : ids) : Eff document unit :=
  λ d,
  match get d viewId with
  | None => (Thrown (DocumentError ("Invalid view id: " +:+ viewId)), d)
  | Some view =>
      let nodes := match nodes with OneId n => [n] | ManyIds l => l end in
      match properties view !! "nodes" with
      | Some (VArray view_nodes) =>
          let indexes := omap (indexOf view_nodes) nodes in
          if decide (length indexes = 0%nat) then (Returned tt, d)
          else
            let indexes := reverse (sort indexes) in
            let indexes := uniq indexes in
            let ops := (λ index, ArrayDelete index (view_nodes !! index)) <$> indexes in
            let op := Update [viewId; "nodes"] ops in
            apply op d
      | _ =>
          (* [view.nodes] is read inside the loop, once per given id *)
          match nodes with
          | [] => (Returned tt, d)
          | _ :: _ => (Thrown (TypeError "view.nodes is not an array"), d)
          end
      end
  end.

(** The positions to delete, as [hide] must hand them to the compound:
    in descending order, and exactly the positions of the view that
    hold a given id. *)
Definition hidden_positions (given view_nodes : list string) (ps : list nat)
  : Prop :=
  StronglySorted (λ p q, q < p)%nat ps
  ∧ ∀ i, i ∈ ps ↔ ∃ n, n ∈ given ∧ view_nodes !! i = Some n.

(** [startTransaction()] *)
Definition startTransaction : Eff document document :=
  λ d, (Returned (Transaction d (nodes d) [] []), d).

(** [save()], called on the transaction document; the original it
    writes to is the one the transaction holds. *)
Definition save : Eff document unit :=
  λ this,
  match this with
  | Plain _ _ _ _ _ => (Returned tt, this)
  | Transaction original g ops ev =>
      let original :=
        map_fold (λ key data o, set_fileData key data o) original (fileData this) in
      match ops with
      | [] => (Returned tt, Transaction original g ops ev)
      | _ =>
          let ops' := Helpers_flatten ops in
          let compound := Compound ops' in
          match apply compound original with
          | (r, original') => (r, Transaction original' g ops ev)
          end
      end
  end.

End Document.

(** ** Simulations: the earlier [Document] with [startSimulation] *)

Module Simulation.
Import Graph Document.

(** What [startSimulation] builds: the simulation document, the log
    [ops] its [apply] writes, and [self], the document it was started
    on. *)
Record simulation : Type := Sim {
  self : document;
  sim : document;
  ops : list operation
}.

(** [startSimulation()] *)
Definition startSimulation (this : document) : simulation :=
  {| self := this; sim := fromSnapshot (toJSON this) None; ops := [] |}.

(** [simulation.apply(op)]: the operation is logged, then applied. *)
Definition simulation_apply (op : operation) : Eff simulation unit :=
  λ s, let ops := ops s ++ [op] in
       match apply op (sim s) with
       | (r, sim') => (r, {| self := self s; sim := sim'; ops := ops |})
       end.

(** [ops[i].ops] *)
Definition compound_ops (op : operation) : list operation :=
  match op with Compound l => l | _ => [] end.

(** What a log entry stands for after one level of flattening: the
    components of a compound, any other operation itself. *)
Definition unwrap (op : operation) : list operation :=
  if is_compound op then compound_ops op else [op].

(** The loop of [simulation.save] that builds [_ops]. *)
Definition collect_ops (ops : list operation) : list operation :=
  foldl (λ _ops op,
           if negb (is_compound op) then _ops ++ [op]
           else _ops ++ compound_ops op)
        [] ops.

(** [simulation.save(data)]; the optional [data] is only attached to
    the compound and is left out. *)
Definition simulation_save : Eff simulation unit :=
  λ s,
  let self1 :=
    map_fold (λ key data o, set_fileData key data o) (self s) (fileData (sim s)) in
  let _ops := collect_ops (ops s) in
  match _ops with
  | [] => (Returned tt, {| self := self1; sim := sim s; ops := ops s |})
  | _ =>
      let compound := Compound _ops in
      match apply compound self1 with
      | (r, self2) => (r, {| self := self2; sim := sim s; ops := ops s |})
      end
  end.

End Simulation.

(** ** The later [Document] with operation listeners *)

Module Versioned.
Import Annotator.

(** [getAnnotations(path, start, end)]: [annotations] is what the
    annotation index returns for the path and [get] is [this.get]. *)
Definition getAnnotations (annotations : list annotation)
    (get : string → option annotation) (start end_ : option Z)
  : list (option annotation) :=
  let sStart := start in
  let sEnd := end_ in
  if truthy start then
    foldl (λ result a,
             let aStart := (ann_range a).1 in
             let aEnd := (ann_range a).2 in
             let overlap := aEnd >=? default 0 sStart in
             let overlap :=
               if truthy sEnd then overlap && (aStart <=? default 0 sEnd)
               else overlap in
             if overlap then result ++ [get (ann_id a)] else result)
          [] annotations
  else
    foldl (λ result anno, result ++ [get (ann_id anno)]) [] annotations.

Section Listeners.
(** The collaborators that are not part of the document class: the
    operations and the data they were applied to, the change map of a
    transaction, the history, and the state of a listener. *)
Context {Op Data ChangeMap History LState : Type}.
Variable new_ChangeMap : ChangeMap.
Variable ChangeMap_update : Op → ChangeMap → ChangeMap.
Variable setRecoveryPoint : History → History.

(** An operation listener: [onOperationApplied(op)] may throw and
    leaves the listener in some state; [l_reset] is the state
    [reset()] leaves it in. *)
Record listener : Type := Listener {
  l_onOperationApplied : Op → LState → outcome unit * LState;
  l_reset : LState → LState;
  l_state : LState;
  l_priority : Z
}.

Definition with_state (l : listener) (st : LState) : listener :=
  {| l_onOperationApplied := l_onOperationApplied l; l_reset := l_reset l;
     l_state := st; l_priority := l_priority l |}.

(** The calls the document makes on its listeners, in order. *)
Inductive call : Type :=
  | Invoked (r : nat)
  | Caught (r : nat) (e : error)
  | Reset (r : nat).

(** The listeners a sequence of calls invokes, in order. *)
Definition invocations (cs : list call) : list nat :=
  omap (λ c, match c with Invoked r => Some r | _ => None end) cs.

(** Listeners are objects: [operationListeners] holds references into
    [heap], so a listener registered twice is one object. *)
Record Document : Type := mkDocument {
  data : Data;
  history : History;
  isTransacting : bool;
  transactionChanges : option ChangeMap;
  operationListeners : list nat;
  heap : nat → listener;
  calls : list call
}.

(** [startTransaction()] *)
Definition startTransaction : Eff Document unit :=
  λ D,
  if isTransacting D
  then (Thrown (JsError "Nested transactions are not supported yet."), D)
  else (Returned tt,
        {| data := data D; history := setRecoveryPoint (history D);
           isTransacting := true; transactionChanges := Some new_ChangeMap;
           operationListeners := operationListeners D; heap := heap D;
           calls := calls D |}).

(** [try { listener.onOperationApplied(op) } catch (error) { ... }]:
    whether the listener threw, and the document afterwards. *)
Definition invoke (op : Op) (r : nat) (D : Document) : bool * Document :=
  let l := heap D r in
  let '(res, st) := l_onOperationApplied l op (l_state l) in
  let called :=
    match res with
    | Returned _ => [Invoked r]
    | Thrown e => [Invoked r; Caught r e]
    end in
  (match res with Returned _ => false | Thrown _ => true end,
   {| data := data D; history := history D; isTransacting := isTransacting D;
      transactionChanges := transactionChanges D;
      operationListeners := operationListeners D;
      heap := <[r := with_state l st]> (heap D);
      calls := calls D ++ called |}).

(** The first loop of [onOperationApplied], with [failed] so far. *)
Fixpoint notify (op : Op) (listeners failed : list nat) (D : Document)
  : list nat * Document :=
  match listeners with
  | [] => (failed, D)
  | r :: listeners' =>
      let '(threw, D') := invoke op r D in
      notify op listeners' (if threw then failed ++ [r] else failed) D'
  end.

(** [listener.reset()] *)
Definition reset (D : Document) (r : nat) : Document :=
  let l := heap D r in
  {| data := data D; history := history D; isTransacting := isTransacting D;
     transactionChanges := transactionChanges D;
     operationListeners := operationListeners D;
     heap := <[r := with_state l (l_reset l (l_state l))]> (heap D);
     calls := calls D ++ [Reset r] |}.

(** [onOperationApplied(op)] for listeners whose [reset()] returns
    ([Broadcast.onOperationApplied] below is the method for a [reset()]
    that may throw); [transactionChanges] is [null] until the first
    transaction starts. *)
Definition onOperationApplied (op : Op) : Eff Document unit :=
  λ D,
  match transactionChanges D with
  | None => (Thrown (TypeError "Cannot read properties of null"), D)
  | Some changes =>
      let D1 :=
        {| data := data D; history := history D; isTransacting := isTransacting D;
           transactionChanges := Some (ChangeMap_update op changes);
           operationListeners := operationListeners D; heap := heap D;
           calls := calls D |} in
      let '(failed, D2) := notify op (operationListeners D1) [] D1 in
      (Returned tt, foldl reset D2 failed)
  end.

(** Two documents that differ at most in the state of the listeners
    and in the calls made. *)
Definition same_document (D D' : Document) : Prop :=
  data D' = data D ∧ history D' = history D
  ∧ isTransacting D' = isTransacting D
  ∧ operationListeners D' = operationListeners D.

End Listeners.

End Versioned.

(** ** The broadcast of an operation to listeners whose [reset()] may throw *)

Module Broadcast.
Import Versioned.

Section Broadcast.
Context {Op Data ChangeMap History LState : Type}.
Variable ChangeMap_update : Op → ChangeMap → ChangeMap.

(** The second loop of [onOperationApplied] calls [listener.reset()]
    outside of the [try], and a [reset()] may throw like any other
    method: [l_reset] is the state the call leaves its listener in, and
    [reset_result r st] is what the [reset()] of the listener at
    reference [r] returns or throws when that listener is in the state
    [st]. *)
Variable reset_result : nat → LState → outcome unit.

Local Notation "'Document'" :=
  (Document (Op := Op) (Data := Data) (ChangeMap := ChangeMap)
     (History := History) (LState := LState)).

(** [listener.reset()] *)
Definition reset (r : nat) : Eff Document unit :=
  λ D, (reset_result r (l_state (heap D r)), Versioned.reset D r).

(** [onOperationApplied(op)]: the listeners are invoked under the
    [try]; the failed ones are reset by a [Substance.each] that the
    first throwing [reset()] leaves. *)
Definition onOperationApplied (op : Op) : Eff Document unit :=
  λ D,
  match transactionChanges D with
  | None => (Thrown (TypeError "Cannot read properties of null"), D)
  | Some changes =>
      let D1 :=
        {| data := data D; history := history D; isTransacting := isTransacting D;
           transactionChanges := Some (ChangeMap_update op changes);
           operationListeners := operationListeners D; heap := heap D;
           calls := calls D |} in
      let '(failed, D2) := notify op (operationListeners D1) [] D1 in
      each reset failed D2
  end.

End Broadcast.

End Broadcast.

(** ** The listener registry and the transactions of the later [Document] *)

Module Registry.
Import Versioned.

Section Registry.
Context {Op Data ChangeMap History LState : Type}.
Variable new_ChangeMap : ChangeMap.
Variable ChangeMap_update : Op → ChangeMap → ChangeMap.
Variable setRecoveryPoint : History → History.
(** [history.restoreLastRecoveryPoint()]: the history holds the
    document and may put its data back. *)
Variable restoreLastRecoveryPoint : History → Data → History * Data.

Local Notation "'Document'" :=
  (Document (Op := Op) (Data := Data) (ChangeMap := ChangeMap)
     (History := History) (LState := LState)).
Local Notation "'listener'" := (listener (Op := Op) (LState := LState)).

(** The constructor: no listener, no transaction, and
    [transactionChanges = null]. *)
Definition new_Document (data : Data) (history : History) (heap : nat → listener)
  : Document :=
  {| data := data; history := history; isTransacting := false;
     transactionChanges := None; operationListeners := []; heap := heap;
     calls := [] |}.

Definition with_priority (l : listener) (p : Z) : listener :=
  {| l_onOperationApplied := l_onOperationApplied l; l_reset := l_reset l;
     l_state := l_state l; l_priority := p |}.

(** [listener.__priority] *)
Definition priority (D : Document) (r : nat) : Z := l_priority (heap D r).

(** The comparison [a.__priority - b.__priority], as the order it
    stands for: [a] is not behind [b] when the difference is not
    positive. *)
Definition compare_priority (heap : nat → listener) (a b : nat) : Prop :=
  l_priority (heap a) - l_priority (heap b) ≤ 0.

#[local] Instance compare_priority_dec (heap : nat → listener) (a b : nat) :
  Decision (compare_priority heap a b).
Proof. unfold compare_priority. apply _. Defined.

(** [Array.prototype.sort] with the comparison of
    [addOperationListener]: the listeners in ascending order of their
    priorities, those of equal priority in the order they had. *)
Fixpoint sort_insert (heap : nat → listener) (a : nat) (sorted : list nat)
  : list nat :=
  match sorted with
  | [] => [a]
  | b :: sorted' =>
      if decide (compare_priority heap a b) then a :: sorted
      else b :: sort_insert heap a sorted'
  end.

Definition Array_sort (heap : nat → listener) (l : list nat) : list nat :=
  foldr (sort_insert heap) [] l.

(** [addOperationListener(listener, priority)]: [priority || 10] is
    written to the listener object, the listener is pushed, and the
    list is sorted with [a.__priority - b.__priority]. *)
Definition addOperationListener (r : nat) (p : option Z) : Eff Document unit :=
  λ D,
  let l := heap D r in
  let heap' := <[r := with_priority l (if truthy p then default 0 p else 10)]> (heap D) in
  let listeners := operationListeners D ++ [r] in
  let listeners := Array_sort heap' listeners in
  (Returned tt,
   {| data := data D; history := history D; isTransacting := isTransacting D;
      transactionChanges := transactionChanges D;
      operationListeners := listeners; heap := heap'; calls := calls D |}).

(** [removeOperationListener(listener)]: [indexOf] and [splice(idx, 1)]. *)
Definition removeOperationListener (r : nat) : Eff Document unit :=
  λ D,
  match list_find (λ x, x = r) (operationListeners D) with
  | Some (idx, _) =>
      (Returned tt,
       {| data := data D; history := history D; isTransacting := isTransacting D;
          transactionChanges := transactionChanges D;
          operationListeners := delete idx (operationListeners D);
          heap := heap D; calls := calls D |})
  | None => (Returned tt, D)
  end.




(** The documents that have had no transaction yet. *)
Inductive registering : Document → Prop :=
  | registering_new data history heap :
      registering (new_Document data history heap)
  | registering_add D r p :
      registering D → registering (addOperationListener r p D).2
  | registering_remove D r :
      registering D → registering (removeOperationListener r D).2.

End Registry.

End Registry.

(** ** Adding nodes to a view: [show] ([src/document.js]) *)

Module Views.
Import Graph Document.

(** [target = Math.min(target, l); if (target<0) target = Math.max(0, l+target+1)] *)
Definition clamp_target (target l : Z) : Z :=
  let target := Z.min target l in
  if target <? 0 then Z.max 0 (l + target + 1) else target.

(** The loop of [show]: the id of the first node that the graph does
    not have, or the insertions [Insert(target + idx, nodeId)]. *)
Fixpoint insertions (g : gmap string node) (target : Z) (idx : nat)
    (nodes : list string) : string + list array_op :=
  match nodes with
  | [] => inr []
  | nodeId :: rest =>
      match g !! nodeId with
      | None => inl nodeId
      | Some _ =>
          match insertions g target (S idx) rest with
          | inl bad => inl bad
          | inr ops => inr (ArrayInsert (Z.to_nat (target + Z.of_nat idx)) nodeId :: ops)
          end
      end
  end.

(** [show(viewId, nodes, target)]; a missing [target] is [-1]. *)
Definition show (viewId : string) (nodes : ids) (target : option Z)
  : Eff document unit :=
  λ d,
  let target := default (-1) target in
  match get d viewId with
  | None => (Thrown (DocumentError ("Invalid view id: " +:+ viewId)), d)
  | Some view =>
      let nodes := match nodes with OneId n => [n] | ManyIds l => l end in
      match properties view !! "nodes" with
      | Some (VArray view_nodes) =>
          let l := Z.of_nat (length view_nodes) in
          let target := clamp_target target l in
          match insertions (Document.nodes d) target 0 nodes with
          | inl nodeId =>
              (Thrown (DocumentError ("Invalid node id: " +:+ nodeId)), d)
          | inr ops =>
              if decide (0 < length ops)%nat
              then apply (Update [viewId; "nodes"] ops) d
              else (Returned tt, d)
          end
      | _ => (Thrown (TypeError "view.nodes is not an array"), d)
      end
  end.

End Views.

(** ** The graph commands of the document and the composite nodes of
    the test document *)

Module Composites.
Import Graph Document.

(** [create(node)], [delete(id)], [set(path, value)] and
    [update(path, diff)] of the document hand over to the graph, which
    builds the operation and applies it. Modelled from the spec: a
    deletion or a [set] of a node the graph does not have is rejected,
    and the operation of a [set] records the value it replaces. *)
Definition create (n : node) : Eff document unit := apply (Create n).

Definition delete (id : string) : Eff document unit :=
  λ d, match get d id with
       | Some n => apply (Delete n) d
       | None => (Thrown (OperationError "rejected"), d)
       end.

Definition set (path : list string) (v : value) : Eff document unit :=
  λ d, match path with
       | [id; p] =>
           match get d id with
           | Some n => apply (Set_ path (default VNull (properties n !! p)) v) d
           | None => (Thrown (OperationError "rejected"), d)
           end
       | _ => (Thrown (OperationError "rejected"), d)
       end.

Definition update (path : list string) (diff : list array_op) : Eff document unit :=
  apply (Update path diff).

#[export] Instance value_eq_dec : EqDecision value.
Proof. solve_decision. Defined.

(** JavaScript truthiness of a property value. *)
Definition value_truthy (v : option value) : bool :=
  match v with
  | Some (VString s) => negb (bool_decide (s = ""))
  | Some (VNumber z) => negb (z =? 0)
  | Some (VBool b) => b
  | Some (VArray _) => true
  | Some VNull | None => false
  end.

(** A method called on a node the document does not have. *)
Definition no_node {A} : Eff document A :=
  throw (TypeError "Cannot read properties of undefined").

Module List.

(** [this.properties.items] *)
Definition items (this : node) : list string :=
  match properties this !! "items" with
  | Some (VArray l) => l
  | _ => []
  end.

Definition getLength (this : node) : nat := length (items this).
Definition getNodes (this : node) : list string := items this.

(** [insertChild(doc, pos, nodeId)] *)
Definition insertChild (this : string) (pos : nat) (nodeId : string)
  : Eff document unit :=
  update [this; "items"] [ArrayInsert pos nodeId].

(** [deleteChild(doc, nodeId)]. For a node that is not among the
    items, [indexOf] gives [-1]; the array operation is taken to
    reject that position. *)
Definition deleteChild (this : string) (nodeId : string) : Eff document unit :=
  λ d,
  match get d this with
  | None => no_node d
  | Some node =>
      match indexOf (items node) nodeId with
      | Some pos =>
          (update [this; "items"] [ArrayDelete pos (Some nodeId)];;
           delete nodeId) d
      | None => (Thrown (OperationError "rejected"), d)
      end
  end.

End List.

Module Figure.

Definition getLength (this : node) : nat := 2.

(** [getNodes()]: the image and the caption, as far as they are set. *)
Definition getNodes (this : node) : list value :=
  let result := [] in
  let result :=
    if value_truthy (properties this !! "image")
    then result ++ [default VNull (properties this !! "image")] else result in
  let result :=
    if value_truthy (properties this !! "caption")
    then result ++ [default VNull (properties this !! "caption")] else result in
  result.

(** [deleteChild(doc, nodeId)] *)
Definition deleteChild (this : string) (nodeId : string) : Eff document unit :=
  λ d,
  match get d this with
  | None => no_node d
  | Some node =>
      if bool_decide (properties node !! "image" = Some (VString nodeId)) then
        (set [this; "image"] VNull;; delete nodeId) d
      else if bool_decide (properties node !! "caption" = Some (VString nodeId)) then
        set [nodeId; "content"] (VString "") d
      else (Returned tt, d)
  end.

End Figure.

End Composites.

(** * Sample data *)

Module Samples.
Import Annotator.

Definition text_path : list string := ["text_1"; "content"].

(** An annotation over [[2,8]] of a splittable type, and one of a type
    that is not splittable. *)
Definition strong_2_8 : annotation := Annotation "a1" "strong" text_path (2, 8).
Definition idea_2_8 : annotation := Annotation "a1" "idea" text_path (2, 8).
Definition strong_3_5 : annotation := Annotation "a1" "strong" text_path (3, 5).
Definition strong_2_5 : annotation := Annotation "a2" "strong" text_path (2, 5).
Definition strong_4_6 : annotation := Annotation "a3" "strong" text_path (4, 6).

(** An annotation whose range is a single point. *)
Definition strong_3_3 : annotation := Annotation "a4" "strong" text_path (3, 3).

Definition uuids (n : nat) : string := "uuid_" +:+ pretty n.

Definition doc_of (a : annotation) : doc :=
  {| nodes := {[ann_id a := a]}; uuid_source := uuids; uuid_count := 0 |}.

(** A range transform for the deletion of [len] characters at [pos],
    the way the specification describes it: offsets behind the start of
    the deletion move left by the deleted length, but not below that
    start. *)
Definition delete_transform (range : Z * Z) (diff : Z * Z) (expandLeft expandRight : bool)
  : bool * (Z * Z) :=
  let '(pos, len) := diff in
  let start := if pos <=? range.1 then range.1 - Z.min len (range.1 - pos) else range.1 in
  let end_ := if pos <=? range.2 then range.2 - Z.min len (range.2 - pos) else range.2 in
  (negb (bool_decide ((start, end_) = range)), (start, end_)).

(** Two copied annotations, as [copy] returns them: objects [1] and [2]
    of a store in which the document has no annotation yet. *)
Definition copied : Objects.store :=
  {| Objects.objects :=
       {[ 1%positive := Objects.Object "c1" "strong" 1 1;
          2%positive := Objects.Object "c2" "idea" 2 2 ]};
     Objects.paths := {[ 1%positive := text_path; 2%positive := text_path ]};
     Objects.ranges := {[ 1%positive := (0, 4); 2%positive := (2, 6) ]};
     Objects.nodes := ∅ |}.

(** A view with eleven nodes, at positions [0] to [10]. *)
Definition eleven : list string :=
  ["n0"; "n1"; "n2"; "n3"; "n4"; "n5"; "n6"; "n7"; "n8"; "n9"; "n10"].

Definition view_of (l : list string) : Graph.node :=
  Graph.Node "content" "view" {["nodes" := Graph.VArray l]}.

Definition document_of (l : list string) : Document.document :=
  Document.Plain None None {["content" := view_of l]} ∅ [].

(** A listener that counts the operations it has seen, and one that
    throws on every operation; [reset] starts the count again. *)
Definition counting : Versioned.listener (Op := unit) (LState := nat) :=
  Versioned.Listener (λ _ seen, (Returned tt, S seen)) (λ _, 0%nat) 0%nat 10.

Definition broken : Versioned.listener (Op := unit) (LState := nat) :=
  Versioned.Listener (λ _ seen, (Thrown (JsError "broken"), S seen)) (λ _, 0%nat) 0%nat 5.

(** A document in a transaction with the broken listener at reference
    [0], registered before the counting listener at reference [1]. *)
Definition observed : Versioned.Document (Op := unit) (Data := unit)
    (ChangeMap := list unit) (History := unit) (LState := nat) :=
  Versioned.mkDocument tt tt true (Some []) [0; 1]%nat
    (λ r, if decide (r = 0%nat) then broken else counting) [].

(** A document in a transaction with two listeners that throw on every
    operation, and a [reset()] that throws for the listener at
    reference [0] only. *)
Definition unobserved : Versioned.Document (Op := unit) (Data := unit)
    (ChangeMap := list unit) (History := unit) (LState := nat) :=
  Versioned.mkDocument tt tt true (Some []) [0; 1]%nat (λ _, broken) [].

Definition reset_of_first (r : nat) (st : nat) : outcome unit :=
  if decide (r = 0%nat) then Thrown (JsError "reset failed") else Returned tt.

(** A document with four paragraphs, two of them shown in the view
    ["content"]. *)
Definition paragraph (id : string) : Graph.node := Graph.Node id "paragraph" ∅.

Definition article : Document.document :=
  Document.Plain None None
    (<["content" := view_of ["p1"; "p2"]]>
       (list_to_map ((λ id, (id, paragraph id)) <$> ["p1"; "p2"; "p3"; "p4"])))
    ∅ [].

End Samples.

(** * Properties *)

(** Unfolds the sequencing of calls in the goal. *)
Ltac eff_unfold :=
  unfold mbind, mret, Eff_bind, Eff_ret, bind, ret, throw; cbn.

(** ** Annotator: truncation, range filter, exclusivity, collapse *)

Module AnnotatorProps.
Import Annotator.

Lemma delete_present (a : annotation) (d : doc) :
  nodes d !! ann_id a = Some a →
  _delete a d = (Returned tt, with_nodes d (delete (ann_id a) (nodes d))).
Proof. intros H. unfold _delete, document_delete. by rewrite H. Qed.

Lemma update_present (a : annotation) (r : Z * Z) (d : doc) :
  nodes d !! ann_id a = Some a →
  _update a r d = (Returned tt, with_nodes d (<[ann_id a := set_range a r]> (nodes d))).
Proof. intros H. unfold _update, document_set_range. by rewrite H. Qed.

Lemma create_fresh (path : list string) (type : string) (r : Z * Z) (d : doc) :
  let id := uuid_source d (uuid_count d) in
  let a := Annotation id type path r in
  nodes d !! id = None →
  _create path type r d =
    (Returned a,
     {| nodes := <[id := a]> (nodes d); uuid_source := uuid_source d;
        uuid_count := S (uuid_count d) |}).
Proof.
  intros id a H. subst id a. unfold _create, create, document_create, uuid.
  eff_unfold. by rewrite H.
Qed.

(** C1. [_truncate] on an annotation [[s1,e1]] of the graph and an action
    range [[s2,e2]] returns normally and: deletes the annotation when it
    is covered; moves it to [[e2,e1]] when its head is cut; moves it to
    [[s1,s2]] when its tail is cut; and, when the action range lies
    strictly inside, either shrinks it to [[s1,s2]] and creates an
    annotation of the same type and path over [[e2,e1]] (splittable
    types) or deletes it. For [[2,8]] cut by [[4,6]] in a graph holding
    only that annotation, a splittable type leaves exactly the two
    annotations [[2,4]] and [[6,8]], and any other type leaves none. *)
Theorem truncate_cases (self : behavior) (d : doc) (a : annotation) (s2 e2 : Z) :
  nodes d !! ann_id a = Some a →
  nodes d !! uuid_source d (uuid_count d) = None →
  let s1 := (ann_range a).1 in
  let e1 := (ann_range a).2 in
  let new_id := uuid_source d (uuid_count d) in
  let tail := Annotation new_id (ann_type a) (ann_path a) (e2, e1) in
  let after := nodes (_truncate self a (s2, e2) d).2 in
  (_truncate self a (s2, e2) d).1 = Returned tt
  ∧ (s2 ≤ s1 → e1 ≤ e2 → after = delete (ann_id a) (nodes d))
  ∧ (s2 ≤ s1 → e2 < e1 → after = <[ann_id a := set_range a (e2, e1)]> (nodes d))
  ∧ (s1 < s2 → e1 ≤ e2 → after = <[ann_id a := set_range a (s1, s2)]> (nodes d))
  ∧ (s1 < s2 → e2 < e1 → isSplittable self (ann_type a) = true →
       after = <[new_id := tail]> (<[ann_id a := set_range a (s1, s2)]> (nodes d)))
  ∧ (s1 < s2 → e2 < e1 → isSplittable self (ann_type a) = false →
       after = delete (ann_id a) (nodes d))
  ∧ (ann_range a = (2, 8) → (s2, e2) = (4, 6) → nodes d = {[ann_id a := a]} →
       if isSplittable self (ann_type a)
       then after = {[ann_id a := set_range a (2, 4);
                      new_id := Annotation new_id (ann_type a) (ann_path a) (6, 8)]}
            ∧ size after = 2%nat
       else after = ∅).
Proof.
  intros Ha Hnew_id s1 e1 new_id tail after.
  assert (Hne : new_id ≠ ann_id a) by (intros E; unfold new_id in E; congruence).
  assert (Hrun :
    _truncate self a (s2, e2) d =
      if (s1 >=? s2) && (e1 <=? e2) then
        (Returned tt, with_nodes d (delete (ann_id a) (nodes d)))
      else if (s1 >=? s2) && (e1 >? e2) then
        (Returned tt, with_nodes d (<[ann_id a := set_range a (e2, e1)]> (nodes d)))
      else if (s1 <? s2) && (e1 <=? e2) then
        (Returned tt, with_nodes d (<[ann_id a := set_range a (s1, s2)]> (nodes d)))
      else if isSplittable self (ann_type a) then
        (Returned tt,
         {| nodes := <[new_id := tail]> (<[ann_id a := set_range a (s1, s2)]> (nodes d));
            uuid_source := uuid_source d; uuid_count := S (uuid_count d) |})
      else (Returned tt, with_nodes d (delete (ann_id a) (nodes d)))).
  { unfold _truncate. cbn [fst snd]. fold s1 e1.
    destruct ((s1 >=? s2) && (e1 <=? e2)); [by apply delete_present|].
    destruct ((s1 >=? s2) && (e1 >? e2)); [by apply update_present|].
    destruct ((s1 <? s2) && (e1 <=? e2)); [by apply update_present|].
    destruct (isSplittable self (ann_type a)); [|by apply delete_present].
    eff_unfold. rewrite (update_present _ _ _ Ha).
    pose proof (create_fresh (ann_path a) (ann_type a) (e2, e1)
      (with_nodes d (<[ann_id a := set_range a (s1, s2)]> (nodes d)))) as Hc.
    cbn in Hc. rewrite Hc; [done|].
    rewrite lookup_insert_ne; [done|]. intros E. apply Hne. symmetry. exact E. }
  assert (Hcases :
    (s2 ≤ s1 → e1 ≤ e2 → after = delete (ann_id a) (nodes d))
    ∧ (s2 ≤ s1 → e2 < e1 → after = <[ann_id a := set_range a (e2, e1)]> (nodes d))
    ∧ (s1 < s2 → e1 ≤ e2 → after = <[ann_id a := set_range a (s1, s2)]> (nodes d))
    ∧ (s1 < s2 → e2 < e1 → isSplittable self (ann_type a) = true →
         after = <[new_id := tail]> (<[ann_id a := set_range a (s1, s2)]> (nodes d)))
    ∧ (s1 < s2 → e2 < e1 → isSplittable self (ann_type a) = false →
         after = delete (ann_id a) (nodes d))).
  { unfold after. rewrite Hrun.
    repeat split; intros;
      repeat match goal with
      | |- context [?x >=? ?y] => destruct (Z.geb_spec x y); try lia
      | |- context [?x <=? ?y] => destruct (Z.leb_spec x y); try lia
      | |- context [?x >? ?y] => destruct (Z.gtb_spec x y); try lia
      | |- context [?x <? ?y] => destruct (Z.ltb_spec x y); try lia
      | H : isSplittable _ _ = _ |- _ => rewrite H
      end; cbn; done. }
  split.
  { rewrite Hrun.
    destruct ((s1 >=? s2) && (e1 <=? e2)); [done|].
    destruct ((s1 >=? s2) && (e1 >? e2)); [done|].
    destruct ((s1 <? s2) && (e1 <=? e2)); [done|].
    by destruct (isSplittable self (ann_type a)). }
  destruct Hcases as (H1 & H2 & H3 & H4 & H5).
  do 5 (split; [assumption|]).
  intros Hr Hq Hd. injection Hq as -> ->.
  assert (Hs1 : s1 = 2) by (unfold s1; by rewrite Hr).
  assert (He1 : e1 = 8) by (unfold e1; by rewrite Hr).
  destruct (isSplittable self (ann_type a)) eqn:Hsplit.
  - assert (Hafter : after = {[ann_id a := set_range a (2, 4);
        new_id := Annotation new_id (ann_type a) (ann_path a) (6, 8)]}).
    { rewrite H4 by (done || lia). unfold tail. rewrite Hs1, He1, Hd.
      rewrite insert_singleton_eq, <- !insert_empty.
      by apply insert_insert_ne. }
    split; [done|]. rewrite Hafter.
    rewrite map_size_insert_None, map_size_singleton; [done|].
    by rewrite lookup_singleton_ne.
  - rewrite H5 by (done || lia). rewrite Hd. apply delete_singleton_eq.
Qed.

(** The annotation [[2,8]] cut by [[4,6]] with the default behavior:
    ["strong"] is split in two, ["idea"] is deleted. *)
Lemma truncate_cases_witness :
  nodes (_truncate defaultBehavior Samples.strong_2_8 (4, 6)
           (Samples.doc_of Samples.strong_2_8)).2
  = {[ "a1" := Annotation "a1" "strong" Samples.text_path (2, 4);
       "uuid_0" := Annotation "uuid_0" "strong" Samples.text_path (6, 8) ]}
  ∧ nodes (_truncate defaultBehavior Samples.idea_2_8 (4, 6)
             (Samples.doc_of Samples.idea_2_8)).2
    = ∅.
Proof.
  split.
  - pose proof (truncate_cases defaultBehavior (Samples.doc_of Samples.strong_2_8)
                  Samples.strong_2_8 4 6 eq_refl eq_refl) as H.
    cbv zeta in H. destruct H as (_ & _ & _ & _ & _ & _ & H).
    specialize (H eq_refl eq_refl eq_refl).
    change (isSplittable defaultBehavior (ann_type Samples.strong_2_8)) with true in H.
    exact (proj1 H).
  - pose proof (truncate_cases defaultBehavior (Samples.doc_of Samples.idea_2_8)
                  Samples.idea_2_8 4 6 eq_refl eq_refl) as H.
    cbv zeta in H. destruct H as (_ & _ & _ & _ & _ & _ & H).
    specialize (H eq_refl eq_refl eq_refl).
    change (isSplittable defaultBehavior (ann_type Samples.idea_2_8)) with false in H.
    exact H.
Defined.

(** The filter test agrees with the specification's wording whenever the
    end of the query is missing or is not [0]. *)
Lemma overlap_spec_nonzero (a : annotation) (sStart : Z) (sEnd : option Z) :
  sEnd ≠ Some 0 → overlap a sStart sEnd = spec_overlap a sStart sEnd.
Proof.
  intros H. unfold overlap, spec_overlap. destruct sEnd as [e|]; cbn.
  - destruct (Z.eqb_spec e 0) as [->|_]; [done|]. reflexivity.
  - by rewrite andb_true_r.
Qed.

(** An end of [0] is not tested at all: the filter then keeps every
    annotation that ends at or behind the start. *)
Lemma overlap_zero_end (a : annotation) (sStart : Z) :
  overlap a sStart (Some 0) = ((ann_range a).2 >=? sStart).
Proof. reflexivity. Qed.

(** What [_filterByNodeAndRange] returns for a range: under an id, an
    annotation of the index with that id that passes the test; and
    every annotation that passes it, when the ids are distinct. *)
Lemma filter_sound (annotations : list annotation) (sStart : Z) (sEnd : option Z)
    (i : string) (a : annotation) :
  _filterByNodeAndRange annotations (Some (sStart, sEnd)) !! i = Some a →
  a ∈ annotations ∧ ann_id a = i ∧ overlap a sStart sEnd = true.
Proof.
  unfold _filterByNodeAndRange.
  assert (H : ∀ acc : gmap string annotation,
            foldl (λ filtered b,
                     if overlap b sStart sEnd then <[ann_id b := b]> filtered
                     else filtered) acc annotations !! i = Some a →
            acc !! i = Some a
            ∨ (a ∈ annotations ∧ ann_id a = i ∧ overlap a sStart sEnd = true)).
  { induction annotations as [|b l IH]; intros acc; cbn; [by left|].
    intros [Hacc|(Hin & Hid & Hov)]%IH.
    - destruct (overlap b sStart sEnd) eqn:E; [|by left].
      destruct (decide (ann_id b = i)) as [<-|Hne].
      + rewrite lookup_insert_eq in Hacc. injection Hacc as ->.
        right. repeat split; [left|done].
      + rewrite lookup_insert_ne in Hacc by done. by left.
    - right. repeat split; [by right|done..]. }
  intros [Hemp|Hres]%H; [|done]. by rewrite lookup_empty in Hemp.
Qed.

Lemma filter_complete (annotations : list annotation) (sStart : Z) (sEnd : option Z)
    (a : annotation) :
  NoDup (ann_id <$> annotations) →
  a ∈ annotations → overlap a sStart sEnd = true →
  _filterByNodeAndRange annotations (Some (sStart, sEnd)) !! ann_id a = Some a.
Proof.
  unfold _filterByNodeAndRange.
  assert (H : ∀ acc : gmap string annotation,
            NoDup (ann_id <$> annotations) →
            overlap a sStart sEnd = true →
            (a ∈ annotations ∨ (acc !! ann_id a = Some a ∧ ann_id a ∉ ann_id <$> annotations)) →
            foldl (λ filtered b,
                     if overlap b sStart sEnd then <[ann_id b := b]> filtered
                     else filtered) acc annotations !! ann_id a = Some a).
  { induction annotations as [|b l IH]; intros acc Hnd Hov Hcase; cbn.
    { destruct Hcase as [Hin|[Hacc _]]; [by apply elem_of_nil in Hin|done]. }
    cbn in Hnd. apply NoDup_cons in Hnd as [Hb Hnd].
    apply IH; [done..|].
    destruct Hcase as [[->|Hin]%elem_of_cons|[Hacc Hnot]].
    - right. rewrite Hov, lookup_insert_eq. done.
    - by left.
    - right. cbn in Hnot. apply not_elem_of_cons in Hnot as [Hne Hnot].
      split; [|done]. destruct (overlap b sStart sEnd); [|done].
      by rewrite lookup_insert_ne. }
  intros Hnd Hin Hov. apply H; [done..|by left].
Qed.

(** C3. The range filter of [getAnnotations] at the query [[0,0]] and
    the annotation [[3,5]]: the specification's test excludes the
    annotation (its start [3] lies behind the end [0]), but
    [_filterByNodeAndRange] keeps it, because [if (sEnd)] takes the end
    [0] for a missing end; [getAnnotations(path, 0, 3)] of the later
    document class keeps an annotation [[4,6]] the same way. The two
    examples of the specification hold in the code: [[2,5]] overlaps the
    query [[5,7]] and does not overlap [[6,7]]. *)
Theorem filter_ignores_zero_end :
  spec_overlap Samples.strong_3_5 0 (Some 0) = false
  ∧ overlap Samples.strong_3_5 0 (Some 0) = true
  ∧ _filterByNodeAndRange [Samples.strong_3_5] (Some (0, Some 0)) !! "a1"
    = Some Samples.strong_3_5
  ∧ Versioned.getAnnotations [Samples.strong_4_6] (λ _, Some Samples.strong_4_6)
      (Some 0) (Some 3) = [Some Samples.strong_4_6]
  ∧ _filterByNodeAndRange [Samples.strong_2_5] (Some (5, Some 7)) !! "a2"
    = Some Samples.strong_2_5
  ∧ _filterByNodeAndRange [Samples.strong_2_5] (Some (6, Some 7)) !! "a2" = None.
Proof.
  split; [reflexivity|].
  split; [apply overlap_zero_end|].
  split; [cbn; apply lookup_insert_eq|].
  split; [reflexivity|].
  split; [cbn; apply lookup_insert_eq|].
  cbn. apply lookup_empty.
Qed.

(** Exclusivity compares the two entries of the group table, a missing
    entry included. *)
Lemma isExclusive_lookup (self : behavior) (t1 t2 : string) :
  isExclusive self t1 t2 = true
  ↔ get_member (groups self) t1 = get_member (groups self) t2.
Proof. unfold isExclusive. apply bool_decide_eq_true. Qed.

Lemma get_member_own {A} (object : gmap string A) (name : string) (a : A) :
  get_member object name = Own a ↔ object !! name = Some a.
Proof.
  unfold get_member. destruct (object !! name) as [b|].
  - split; congruence.
  - by destruct (bool_decide _).
Qed.

(** Two types without a group are exclusive, both entries being
    [undefined]; a name that the table inherits is exclusive with itself
    only. *)
Example isExclusive_inherited :
  isExclusive defaultBehavior "code" "underline" = true
  ∧ isExclusive defaultBehavior "constructor" "toString" = false
  ∧ isExclusive defaultBehavior "constructor" "code" = false
  ∧ isExclusive defaultBehavior "constructor" "strong" = false.
Proof. by vm_compute. Qed.

(** C8 as stated fails: a type without a group is exclusive with
    itself. *)
Lemma isExclusive_ungrouped_type :
  groups defaultBehavior !! "code" = None
  ∧ isExclusive defaultBehavior "code" "code" = true.
Proof. split; reflexivity. Qed.

(** C8, amended. Two types that both have a group are exclusive exactly
    when the groups are the same; a type with a group and a type
    without one are not exclusive; and every type, grouped or not, is
    exclusive with itself. *)
Theorem isExclusive_groups (self : behavior) (t1 t2 : string) :
  (∀ g1 g2, groups self !! t1 = Some g1 → groups self !! t2 = Some g2 →
     (isExclusive self t1 t2 = true ↔ g1 = g2))
  ∧ (∀ g, groups self !! t1 = Some g → groups self !! t2 = None →
       isExclusive self t1 t2 = false)
  ∧ (∀ g, groups self !! t1 = None → groups self !! t2 = Some g →
       isExclusive self t1 t2 = false)
  ∧ isExclusive self t1 t1 = true.
Proof.
  repeat split.
  - intros E%isExclusive_lookup.
    apply get_member_own in H, H0. congruence.
  - intros ->. apply isExclusive_lookup.
    apply get_member_own in H, H0. congruence.
  - intros g H1 H2. apply bool_decide_eq_false.
    apply get_member_own in H1. rewrite H1. intros E. symmetry in E.
    apply get_member_own in E. congruence.
  - intros g H1 H2. apply bool_decide_eq_false.
    apply get_member_own in H2. rewrite H2. intros E.
    apply get_member_own in E. congruence.
  - by apply isExclusive_lookup.
Qed.

Section Collapse.
Context {Diff : Type}.
Variable Range_transform : Z * Z → Diff → bool → bool → bool * (Z * Z).

(** What [_transform] does when the operation is an update of the
    annotated property. *)
Lemma transform_update (self : behavior) (op : operation Diff)
    (a : annotation) (d : doc) :
  op_kind op = OpUpdate → ann_path a = op_path op →
  _transform Range_transform self op a d =
    let '(changed, newRange) :=
      Range_transform (ann_range a) (op_diff op)
        (expandLeft self a) (expandRight self a) in
    if changed then
      if newRange.1 =? newRange.2 then _delete a d
      else document_set_range (ann_id a) newRange d
    else (Returned tt, d).
Proof.
  intros Hk Hp. unfold _transform. rewrite Hk.
  rewrite bool_decide_eq_true_2 by done. cbn.
  destruct (Range_transform _ _ _ _) as [[] newRange]; [|done].
  by destruct (newRange.1 =? newRange.2).
Qed.

Lemma delete_absent_after (a : annotation) (d : doc) :
  nodes (_delete a d).2 !! ann_id a = None.
Proof.
  unfold _delete, document_delete.
  destruct (nodes d !! ann_id a) eqn:E; cbn; [apply lookup_delete_eq|done].
Qed.

(** Whatever [_transform] leaves under the annotation's id is the node
    that was there before, or a node whose range is not collapsed. *)
Lemma transform_keeps_or_spreads (self : behavior) (op : operation Diff)
    (a a' : annotation) (d : doc) :
  nodes (_transform Range_transform self op a d).2 !! ann_id a = Some a' →
  nodes d !! ann_id a = Some a' ∨ (ann_range a').1 ≠ (ann_range a').2.
Proof.
  unfold _transform.
  destruct (negb (bool_decide (ann_path a = op_path op))); [by left|].
  destruct (op_kind op); cbn; try (by left);
    try (rewrite delete_absent_after; discriminate).
  destruct (Range_transform _ _ _ _) as [[] newRange]; [|by left].
  destruct (Z.eqb_spec newRange.1 newRange.2) as [_|Hne].
  - rewrite delete_absent_after. discriminate.
  - unfold document_set_range.
    destruct (nodes d !! ann_id a) eqn:E; cbn; [|rewrite E; discriminate].
    rewrite lookup_insert_eq. intros [= <-]. by right.
Qed.

(** No [_transform], whatever the operation and the transform of the
    range, brings a collapsed range into a graph that has none. *)
Lemma transform_preserves_spread (self : behavior) (op : operation Diff)
    (a : annotation) (d : doc) :
  (∀ i b, nodes d !! i = Some b → (ann_range b).1 ≠ (ann_range b).2) →
  ∀ i b, nodes (_transform Range_transform self op a d).2 !! i = Some b →
    (ann_range b).1 ≠ (ann_range b).2.
Proof.
  intros Hinv i b.
  assert (Hdel : ∀ i b, nodes (_delete a d).2 !! i = Some b →
            (ann_range b).1 ≠ (ann_range b).2).
  { intros j c. unfold _delete, document_delete.
    destruct (nodes d !! ann_id a); cbn; [|by apply Hinv].
    intros [_ H]%lookup_delete_Some. by apply (Hinv j). }
  unfold _transform.
  destruct (negb (bool_decide (ann_path a = op_path op))); [by apply Hinv|].
  destruct (op_kind op); cbn; try (by apply Hinv); try (by apply Hdel).
  destruct (Range_transform _ _ _ _) as [[] newRange]; [|by apply Hinv].
  destruct (Z.eqb_spec newRange.1 newRange.2) as [_|Hne]; [by apply Hdel|].
  unfold document_set_range.
  destruct (nodes d !! ann_id a) eqn:E; cbn; [|by apply Hinv].
  destruct (decide (ann_id a = i)) as [<-|Hi].
  - rewrite lookup_insert_eq. by intros [= <-].
  - rewrite lookup_insert_ne by done. by apply Hinv.
Qed.

(** An update that the transform reports to leave the range alone
    leaves the whole document alone. *)
Lemma transform_unchanged (self : behavior) (op : operation Diff)
    (a : annotation) (d : doc) :
  op_kind op = OpUpdate →
  (Range_transform (ann_range a) (op_diff op)
     (expandLeft self a) (expandRight self a)).1 = false →
  _transform Range_transform self op a d = (Returned tt, d).
Proof.
  intros Hk Hflag. unfold _transform. rewrite Hk.
  destruct (negb (bool_decide (ann_path a = op_path op))); [done|].
  destruct (Range_transform _ _ _ _) as [changed newRange].
  cbn in Hflag. by subst changed.
Qed.

(** C4, as the code has it. The deletion of a collapsed range sits
    behind the flag of the transform ([if (changed)]): when an update of
    the annotated property is co-transformed against an annotation, the
    transform reports a change and the range it leaves has equal start
    and end, the annotation is absent from the graph afterwards, so
    looking it up again finds nothing. When the flag is only down for a
    range that was returned as it was given, a collapsed result for an
    annotation whose range was not collapsed always means a change, and
    the annotation is deleted. A collapsed range is never written: after
    any [_transform], the node under the annotation's id is the one that
    was there before or has a range with different ends, and a graph
    without collapsed ranges stays without. And an update for which the
    transform reports no change leaves the document as it is, with every
    annotation in it, whatever its range. *)
Theorem transform_collapse (self : behavior) (op : operation Diff)
    (a : annotation) (d : doc) :
  let d' := (_transform Range_transform self op a d).2 in
  let transformed :=
    Range_transform (ann_range a) (op_diff op) (expandLeft self a) (expandRight self a) in
  (op_kind op = OpUpdate → ann_path a = op_path op →
   transformed.1 = true → transformed.2.1 = transformed.2.2 →
   nodes d' !! ann_id a = None)
  ∧ (op_kind op = OpUpdate → ann_path a = op_path op →
     (transformed.1 = false → transformed.2 = ann_range a) →
     (ann_range a).1 ≠ (ann_range a).2 →
     transformed.2.1 = transformed.2.2 →
     nodes d' !! ann_id a = None)
  ∧ (∀ b, nodes d' !! ann_id a = Some b →
       nodes d !! ann_id a = Some b ∨ (ann_range b).1 ≠ (ann_range b).2)
  ∧ ((∀ i b, nodes d !! i = Some b → (ann_range b).1 ≠ (ann_range b).2) →
     ∀ i b, nodes d' !! i = Some b → (ann_range b).1 ≠ (ann_range b).2)
  ∧ (op_kind op = OpUpdate → transformed.1 = false →
     _transform Range_transform self op a d = (Returned tt, d)).
Proof.
  intros d' transformed.
  assert (Hchanged : op_kind op = OpUpdate → ann_path a = op_path op →
            transformed.1 = true → transformed.2.1 = transformed.2.2 →
            nodes d' !! ann_id a = None).
  { intros Hk Hp Ht Hc. unfold d'. rewrite transform_update by done.
    fold transformed. destruct transformed as [changed newRange].
    cbn in Ht, Hc. subst changed.
    rewrite (proj2 (Z.eqb_eq _ _) Hc). apply delete_absent_after. }
  split; [done|]. split; [|split; [|split]].
  - intros Hk Hp Hsame Hspread Hc. apply Hchanged; [done..| |done].
    destruct (transformed.1) eqn:E; [done|].
    rewrite (Hsame eq_refl) in Hc. done.
  - intros b. apply transform_keeps_or_spreads.
  - apply transform_preserves_spread.
  - intros Hk Hflag. by apply transform_unchanged.
Qed.

End Collapse.

(** The annotation [[4,6]] when ten characters are deleted at offset [2]:
    the range becomes [[2,2]] and the annotation is gone. *)
Lemma transform_collapse_witness :
  nodes (_transform Samples.delete_transform defaultBehavior
           (Operation OpUpdate Samples.text_path (2, 10))
           Samples.strong_4_6 (Samples.doc_of Samples.strong_4_6)).2
    !! "a3" = None.
Proof.
  exact (proj1 (transform_collapse Samples.delete_transform defaultBehavior
           (Operation OpUpdate Samples.text_path (2, 10))
           Samples.strong_4_6 (Samples.doc_of Samples.strong_4_6))
           eq_refl eq_refl eq_refl eq_refl).
Defined.

(** The claim as it is written fails for an annotation whose range is a
    single point already. [copy] makes such annotations: of [[2,8]],
    copied with a selection that starts at offset [8], it returns the
    part [[0,0]]. When two characters are deleted at offset [10], behind
    the annotation [[3,3]], the transform leaves the range as it is, with
    equal start and end, and reports no change; [_transform] returns and
    the annotation is in the graph as before. *)
Lemma transform_keeps_collapsed :
  (Commands.copy defaultBehavior
     (Commands.Extent ["text_1"] 8 10 [("text_1", (8, 10))])
     (Samples.doc_of Samples.strong_2_8)).1
    = Returned [Annotation "uuid_0" "strong" Samples.text_path (0, 0)]
  ∧ Samples.delete_transform (ann_range Samples.strong_3_3) (10, 2)
      (expandLeft defaultBehavior Samples.strong_3_3)
      (expandRight defaultBehavior Samples.strong_3_3) = (false, (3, 3))
  ∧ (_transform Samples.delete_transform defaultBehavior
       (Operation OpUpdate Samples.text_path (10, 2))
       Samples.strong_3_3 (Samples.doc_of Samples.strong_3_3)).1 = Returned tt
  ∧ nodes (_transform Samples.delete_transform defaultBehavior
             (Operation OpUpdate Samples.text_path (10, 2))
             Samples.strong_3_3 (Samples.doc_of Samples.strong_3_3)).2
      !! "a4" = Some Samples.strong_3_3
  ∧ (ann_range Samples.strong_3_3).1 = (ann_range Samples.strong_3_3).2.
Proof.
  split; [by vm_compute|]. split; [by vm_compute|].
  split; [by vm_compute|]. split; [by vm_compute|]. done.
Qed.

End AnnotatorProps.

(** ** Paste writes into the objects it is given *)

Module ObjectsProps.
Import Objects.

(** One round of the loop on an object that is ready. *)
Lemma paste_one_run (n : option string) (k : option Z) (l : positive)
    (s : store) (o : object) (p : list string) (r : Z * Z) :
  objects s !! l = Some o → paths s !! o_path o = Some p →
  ranges s !! o_range o = Some r → nodes s !! o_id o = None →
  let q := fresh (dom (paths s)) in
  paste_one n k l s =
    (Returned tt,
     {| objects := match n with
                   | Some _ => <[l := Object (o_id o) (o_type o) q (o_range o)]> (objects s)
                   | None => objects s
                   end;
        paths := match n with
                 | Some x => <[q := set_first x p]> (paths s)
                 | None => paths s
                 end;
        ranges := match k with
                  | Some z => <[o_range o := (r.1 + z, r.2 + z)]> (ranges s)
                  | None => ranges s
                  end;
        nodes := <[o_id o := l]> (nodes s) |}).
Proof.
  intros Ho Hp Hr Hn q. unfold paste_one, clone_path, shift_range, create, read.
  destruct n as [x|], k as [z|]; eff_unfold;
    repeat first
      [ rewrite lookup_insert_eq | rewrite Ho | rewrite Hp | rewrite Hr
      | rewrite Hn | progress cbn ];
    try done.
  all: by destruct s.
Qed.

(** The whole loop on a list that is ready: every object of the list
    is pasted, and nothing else in the store is touched. *)
Lemma paste_effect (n : option string) (k : option Z) (ls : list positive) :
  ∀ s, ready s ls →
  ∃ s', paste ls n k s = (Returned tt, s')
    ∧ (∀ l o, l ∈ ls → objects s !! l = Some o → pasted n k s s' l o)
    ∧ (∀ l, l ∉ ls → objects s' !! l = objects s !! l)
    ∧ (∀ q p, paths s !! q = Some p → paths s' !! q = Some p)
    ∧ (∀ q, (∀ l o, l ∈ ls → objects s !! l = Some o → o_range o ≠ q) →
         ranges s' !! q = ranges s !! q)
    ∧ (∀ i, (∀ l o, l ∈ ls → objects s !! l = Some o → o_id o ≠ i) →
         nodes s' !! i = nodes s !! i).
Proof.
  induction ls as [|l ls IH]; intros s (Hnd & Hobj & Hsep).
  { exists s. split; [done|]. split; [|done]. intros l o Hl. by apply elem_of_nil in Hl. }
  destruct (Hobj l) as (o & Ho & [p Hp] & [r Hr] & Hn); [left|].
  pose proof (paste_one_run n k l s o p r Ho Hp Hr Hn) as Hstep. cbv zeta in Hstep.
  set (q := fresh (dom (paths s))) in *.
  match type of Hstep with _ = (_, ?x) => set (s1 := x) in * end.
  assert (Hq : paths s !! q = None) by (apply not_elem_of_dom, is_fresh).
  apply NoDup_cons in Hnd as [Hl Hnd].
  assert (Hobj1 : ∀ l', l' ≠ l → objects s1 !! l' = objects s !! l').
  { intros l' Hne. unfold s1; cbn. destruct n; [by rewrite lookup_insert_ne|done]. }
  assert (Hpaths1 : ∀ q' p', paths s !! q' = Some p' → paths s1 !! q' = Some p').
  { intros q' p' H. unfold s1; cbn. destruct n; [|done].
    rewrite lookup_insert_ne; [done|]. intros <-. congruence. }
  assert (Hranges1 : ∀ q', q' ≠ o_range o → ranges s1 !! q' = ranges s !! q').
  { intros q' Hne. unfold s1; cbn. destruct k; [by rewrite lookup_insert_ne|done]. }
  assert (Hrange_o : ranges s1 !! o_range o = Some (shifted k r)).
  { unfold s1; cbn. destruct k; cbn; [apply lookup_insert_eq|done]. }
  assert (Hnodes1 : nodes s1 = <[o_id o := l]> (nodes s)) by done.
  assert (Hother : ∀ l' o', l' ∈ ls → objects s !! l' = Some o' →
            l' ≠ l ∧ o_range o' ≠ o_range o ∧ o_id o' ≠ o_id o).
  { intros l' o' Hl' Ho'. assert (l' ≠ l) by (intros ->; done).
    split; [done|]. apply (Hsep l' l o' o); try done; [by right|left]. }
  assert (Hready1 : ready s1 ls).
  { split; [done|]. split.
    - intros l' Hl'.
      destruct (Hobj l') as (o' & Ho' & [p' Hp'] & [r' Hr'] & Hn'); [by right|].
      destruct (Hother l' o' Hl' Ho') as (Hne & Hrne & Hine).
      exists o'. rewrite Hobj1 by done. split; [done|].
      split; [eauto|]. rewrite Hranges1 by done. split; [eauto|].
      rewrite Hnodes1, lookup_insert_ne by done. done.
    - intros l1 l2 o1 o2 H1 H2 Hne Ho1 Ho2.
      rewrite Hobj1 in Ho1 by (intros ->; done).
      rewrite Hobj1 in Ho2 by (intros ->; done).
      apply (Hsep l1 l2 o1 o2); try done; by right. }
  destruct (IH s1 Hready1) as (s' & Hrun & HA & HB & HC & HD & HE).
  exists s'. split.
  { unfold paste in *. cbn [each]. unfold bind. by rewrite Hstep. }
  assert (Hrest : ∀ l' o', l' ∈ ls → objects s1 !! l' = Some o' →
            objects s !! l' = Some o').
  { intros l' o' Hl' Ho'. rewrite Hobj1 in Ho'; [done|]. intros ->; done. }
  split; [|split; [|split; [|split]]].
  - intros l' o' [->|Hl']%elem_of_cons Ho'.
    + (* the head *)
      assert (o' = o) as -> by congruence.
      set (o1 := match n with
                 | Some _ => Object (o_id o) (o_type o) q (o_range o)
                 | None => o
                 end).
      assert (Ho1 : objects s1 !! l = Some o1).
      { unfold s1, o1; cbn. destruct n; [apply lookup_insert_eq|done]. }
      exists o1. rewrite HB by done. split; [done|].
      assert (Hsame : o_id o1 = o_id o ∧ o_type o1 = o_type o ∧ o_range o1 = o_range o)
        by (unfold o1; by destruct n).
      destruct Hsame as (-> & -> & ->). do 3 (split; [done|]).
      split.
      { rewrite HD, Hrange_o, Hr; [done|].
        intros l2 o2 Hl2 Ho2. apply Hrest in Ho2; [|done].
        by destruct (Hother l2 o2 Hl2 Ho2) as (_ & ? & _). }
      split.
      { unfold o1. destruct n as [x|]; [|done]. cbn. split; [done|].
        rewrite Hp. cbn. apply HC. unfold s1; cbn. apply lookup_insert_eq. }
      split.
      { rewrite Hp. apply HC, Hpaths1, Hp. }
      rewrite HE, Hnodes1; [apply lookup_insert_eq|].
      intros l2 o2 Hl2 Ho2. apply Hrest in Ho2; [|done].
      by destruct (Hother l2 o2 Hl2 Ho2) as (_ & _ & ?).
    + (* the rest *)
      destruct (Hother l' o' Hl' Ho') as (Hne & Hrne & Hine).
      destruct (Hobj l') as (o'' & Ho'' & [p' Hp'] & [r' Hr'] & Hn'); [by right|].
      assert (o'' = o') as -> by congruence.
      destruct (HA l' o' Hl') as (o2 & Ho2 & Hid & Hty & Hrg & Hrs & Hpath & Hold & Hdoc).
      { by rewrite Hobj1. }
      exists o2. do 4 (split; [done|]).
      split.
      { rewrite Hrs. by rewrite Hranges1. }
      split.
      { destruct n as [x|]; [|done]. destruct Hpath as [Hnone Hnew]. split.
        - destruct (paths s !! o_path o2) eqn:E; [|done].
          apply Hpaths1 in E. congruence.
        - rewrite Hnew, Hp'. by rewrite (Hpaths1 _ _ Hp'). }
      split; [|done].
      rewrite Hold, Hp'. by apply Hpaths1.
  - intros l' Hl'. apply not_elem_of_cons in Hl' as [Hne Hl'].
    rewrite HB by done. by apply Hobj1.
  - intros q' p' H. by apply HC, Hpaths1.
  - intros q' Hq'. rewrite HD.
    + apply Hranges1. intros ->. by apply (Hq' l o); [left|..].
    + intros l' o' Hl' Ho'. apply (Hq' l' o'); [by right|by apply Hrest].
  - intros i Hi. rewrite HE.
    + rewrite Hnodes1, lookup_insert_ne; [done|]. intros E. by apply (Hi l o); [left|..].
    + intros l' o' Hl' Ho'. apply (Hi l' o'); [by right|by apply Hrest].
Qed.





End ObjectsProps.

(** ** Documents: snapshots, [hide], transactions *)

Module DocumentProps.
Import Graph Document.

(** C7. A document rebuilt from its own snapshot has the same node
    mapping: the same set of node ids and, under every id, a node with
    the same type and the same property values. *)
Theorem snapshot_round_trip (G : document) (options : option (string * string)) :
  let G' := fromSnapshot (toJSON G) options in
  nodes G' = nodes G
  ∧ dom (nodes G') = dom (nodes G)
  ∧ (∀ id n, nodes G !! id = Some n →
       ∃ n', nodes G' !! id = Some n'
         ∧ node_id n' = node_id n
         ∧ node_type n' = node_type n
         ∧ properties n' = properties n).
Proof.
  intros G'. assert (H : nodes G' = nodes G) by reflexivity.
  split; [done|]. split; [by rewrite H|].
  intros id n Hn. exists n. by rewrite H.
Qed.

(** [hide] with ids of which none is in the view applies no operation
    and leaves the document as it is. *)
Lemma hide_absent (viewId : string) (given : list string) (d : document)
    (view : node) (view_nodes : list string) :
  get d viewId = Some view →
  properties view !! "nodes" = Some (VArray view_nodes) →
  (∀ n, n ∈ given → n ∉ view_nodes) →
  hide viewId (ManyIds given) d = (Returned tt, d).
Proof.
  intros Hv Hn Habs. unfold hide. rewrite Hv, Hn.
  assert (Hnone : omap (indexOf view_nodes) given = []).
  { induction given as [|n given IH]; [done|]. cbn.
    assert (indexOf view_nodes n = None) as ->.
    { unfold indexOf. destruct (list_find _ _) as [[i x]|] eqn:E; [|done].
      apply list_find_Some in E as (Hi & -> & _).
      destruct (Habs n); [left|]. by eapply list_elem_of_lookup_2. }
    apply IH. intros m Hm. apply Habs. by right. }
  by rewrite Hnone.
Qed.

(** *** [hide] on views whose positions have one digit *)

Section Hide.
Variable given : list string.

Lemma hidden_positions_snoc_out (l : list string) (x : string) (ps : list nat) :
  x ∉ given → hidden_positions given (l ++ [x]) ps →
  hidden_positions given l ps ∧ Forall (λ p, p < length l)%nat ps.
Proof.
  intros Hx [Hsorted Hps].
  assert (Hlt : ∀ i, i ∈ ps → (i < length l)%nat).
  { intros i [n [Hn Hi]]%Hps. apply lookup_snoc_Some in Hi as [[? _]|[_ ->]]; done. }
  split; [|by apply Forall_forall].
  split; [done|]. intros i. rewrite Hps. split.
  - intros (n & Hn & Hi). exists n. split; [done|].
    apply lookup_snoc_Some in Hi as [[_ ?]|[_ ->]]; done.
  - intros (n & Hn & Hi). exists n. split; [done|].
    apply lookup_snoc_Some. left. split; [by eapply lookup_lt_Some|done].
Qed.

Lemma hidden_positions_snoc_in (l : list string) (x : string) (ps : list nat) :
  x ∈ given → hidden_positions given (l ++ [x]) ps →
  ∃ ps', ps = length l :: ps' ∧ hidden_positions given l ps'
         ∧ Forall (λ p, p < length l)%nat ps'.
Proof.
  intros Hx [Hsorted Hps].
  assert (Hle : ∀ i, i ∈ ps → (i ≤ length l)%nat).
  { intros i [n [Hn Hi]]%Hps. apply lookup_lt_Some in Hi.
    rewrite length_app in Hi. cbn in Hi. lia. }
  assert (Hlast : length l ∈ ps).
  { apply Hps. exists x. split; [done|]. apply list_lookup_middle. done. }
  destruct ps as [|p ps']; [by apply elem_of_nil in Hlast|].
  apply StronglySorted_cons in Hsorted as [Hhd Hsorted].
  assert (p = length l) as ->.
  { apply elem_of_cons in Hlast as [->|Hin]; [done|].
    rewrite Forall_forall in Hhd. specialize (Hhd _ Hin).
    assert (p ≤ length l)%nat by (apply Hle; left). lia. }
  exists ps'. split; [done|].
  assert (Hlt : Forall (λ p, p < length l)%nat ps') by done.
  split; [|done]. split; [done|]. intros i. split.
  - intros Hi. destruct (proj1 (Hps i)) as (n & Hn & Hl); [by right|].
    exists n. split; [done|].
    rewrite Forall_forall in Hlt. specialize (Hlt _ Hi).
    by rewrite lookup_app_l in Hl.
  - intros (n & Hn & Hi).
    assert (Hin : i ∈ length l :: ps').
    { apply Hps. exists n. split; [done|]. by apply lookup_app_l_Some. }
    apply elem_of_cons in Hin as [->|Hin]; [|done].
    apply lookup_lt_Some in Hi. lia.
Qed.

(** The deletions of the compound name the values of the view at the
    positions; below the end of a prefix these are the prefix's. *)
Lemma deletions_prefix (l : list string) (x : string) (ps : list nat) :
  Forall (λ p, p < length l)%nat ps →
  (λ index, ArrayDelete index ((l ++ [x]) !! index)) <$> ps
  = (λ index, ArrayDelete index (l !! index)) <$> ps.
Proof.
  intros H. apply list_fmap_ext. intros _ p Hp%list_elem_of_lookup_2.
  rewrite Forall_forall in H. by rewrite lookup_app_l by auto.
Qed.

(** Deleting the hidden positions in descending order removes exactly
    the given ids, whatever follows the view's nodes in the array. *)
Lemma delete_hidden_positions (view_nodes : list string) :
  ∀ (ps : list nat) (suffix : list string),
    hidden_positions given view_nodes ps →
    apply_array_compound
      ((λ index, ArrayDelete index (view_nodes !! index)) <$> ps)
      (view_nodes ++ suffix)
    = Some (filter (λ n, n ∉ given) view_nodes ++ suffix).
Proof.
  induction view_nodes as [|x l IH] using rev_ind; intros ps suffix Hps.
  { destruct ps as [|p ps]; [by rewrite filter_nil|].
    destruct (proj1 (proj2 Hps p)) as (n & _ & Hn); [left|].
    by rewrite lookup_nil in Hn. }
  destruct (decide (x ∈ given)) as [Hx|Hx].
  - destruct (hidden_positions_snoc_in l x ps Hx Hps) as (ps' & -> & Hps' & Hlt).
    cbn [fmap list_fmap apply_array_compound apply_array_op].
    rewrite decide_True; last first.
    { rewrite <- app_assoc. cbn [app]. by rewrite !list_lookup_middle. }
    rewrite <- app_assoc. cbn [app]. rewrite delete_middle.
    change (list_fmap ?f ?l) with (f <$> l).
    rewrite deletions_prefix, IH by done.
    rewrite filter_app, filter_cons_False, filter_nil, app_nil_r; [done|].
    by intros ?.
  - destruct (hidden_positions_snoc_out l x ps Hx Hps) as [Hps' Hlt].
    rewrite deletions_prefix, <- app_assoc by done. cbn [app].
    rewrite IH by done.
    rewrite filter_app, filter_cons_True, filter_nil, <- app_assoc by done.
    done.
Qed.

End Hide.

(** On positions of one digit the order of the string conversions is
    the order of the numbers. *)
Lemma digit_order (a b : nat) :
  (a < 10)%nat → (b < 10)%nat →
  String.le (pretty a) (pretty b) → (a ≤ b)%nat.
Proof.
  intros Ha Hb.
  destruct a as [|[|[|[|[|[|[|[|[|[|a]]]]]]]]]]; [..|lia];
    (destruct b as [|[|[|[|[|[|[|[|[|[|b]]]]]]]]]]; [..|lia]);
    try lia; intros H; by vm_compute in H.
Qed.

Lemma sort_digits (l : list nat) :
  Forall (λ p, p < 10)%nat l → StronglySorted le (Document.sort l).
Proof.
  intros Hl. apply Sorted_StronglySorted; [apply _|].
  assert (Hs : Forall (λ p, p < 10)%nat (Document.sort l)).
  { unfold Document.sort. by rewrite merge_sort_Permutation. }
  assert (Hsorted : Sorted (λ a b, String.le (pretty a) (pretty b)) (Document.sort l)).
  { assert (Total (λ a b : nat, String.le (pretty a) (pretty b)))
      by (intros a b; apply (total String.le)).
    unfold Document.sort. by apply Sorted_merge_sort. }
  induction Hsorted as [|a k Hk IH Hhd]; [constructor|].
  apply Forall_cons in Hs as [Ha Hs]. constructor; [by apply IH|].
  destruct Hhd as [|b k Hab]; constructor.
  apply Forall_cons in Hs as [Hb _]. by apply digit_order.
Qed.

(** [_.uniq] keeps the elements and, on a list in descending order,
    leaves a strictly descending one. *)
Lemma uniq_from_elem (seen l : list nat) (i : nat) :
  i ∈ uniq_from seen l ↔ i ∈ l ∧ i ∉ seen.
Proof.
  revert seen. induction l as [|x l IH]; intros seen; cbn.
  { split; [by intros ?%elem_of_nil|by intros [?%elem_of_nil _]]. }
  destruct (decide (x ∈ seen)) as [Hx|Hx].
  - rewrite IH, elem_of_cons. split; [tauto|].
    intros [[->|?] ?]; [done|tauto].
  - rewrite !elem_of_cons, IH, not_elem_of_cons. split.
    + intros [->|(? & ? & ?)]; [split; [by left|done]|split; [by right|done]].
    + intros [[->|?] ?]; [by left|].
      destruct (decide (i = x)) as [->|]; [by left|right; done].
Qed.

Lemma uniq_descending (l : list nat) :
  StronglySorted (flip le) l →
  StronglySorted (λ p q, q < p)%nat (uniq l) ∧ ∀ i, i ∈ uniq l ↔ i ∈ l.
Proof.
  intros Hl. split.
  - unfold uniq. generalize (@nil nat) as seen.
    induction Hl as [|x l Hl IH Hx]; intros seen; cbn; [constructor|].
    destruct (decide (x ∈ seen)); [apply IH|].
    constructor; [apply IH|].
    apply Forall_forall. intros q [Hq Hseen]%uniq_from_elem.
    apply not_elem_of_cons in Hseen as [Hne _].
    rewrite Forall_forall in Hx. specialize (Hx q Hq). unfold flip in Hx. lia.
  - intros i. unfold uniq. rewrite uniq_from_elem. split; [by intros [? _]|].
    intros ?. split; [done|]. by intros ?%elem_of_nil.
Qed.

(** The positions [hide] collects are the positions of the view that
    hold a given id, when no given id is in the view twice. *)
Lemma indexes_elem (given view_nodes : list string) (i : nat) :
  (∀ n j k, n ∈ given → view_nodes !! j = Some n → view_nodes !! k = Some n → j = k) →
  i ∈ omap (indexOf view_nodes) given
  ↔ ∃ n, n ∈ given ∧ view_nodes !! i = Some n.
Proof.
  intros Honce. rewrite list_elem_of_omap. unfold indexOf. split.
  - intros (n & Hn & Hfind).
    destruct (list_find _ _) as [[j x]|] eqn:E; [|done].
    injection Hfind as ->. apply list_find_Some in E as (Hi & -> & _). eauto.
  - intros (n & Hn & Hi). exists n. split; [done|].
    destruct (list_find_elem_of (λ x, x = n) view_nodes n) as [[j x] E];
      [by eapply list_elem_of_lookup_2|done|].
    rewrite E. cbn. f_equal.
    apply list_find_Some in E as (Hj & -> & _). by apply (Honce n).
Qed.

(** In a view of at most ten nodes in which no given id occurs twice,
    [hide] computes the hidden positions. *)
Lemma hide_positions (given view_nodes : list string) :
  (length view_nodes ≤ 10)%nat →
  (∀ n j k, n ∈ given → view_nodes !! j = Some n → view_nodes !! k = Some n → j = k) →
  hidden_positions given view_nodes
    (uniq (reverse (Document.sort (omap (indexOf view_nodes) given)))).
Proof.
  intros Hlen Honce.
  assert (Hdigits : Forall (λ p, p < 10)%nat (omap (indexOf view_nodes) given)).
  { apply Forall_forall. intros i (n & _ & Hi)%indexes_elem; [|done].
    apply lookup_lt_Some in Hi. lia. }
  pose proof (sort_digits _ Hdigits) as Hsorted.
  apply StronglySorted_Sorted, Sorted_reverse in Hsorted.
  apply Sorted_StronglySorted in Hsorted; [|intros a b c; unfold flip; lia].
  destruct (uniq_descending _ Hsorted) as [Hdesc Helem].
  split; [done|]. intros i.
  rewrite Helem, elem_of_reverse. unfold Document.sort.
  rewrite merge_sort_Permutation. by apply indexes_elem.
Qed.

(** In a view of at most ten nodes in which no given id occurs twice,
    [hide] with ids of which some are in the view leaves the view's
    nodes without the given ids, the other nodes in their order. *)
Lemma hide_one_digit (viewId : string) (given : list string) (d : document)
    (view : node) (view_nodes : list string) :
  get d viewId = Some view →
  properties view !! "nodes" = Some (VArray view_nodes) →
  (length view_nodes ≤ 10)%nat →
  (∀ n j k, n ∈ given → view_nodes !! j = Some n → view_nodes !! k = Some n → j = k) →
  (∃ n, n ∈ given ∧ n ∈ view_nodes) →
  (hide viewId (ManyIds given) d).1 = Returned tt
  ∧ nodes (hide viewId (ManyIds given) d).2
    = <[viewId := set_property view "nodes"
                    (VArray (filter (λ n, n ∉ given) view_nodes))]> (nodes d).
Proof.
  intros Hv Hn Hlen Honce (n & Hgiven & Hin).
  unfold hide. rewrite Hv, Hn.
  assert (Hsome : omap (indexOf view_nodes) given ≠ []).
  { apply list_elem_of_lookup_1 in Hin as [i Hi].
    assert (i ∈ omap (indexOf view_nodes) given) as Hi'
      by (apply indexes_elem; eauto).
    intros E. rewrite E in Hi'. by apply elem_of_nil in Hi'. }
  rewrite decide_False by (by intros ?%nil_length_inv).
  pose proof (delete_hidden_positions given view_nodes _ []
                (hide_positions given view_nodes Hlen Honce)) as Hdel.
  rewrite !app_nil_r in Hdel.
  unfold apply. cbn [graph_apply]. unfold get in Hv. rewrite Hv, Hn, Hdel.
  by destruct d.
Qed.

(** C9. [hide] on a view with eleven nodes and the ids at positions [2]
    and [10]: the positions are ordered as strings, so [[2, 10]] sorts to
    [[10, 2]] and, reversed, position [2] is deleted before position
    [10]. The second deletion then names a position the array no longer
    has: splicing the two positions in this order leaves ["n10"] in the
    array, and the update, which names the value it deletes, is rejected,
    where the claim has both ids removed. With positions of one digit the result is the claimed
    one (in general: [hide_one_digit]), and ids that do not occur leave
    the document unchanged (in general: [hide_absent]). *)
Theorem hide_multi_digit_positions :
  Document.sort [2; 10]%nat = [10; 2]%nat
  ∧ uniq (reverse (Document.sort (omap (indexOf Samples.eleven) ["n2"; "n10"])))
    = [2; 10]%nat
  ∧ foldl (λ arr index, delete index arr) Samples.eleven [2; 10]%nat
    = ["n0"; "n1"; "n3"; "n4"; "n5"; "n6"; "n7"; "n8"; "n9"; "n10"]
  ∧ hide "content" (ManyIds ["n2"; "n10"]) (Samples.document_of Samples.eleven)
    = (Thrown (OperationError "rejected"), Samples.document_of Samples.eleven)
  ∧ hide "content" (ManyIds ["n2"; "n9"]) (Samples.document_of Samples.eleven)
    = (Returned tt,
       Plain None None
         {["content" := Samples.view_of
             ["n0"; "n1"; "n3"; "n4"; "n5"; "n6"; "n7"; "n8"; "n10"]]} ∅
         [Update ["content"; "nodes"]
            [ArrayDelete 9 (Some "n9"); ArrayDelete 2 (Some "n2")]])
  ∧ hide "content" (ManyIds ["x"; "y"]) (Samples.document_of Samples.eleven)
    = (Returned tt, Samples.document_of Samples.eleven).
Proof.
  split; [by vm_compute|].
  split; [by vm_compute|].
  split; [reflexivity|].
  split; [by vm_compute|].
  split.
  - vm_compute. reflexivity.
  - eapply hide_absent; [apply lookup_singleton_eq|apply lookup_singleton_eq|].
    intros n [->|[->|[]%elem_of_nil]%elem_of_cons]%elem_of_cons;
      intros H; apply (bool_decide_pack _) in H; by vm_compute in H.
Qed.

End DocumentProps.

(** ** Transactions and simulations *)

Module TransactionProps.
Import Graph Document Simulation.

(** *** Flattening *)

Lemma flatten_op_compound (ops : list operation) :
  flatten_op (Compound ops) = flat_map flatten_op ops.
Proof. induction ops as [|o ops IH]; [done|]. cbn in *. by rewrite IH. Qed.

(** Induction on operations, through the components of a compound. *)
Lemma operation_nested_ind (P : operation → Prop) :
  (∀ n, P (Create n)) →
  (∀ n, P (Delete n)) →
  (∀ path old new, P (Set_ path old new)) →
  (∀ path diff, P (Update path diff)) →
  (∀ ops, Forall P ops → P (Compound ops)) →
  ∀ op, P op.
Proof.
  intros HC HD HS HU HK. fix IH 1. intros [n|n|p o v|p d|ops].
  - apply HC.
  - apply HD.
  - apply HS.
  - apply HU.
  - apply HK. induction ops as [|o ops IHops]; constructor.
    + apply IH.
    + apply IHops.
Qed.

Lemma flatten_op_flat (op : operation) : flat (flatten_op op).
Proof.
  induction op as [n|n|p o v|p d|ops IH] using operation_nested_ind;
    try (by repeat constructor).
  rewrite flatten_op_compound.
  induction IH as [|o ops Ho _ IHops]; [constructor|].
  cbn. apply Forall_app. by split.
Qed.

Lemma Helpers_flatten_flat (ops : list operation) : flat (Helpers_flatten ops).
Proof.
  induction ops as [|o ops IH]; [constructor|].
  cbn. apply Forall_app. split; [apply flatten_op_flat|apply IH].
Qed.

Lemma flatten_unwrap (op : operation) :
  flat_map flatten_op (unwrap op) = flatten_op op.
Proof.
  destruct op; cbn; [done..|]. symmetry. apply flatten_op_compound.
Qed.

(** The loop of [simulation.save] replaces every compound of the log by
    its components and keeps the order. *)
Lemma collect_ops_unwrap (ops : list operation) :
  collect_ops ops = flat_map unwrap ops.
Proof.
  unfold collect_ops.
  assert (H : ∀ acc, foldl (λ _ops op,
              if negb (is_compound op) then _ops ++ [op]
              else _ops ++ compound_ops op) acc ops
            = acc ++ flat_map unwrap ops).
  { induction ops as [|o ops IH]; intros acc; cbn; [by rewrite app_nil_r|].
    rewrite IH. unfold unwrap.
    destruct (is_compound o); cbn; by rewrite <- app_assoc. }
  apply H.
Qed.

Lemma collect_ops_leaves (ops : list operation) :
  Helpers_flatten (collect_ops ops) = Helpers_flatten ops.
Proof.
  rewrite collect_ops_unwrap. unfold Helpers_flatten.
  induction ops as [|o ops IH]; [done|].
  cbn. rewrite flat_map_app, IH. f_equal. apply flatten_unwrap.
Qed.

Lemma collect_ops_flat (ops : list operation) :
  Forall (λ o, flat (compound_ops o)) ops → flat (collect_ops ops).
Proof.
  rewrite collect_ops_unwrap. induction 1 as [|o ops Ho _ IH]; [constructor|].
  cbn. apply Forall_app. split; [|done].
  unfold unwrap. destruct (is_compound o) eqn:E; [done|]. by repeat constructor.
Qed.

(** *** What [apply] and the write-back of [fileData] do to a document *)

Lemma apply_accepted (op : operation) (d : document) (g' : gmap string node) :
  graph_apply op (nodes d) = Some g' →
  (apply op d).1 = Returned tt
  ∧ nodes (apply op d).2 = g'
  ∧ applied (apply op d).2 = applied d ++ [op]
  ∧ original (apply op d).2 = original d.
Proof. intros H. unfold apply. rewrite H. by destruct d. Qed.

Lemma apply_rejected (op : operation) (d : document) :
  graph_apply op (nodes d) = None →
  apply op d = (Thrown (OperationError "rejected"), d).
Proof. intros H. unfold apply. by rewrite H. Qed.

Lemma set_fileData_frame (key data : string) (d : document) :
  nodes (set_fileData key data d) = nodes d
  ∧ applied (set_fileData key data d) = applied d.
Proof. by destruct d. Qed.

Lemma write_back_frame (d : document) (files : gmap string string) :
  nodes (map_fold (λ key data o, set_fileData key data o) d files) = nodes d
  ∧ applied (map_fold (λ key data o, set_fileData key data o) d files) = applied d.
Proof.
  apply (map_fold_weak_ind (λ r _, nodes r = nodes d ∧ applied r = applied d));
    [done|].
  intros key data m r _ [Hn Ha].
  destruct (set_fileData_frame key data r) as [-> ->]. done.
Qed.

Lemma set_fileData_id (key data : string) (d : document) :
  fileData d !! key = Some data → set_fileData key data d = d.
Proof.
  induction d as [i s g fd ev|o IH g l ev]; cbn; intros H.
  - by rewrite insert_id.
  - by rewrite IH.
Qed.

(** A transaction document reads [fileData] through its original, so
    the write-back of [save] writes every entry onto itself. *)
Lemma write_back_own (d : document) :
  map_fold (λ key data o, set_fileData key data o) d (fileData d) = d.
Proof.
  assert (H : ∀ m, m ⊆ fileData d →
            map_fold (λ key data o, set_fileData key data o) d m = d);
    [|by apply H].
  intros m. apply (map_fold_weak_ind (λ r m, m ⊆ fileData d → r = d)); [done|].
  intros key data m' r Hnone IH Hsub.
  rewrite IH.
  - apply set_fileData_id. eapply lookup_weaken; [|exact Hsub].
    apply lookup_insert_eq.
  - etrans; [|exact Hsub]. by apply insert_subseteq.
Qed.

(** *** Committing *)

Lemma apply_committed (compound : operation) (d : document) :
  committed compound d (apply compound d).2 (apply compound d).1.
Proof.
  unfold committed. destruct (graph_apply compound (nodes d)) as [g'|] eqn:E.
  - destruct (apply_accepted _ _ _ E) as (? & ? & ? & _). done.
  - by rewrite (apply_rejected _ _ E).
Qed.

Lemma simulation_save_run (s : simulation) :
  let _ops := collect_ops (ops s) in
  let after := self (simulation_save s).2 in
  match _ops with
  | [] => (simulation_save s).1 = Returned tt
          ∧ nodes after = nodes (self s) ∧ applied after = applied (self s)
  | _ => committed (Compound _ops) (self s) after (simulation_save s).1
  end.
Proof.
  intros _ops after. unfold after, simulation_save. fold _ops.
  set (self1 := map_fold _ (self s) (fileData (sim s))).
  destruct (write_back_frame (self s) (fileData (sim s))) as [Hn Ha].
  fold self1 in Hn, Ha.
  destruct _ops as [|o l]; [done|].
  pose proof (apply_committed (Compound (o :: l)) self1) as H.
  unfold committed in *. rewrite Hn, Ha in H.
  by destruct (apply (Compound (o :: l)) self1).
Qed.

Lemma save_run (o : document) (g : gmap string node)
    (log ev : list operation) :
  let this := Transaction o g log ev in
  match log with
  | [] => save this = (Returned tt, this)
  | _ => ∃ o', (save this).2 = Transaction o' g log ev
           ∧ committed (Compound (Helpers_flatten log)) o o' (save this).1
  end.
Proof.
  intros this. unfold this, save.
  change (fileData (Transaction o g log ev)) with (fileData o).
  rewrite write_back_own.
  destruct log as [|op l]; [done|].
  pose proof (apply_committed (Compound (Helpers_flatten (op :: l))) o) as H.
  destruct (apply (Compound (Helpers_flatten (op :: l))) o) as [r o'].
  by exists o'.
Qed.

(** *** Discarding *)

Lemma simulation_apply_self (l : list operation) (s : simulation) :
  self (each simulation_apply l s).2 = self s.
Proof.
  revert s. induction l as [|op l IH]; intros s; [done|].
  cbn. unfold bind, simulation_apply at 1.
  destruct (apply op (sim s)) as [[[]|e] sim']; [|done].
  by rewrite IH.
Qed.

Lemma apply_original (l : list operation) (d : document) :
  original (each apply l d).2 = original d.
Proof.
  revert d. induction l as [|op l IH]; intros d; [done|].
  cbn. unfold bind. unfold apply at 1.
  destruct (graph_apply op (nodes d)); [|done].
  rewrite IH. by destruct d.
Qed.

(** C2 as stated fails: a compound inside a compound of the log stays a
    compound in the list [simulation.save] commits, so that list is not
    flat. *)
Lemma simulation_save_keeps_inner_compound :
  let a := Create (Node "p1" "paragraph" ∅) in
  let s := (simulation_apply (Compound [Compound [a]])
              (startSimulation (Samples.document_of []))).2 in
  ops s = [Compound [Compound [a]]]
  ∧ applied (self (simulation_save s).2) = [Compound [Compound [a]]]
  ∧ ¬ flat [Compound [a]].
Proof.
  cbv zeta. split; [by vm_compute|]. split; [by vm_compute|].
  intros H. by inversion H.
Qed.

(** C2, amended. [simulation.save] replaces every compound of the log
    by its components, one level deep and in the recorded order; the
    list holds the same atomic operations in the same order as the log
    and is flat when no compound of the log holds a compound. If the
    list is empty (as it is for an empty log) nothing is applied to the
    original. Otherwise the list is wrapped in one compound that is
    applied to the original once: the original's listeners hear of
    exactly one more operation, the compound, or, when the graph rejects
    it, of none, and the graph is then unchanged. [save] of a
    transaction document does the same with the fully flattened log,
    which is always flat, and applies nothing for an empty log or when
    called on a document that is no transaction. Operations applied to
    a simulation or to a transaction document that is then dropped
    leave the original as it was. *)
Theorem commit_applies_one_compound :
  (∀ s : simulation,
     let _ops := collect_ops (ops s) in
     let after := self (simulation_save s).2 in
     _ops = flat_map unwrap (ops s)
     ∧ Helpers_flatten _ops = Helpers_flatten (ops s)
     ∧ (Forall (λ o, flat (compound_ops o)) (ops s) → flat _ops)
     ∧ (ops s = [] → _ops = [])
     ∧ match _ops with
       | [] => (simulation_save s).1 = Returned tt
               ∧ nodes after = nodes (self s) ∧ applied after = applied (self s)
       | _ => committed (Compound _ops) (self s) after (simulation_save s).1
       end)
  ∧ (∀ (o : document) (g : gmap string node) (log ev : list operation),
       let this := Transaction o g log ev in
       flat (Helpers_flatten log)
       ∧ match log with
         | [] => save this = (Returned tt, this)
         | _ => ∃ o', (save this).2 = Transaction o' g log ev
                  ∧ committed (Compound (Helpers_flatten log)) o o' (save this).1
         end)
  ∧ (∀ d : document, transacting d = false → save d = (Returned tt, d))
  ∧ (∀ (this : document) (l : list operation),
       self (each simulation_apply l (startSimulation this)).2 = this)
  ∧ (∀ (this tx : document) (l : list operation),
       (startTransaction this).1 = Returned tx →
       original (each apply l tx).2 = Some this).
Proof.
  split; [|split; [|split; [|split]]].
  - intros s _ops after.
    split; [apply collect_ops_unwrap|].
    split; [apply collect_ops_leaves|].
    split; [apply collect_ops_flat|].
    split; [by unfold _ops; intros ->|].
    apply simulation_save_run.
  - intros o g log ev this. split; [apply Helpers_flatten_flat|apply save_run].
  - by intros [] H.
  - intros this l. by rewrite simulation_apply_self.
  - intros this tx l [= <-]. by rewrite apply_original.
Qed.

(** *** Starting a transaction *)

(** C6 as stated fails: [startTransaction] of [src/document.js] has no
    guard. Called on a document that is itself an open transaction it
    returns a further transaction on it, and called twice on one
    document it returns a transaction both times. *)
Lemma startTransaction_unguarded :
  let d := Samples.document_of [] in
  ∃ tx tx',
    Document.startTransaction d = (Returned tx, d)
    ∧ transacting tx = true
    ∧ Document.startTransaction tx = (Returned tx', tx)
    ∧ original tx' = Some tx
    ∧ (Document.startTransaction (Document.startTransaction d).2).1 = Returned tx.
Proof. cbv zeta. do 2 eexists. repeat split. Qed.

Section Guard.
Context {Op Data ChangeMap History LState : Type}.
Variable new_ChangeMap : ChangeMap.
Variable setRecoveryPoint : History → History.

(** C6, amended. [startTransaction] of the later document class, the
    one that keeps [isTransacting], throws an error saying that nested
    transactions are not supported when a transaction is open and
    changes nothing; otherwise it opens one. [startTransaction] of
    [src/document.js] keeps no such flag on the original and makes no
    check: it always returns a new transaction document on the document
    it is called on, which is left as it was. *)
Theorem startTransaction_nested
    (D : Versioned.Document (Op := Op) (Data := Data) (ChangeMap := ChangeMap)
           (History := History) (LState := LState)) :
  (Versioned.isTransacting D = true →
   Versioned.startTransaction new_ChangeMap setRecoveryPoint D
   = (Thrown (JsError "Nested transactions are not supported yet."), D))
  ∧ (Versioned.isTransacting D = false →
     (Versioned.startTransaction new_ChangeMap setRecoveryPoint D).1 = Returned tt
     ∧ Versioned.isTransacting
         (Versioned.startTransaction new_ChangeMap setRecoveryPoint D).2 = true
     ∧ Versioned.startTransaction new_ChangeMap setRecoveryPoint
         (Versioned.startTransaction new_ChangeMap setRecoveryPoint D).2
       = (Thrown (JsError "Nested transactions are not supported yet."),
          (Versioned.startTransaction new_ChangeMap setRecoveryPoint D).2))
  ∧ (∀ d : document,
       Document.startTransaction d = (Returned (Transaction d (nodes d) [] []), d)).
Proof.
  unfold Versioned.startTransaction. split; [|split].
  - by intros ->.
  - intros ->. cbn. done.
  - done.
Qed.

End Guard.

(** A document of the later class with an open transaction refuses a
    second one. *)
Lemma startTransaction_nested_witness :
  Versioned.startTransaction (Op := unit) (Data := unit) (LState := unit)
    tt (λ h : nat, S h)
    (Versioned.mkDocument tt 0%nat true (Some tt) []
       (λ _, Versioned.Listener (λ _ st, (Returned tt, st)) (λ st, st) tt 10) [])
  = (Thrown (JsError "Nested transactions are not supported yet."),
     Versioned.mkDocument tt 0%nat true (Some tt) []
       (λ _, Versioned.Listener (λ _ st, (Returned tt, st)) (λ st, st) tt 10) []).
Proof.
  exact (proj1 (startTransaction_nested tt (λ h : nat, S h)
           (Versioned.mkDocument tt 0%nat true (Some tt) []
              (λ _, Versioned.Listener (λ _ st, (Returned tt, st)) (λ st, st) tt 10) []))
           eq_refl).
Defined.

End TransactionProps.

(** ** Operation listeners *)

Module ListenerProps.
Import Versioned.

Section Isolation.
Context {Op Data ChangeMap History LState : Type}.
Variable ChangeMap_update : Op → ChangeMap → ChangeMap.

Local Notation "'Document'" :=
  (Document (Op := Op) (Data := Data) (ChangeMap := ChangeMap)
     (History := History) (LState := LState)).




(** *** The calls of one broadcast, told from what the listeners do *)

Variable reset_result : nat → LState → outcome unit.

(** How often the listener at [r] is in a list of listeners. *)
Definition occurrences (r : nat) (listeners : list nat) : nat :=
  length (filter (λ x, x = r) listeners).

(** The state of the listener at [r] of [D] once it has been invoked
    [k] times with [op]. *)
Definition state_after (op : Op) (D : Document) (r k : nat) : LState :=
  Nat.iter k (λ st, (l_onOperationApplied (heap D r) op st).2)
    (l_state (heap D r)).

(** What the [onOperationApplied(op)] of the listener at [r] of [D]
    throws, if it throws, when the listeners [before] have been invoked
    ahead of it. *)
Definition thrown_after (op : Op) (D : Document) (before : list nat) (r : nat)
  : option error :=
  match (l_onOperationApplied (heap D r) op
           (state_after op D r (occurrences r before))).1 with
  | Returned _ => None
  | Thrown e => Some e
  end.

(** The calls of the first loop when [thrown i r] is what the listener
    [r] at position [i] throws: every listener is invoked, and the error
    of one that throws is caught right behind its invocation. *)
Definition entries (thrown : nat → nat → option error) (listeners : list nat)
  : list call :=
  mjoin (imap (λ i r, Invoked r :: match thrown i r with
                                   | Some e => [Caught r e]
                                   | None => []
                                   end) listeners).

(** The listeners that throw, in the order of the list. *)
Definition throwers (thrown : nat → nat → option error) (listeners : list nat)
  : list nat :=
  mjoin (imap (λ i r, match thrown i r with Some _ => [r] | None => [] end)
           listeners).

Lemma occurrences_snoc (r x : nat) (l : list nat) :
  occurrences r (l ++ [x])
  = (occurrences r l + if decide (x = r) then 1 else 0)%nat.
Proof.
  unfold occurrences. rewrite filter_app, length_app. f_equal.
  rewrite filter_cons, filter_nil. by destruct (decide (x = r)).
Qed.

Lemma entries_ext (f g : nat → nat → option error) (l : list nat) :
  (∀ i r, f i r = g i r) → entries f l = entries g l.
Proof.
  intros H. unfold entries. f_equal. apply imap_ext. intros i r _.
  by rewrite H.
Qed.

Lemma throwers_ext (f g : nat → nat → option error) (l : list nat) :
  (∀ i r, f i r = g i r) → throwers f l = throwers g l.
Proof.
  intros H. unfold throwers. f_equal. apply imap_ext. intros i r _.
  by rewrite H.
Qed.

(** Every listener of the list is invoked, in the order of the list,
    whatever the ones before it threw. *)
Lemma entries_invocations (thrown : nat → nat → option error) (l : list nat) :
  invocations (entries thrown l) = l.
Proof.
  revert thrown. induction l as [|r l IH]; intros thrown; [done|].
  unfold entries, invocations in *. cbn.
  destruct (thrown 0%nat r); cbn; f_equal; apply (IH (thrown ∘ S)).
Qed.

(** The errors caught are those of the listeners that throw. *)
Lemma entries_caught (thrown : nat → nat → option error) (l : list nat)
    (r : nat) (e : error) :
  Caught r e ∈ entries thrown l ↔ ∃ i, l !! i = Some r ∧ thrown i r = Some e.
Proof.
  revert thrown. induction l as [|r0 l IH]; intros thrown.
  { split; [by intros ?%elem_of_nil|by intros (i & ? & _)]. }
  unfold entries in *. cbn. rewrite elem_of_cons, elem_of_app, (IH (thrown ∘ S)).
  split.
  - intros [[=]|[H|(i & Hi & He)]]; [|by exists (S i)].
    destruct (thrown 0%nat r0) as [e0|] eqn:E; [|by apply elem_of_nil in H].
    apply list_elem_of_singleton in H as [= -> ->]. by exists 0%nat.
  - intros ([|i] & Hi & He); cbn in Hi.
    + injection Hi as ->. rewrite He. right; left. by apply list_elem_of_singleton.
    + right; right. by exists i.
Qed.

(** The failed listeners are those that throw. *)
Lemma throwers_elem (thrown : nat → nat → option error) (l : list nat) (r : nat) :
  r ∈ throwers thrown l ↔ ∃ i, l !! i = Some r ∧ is_Some (thrown i r).
Proof.
  revert thrown. induction l as [|r0 l IH]; intros thrown.
  { split; [by intros ?%elem_of_nil|by intros (i & ? & _)]. }
  unfold throwers in *. cbn. rewrite elem_of_app, (IH (thrown ∘ S)).
  split.
  - intros [H|(i & Hi & He)]; [|by exists (S i)].
    destruct (thrown 0%nat r0) as [e0|] eqn:E; [|by apply elem_of_nil in H].
    apply list_elem_of_singleton in H as ->. exists 0%nat. by rewrite E.
  - intros ([|i] & Hi & He); cbn in Hi.
    + injection Hi as ->. left. destruct He as [e ->].
      by apply list_elem_of_singleton.
    + right. by exists i.
Qed.

(** The first loop, started after the listeners [before] of a broadcast
    that began in [B]. *)
Lemma notify_trace (op : Op) (B : Document) (listeners : list nat) :
  ∀ (before failed : list nat) (D : Document),
    (∀ r, heap D r
          = with_state (heap B r) (state_after op B r (occurrences r before))) →
    let thrown := λ i r, thrown_after op B (before ++ take i listeners) r in
    (notify op listeners failed D).1 = failed ++ throwers thrown listeners
    ∧ calls (notify op listeners failed D).2 = calls D ++ entries thrown listeners
    ∧ same_document D (notify op listeners failed D).2
    ∧ transactionChanges (notify op listeners failed D).2 = transactionChanges D
    ∧ (∀ r, heap (notify op listeners failed D).2 r
            = with_state (heap B r)
                (state_after op B r (occurrences r (before ++ listeners)))).
Proof.
  induction listeners as [|r0 listeners IH]; intros before failed D Hinv thrown.
  { cbn. rewrite !app_nil_r. done. }
  cbn [notify]. unfold invoke. rewrite (Hinv r0).
  cbn [l_onOperationApplied l_state with_state].
  assert (Hthrown : thrown 0%nat r0
            = match (l_onOperationApplied (heap B r0) op
                       (state_after op B r0 (occurrences r0 before))).1 with
              | Returned _ => None
              | Thrown e => Some e
              end).
  { unfold thrown, thrown_after. cbn [take]. by rewrite app_nil_r. }
  assert (Hstate : state_after op B r0 (occurrences r0 (before ++ [r0]))
            = (l_onOperationApplied (heap B r0) op
                 (state_after op B r0 (occurrences r0 before))).2).
  { rewrite occurrences_snoc, decide_True, Nat.add_1_r by done. done. }
  destruct (l_onOperationApplied (heap B r0) op
              (state_after op B r0 (occurrences r0 before))) as [res st].
  cbn [fst snd] in Hthrown, Hstate.
  set (D1 := mkDocument _ _ _ _ _ _ _).
  assert (Hinv1 : ∀ r, heap D1 r
            = with_state (heap B r)
                (state_after op B r (occurrences r (before ++ [r0])))).
  { intros r. unfold D1. cbn [heap].
    destruct (decide (r = r0)) as [->|Hr].
    - rewrite fn_lookup_insert, Hstate. done.
    - rewrite fn_lookup_insert_ne, Hinv by done.
      rewrite occurrences_snoc, decide_False, Nat.add_0_r by done. done. }
  assert (Hext : ∀ i r, thrown_after op B ((before ++ [r0]) ++ take i listeners) r
            = thrown (S i) r).
  { intros i r. unfold thrown. cbn [take]. by rewrite <- app_assoc. }
  destruct (IH (before ++ [r0])
              (if match res with Returned _ => false | Thrown _ => true end
               then failed ++ [r0] else failed) D1 Hinv1)
    as (Hf & Hc & (Hd & Hh & Ht & Hl) & Hm & Hheap).
  rewrite (throwers_ext _ _ _ Hext) in Hf. rewrite (entries_ext _ _ _ Hext) in Hc.
  rewrite <- app_assoc in Hheap. cbn [app] in Hheap.
  rewrite Hf, Hc. split; [|split; [|done]].
  - unfold throwers. cbn. fold (throwers (thrown ∘ S) listeners).
    rewrite Hthrown. destruct res; cbn; [done|]. by rewrite <- app_assoc.
  - unfold entries. cbn. fold (entries (thrown ∘ S) listeners).
    rewrite Hthrown. unfold D1. cbn [calls]. rewrite <- app_assoc.
    by destruct res.
Qed.

(** The second loop, started after the resets [earlier] of a broadcast
    whose first loop ended in [B]: the failed listeners are reset in
    turn up to the first [reset()] that throws, and that error is what
    the loop throws. *)
Lemma each_reset_trace (B : Document) (failed : list nat) :
  ∀ (earlier : list nat) (D : Document),
    (∀ r, heap D r
          = with_state (heap B r)
              (Nat.iter (occurrences r earlier) (l_reset (heap B r))
                 (l_state (heap B r)))) →
    let reset_at := λ n r,
      reset_result r
        (Nat.iter (occurrences r (earlier ++ take n failed)) (l_reset (heap B r))
           (l_state (heap B r))) in
    let run := each (Broadcast.reset reset_result) failed D in
    ∃ resets,
      calls run.2 = calls D ++ (Reset <$> resets)
      ∧ same_document D run.2
      ∧ transactionChanges run.2 = transactionChanges D
      ∧ (∀ r, heap run.2 r
              = with_state (heap B r)
                  (Nat.iter (occurrences r (earlier ++ resets)) (l_reset (heap B r))
                     (l_state (heap B r))))
      ∧ ((run.1 = Returned tt ∧ resets = failed
          ∧ ∀ n r, failed !! n = Some r → reset_at n r = Returned tt)
         ∨ (∃ n r e, failed !! n = Some r ∧ reset_at n r = Thrown e
              ∧ (∀ m r', (m < n)%nat → failed !! m = Some r' →
                   reset_at m r' = Returned tt)
              ∧ run.1 = Thrown e ∧ resets = take (S n) failed)).
Proof.
  induction failed as [|r0 failed IH]; intros earlier D Hinv reset_at run.
  { exists []. unfold run. cbn. rewrite !app_nil_r.
    split; [done|]. split; [done|]. split; [done|]. split; [done|].
    left. split; [done|]. split; [done|]. by intros n r [=]. }
  assert (Hinv1 : ∀ r, heap (reset D r0) r
            = with_state (heap B r)
                (Nat.iter (occurrences r (earlier ++ [r0])) (l_reset (heap B r))
                   (l_state (heap B r)))).
  { intros r. unfold reset. cbn [heap].
    destruct (decide (r = r0)) as [->|Hr].
    - rewrite fn_lookup_insert, Hinv.
      rewrite occurrences_snoc, decide_True, Nat.add_1_r by done. done.
    - rewrite fn_lookup_insert_ne, Hinv by done.
      rewrite occurrences_snoc, decide_False, Nat.add_0_r by done. done. }
  assert (Hfirst : reset_at 0%nat r0
            = reset_result r0 (l_state (heap D r0))).
  { unfold reset_at. cbn [take]. by rewrite app_nil_r, Hinv. }
  assert (Hext : ∀ n r,
            reset_result r
              (Nat.iter (occurrences r ((earlier ++ [r0]) ++ take n failed))
                 (l_reset (heap B r)) (l_state (heap B r)))
            = reset_at (S n) r).
  { intros n r. unfold reset_at. cbn [take]. by rewrite <- app_assoc. }
  unfold run. cbn [each]. unfold bind.
  change (Broadcast.reset reset_result r0 D)
    with (reset_result r0 (l_state (heap D r0)), reset D r0).
  destruct (reset_result r0 (l_state (heap D r0))) as [[]|e] eqn:E;
    cbv beta iota.
  - destruct (IH (earlier ++ [r0]) (reset D r0) Hinv1)
      as (resets & Hc & (Hd & Hh & Ht & Hl) & Hm & Hheap & Hrun).
    exists (r0 :: resets). rewrite Hc. cbn [calls reset fmap list_fmap].
    rewrite <- app_assoc. split; [done|]. split; [done|]. split; [done|].
    split. { intros r. rewrite Hheap, <- app_assoc. done. }
    destruct Hrun as [(Hret & -> & Hall)|(n & r & e & Hn & He & Hbefore & Hthrown & ->)].
    + left. split; [done|]. split; [done|].
      intros [|n] r Hn; cbn in Hn.
      * injection Hn as <-. by rewrite Hfirst.
      * rewrite <- Hext. by apply Hall.
    + right. exists (S n), r, e. split; [done|]. rewrite <- Hext.
      split; [done|]. split; [|done].
      intros [|m] r' Hm' Hr'; cbn in Hr'.
      * injection Hr' as <-. by rewrite Hfirst.
      * rewrite <- Hext. apply Hbefore; [lia|done].
  - exists [r0]. cbn [fst snd calls reset fmap list_fmap].
    split; [done|]. split; [done|]. split; [done|]. split; [done|].
    right. exists 0%nat, r0, e. split; [done|]. rewrite Hfirst.
    split; [done|]. split; [|done]. intros m r' Hm. lia.
Qed.

(** C5, as the code has it. When an operation is broadcast (the document
    has a change map), the data the operation was applied to, the
    history and the list of listeners are left as they are, and the
    operation is in the change map. The calls made are first [entries]:
    every registered listener is invoked, in the order of the list and
    also behind a listener that threw, and an error is caught exactly
    where a listener, in the state its earlier invocations left, throws
    it; the failed listeners are those. After all of them [reset()] is
    called on the failed listeners, in the order in which they failed.
    That loop is not guarded: when every [reset()] returns, each failed
    listener has been reset and the call returns; the first [reset()]
    that throws ends the call with its error, and the failed listeners
    behind it are not reset. Every listener is left in the state its
    invocations and its resets brought it to. *)
Theorem listener_isolation (op : Op) (D : Document) (changes : ChangeMap) :
  transactionChanges D = Some changes →
  let listeners := operationListeners D in
  let thrown := λ i r, thrown_after op D (take i listeners) r in
  let failed := throwers thrown listeners in
  let invoked := λ r, state_after op D r (occurrences r listeners) in
  let reset_at := λ n r,
    reset_result r
      (Nat.iter (occurrences r (take n failed)) (l_reset (heap D r)) (invoked r)) in
  let run := Broadcast.onOperationApplied ChangeMap_update reset_result op D in
  same_document D run.2
  ∧ transactionChanges run.2 = Some (ChangeMap_update op changes)
  ∧ invocations (entries thrown listeners) = listeners
  ∧ (∀ r e, Caught r e ∈ entries thrown listeners
            ↔ ∃ i, listeners !! i = Some r ∧ thrown i r = Some e)
  ∧ (∀ r, r ∈ failed ↔ ∃ i, listeners !! i = Some r ∧ is_Some (thrown i r))
  ∧ ∃ resets,
      calls run.2 = calls D ++ entries thrown listeners ++ (Reset <$> resets)
      ∧ (∀ r, heap run.2 r
              = with_state (heap D r)
                  (Nat.iter (occurrences r resets) (l_reset (heap D r)) (invoked r)))
      ∧ ((run.1 = Returned tt ∧ resets = failed
          ∧ ∀ n r, failed !! n = Some r → reset_at n r = Returned tt)
         ∨ (∃ n r e, failed !! n = Some r ∧ reset_at n r = Thrown e
              ∧ (∀ m r', (m < n)%nat → failed !! m = Some r' →
                   reset_at m r' = Returned tt)
              ∧ run.1 = Thrown e ∧ resets = take (S n) failed)).
Proof.
  intros Hchanges listeners thrown failed invoked reset_at run.
  unfold run, Broadcast.onOperationApplied. rewrite Hchanges.
  set (D1 := mkDocument _ _ _ _ _ _ _).
  assert (Hinv : ∀ r, heap D1 r
            = with_state (heap D1 r) (state_after op D1 r (occurrences r []))).
  { intros r. cbn. by destruct (heap D r). }
  destruct (notify_trace op D1 (operationListeners D1) [] [] D1 Hinv)
    as (Hf & Hc & (Hd & Hh & Ht & Hl) & Hm & Hheap).
  cbn [app] in Hf, Hc, Hheap.
  change (throwers _ _) with failed in Hf.
  change (entries _ _) with (entries thrown listeners) in Hc.
  destruct (notify op (operationListeners D1) [] D1) as [failed' D2].
  cbn [fst snd] in *. subst failed'.
  assert (Hstate : ∀ r k,
            Nat.iter k (l_reset (heap D2 r)) (l_state (heap D2 r))
            = Nat.iter k (l_reset (heap D r)) (invoked r)).
  { intros r k. by rewrite Hheap. }
  assert (HinvR : ∀ r, heap D2 r
            = with_state (heap D2 r)
                (Nat.iter (occurrences r []) (l_reset (heap D2 r))
                   (l_state (heap D2 r)))).
  { intros r. cbn. by destruct (heap D2 r). }
  destruct (each_reset_trace D2 failed [] D2 HinvR)
    as (resets & Hc' & (Hd' & Hh' & Ht' & Hl') & Hm' & Hheap' & Hrun).
  cbn [app] in Hheap', Hrun.
  split. { unfold same_document. by rewrite Hd', Hh', Ht', Hl', Hd, Hh, Ht, Hl. }
  split; [by rewrite Hm', Hm|].
  split; [apply entries_invocations|].
  split; [intros r e; apply entries_caught|].
  split; [intros r; apply throwers_elem|].
  exists resets. split; [by rewrite Hc', Hc, <- app_assoc|].
  split. { intros r. rewrite Hheap', Hstate, Hheap. done. }
  destruct Hrun as [(Hret & -> & Hall)|(n & r & e & Hn & He & Hbefore & Hthrown & ->)].
  - left. split; [done|]. split; [done|].
    intros n r Hn. unfold reset_at. rewrite <- Hstate. by apply Hall.
  - right. exists n, r, e. split; [done|]. unfold reset_at.
    rewrite <- Hstate. split; [done|]. split; [|done].
    intros m r' Hm'' Hr'. rewrite <- Hstate. by apply Hbefore.
Qed.

(** With listeners whose [reset()] returns the method is
    [Versioned.onOperationApplied]. *)
Lemma each_reset_returns (failed : list nat) :
  ∀ D : Document,
    each (Broadcast.reset (λ _ _, Returned tt)) failed D
    = (Returned tt, foldl reset D failed).
Proof.
  induction failed as [|r failed IH]; intros D; [done|].
  cbn [each foldl]. unfold bind, Broadcast.reset. apply IH.
Qed.

Lemma onOperationApplied_resets_return (op : Op) (D : Document) :
  Broadcast.onOperationApplied ChangeMap_update (λ _ _, Returned tt) op D
  = onOperationApplied ChangeMap_update op D.
Proof.
  unfold Broadcast.onOperationApplied, onOperationApplied.
  destruct (transactionChanges D); [|done].
  destruct (notify _ _ _ _) as [failed D2]. apply each_reset_returns.
Qed.

End Isolation.

(** A broken listener registered before a counting one, with resets that
    return: both are invoked, the error is caught, the broken one is
    reset at the end, and the call returns. *)
Lemma listener_isolation_witness :
  calls (Broadcast.onOperationApplied (λ op changes, op :: changes)
           (λ _ _, Returned tt) tt Samples.observed).2
    = [Invoked 0; Caught 0 (JsError "broken"); Invoked 1; Reset 0]
  ∧ (Broadcast.onOperationApplied (λ op changes, op :: changes)
       (λ _ _, Returned tt) tt Samples.observed).1 = Returned tt.
Proof.
  destruct (listener_isolation (λ op changes, op :: changes)
              (λ _ _, Returned tt) tt Samples.observed [] eq_refl)
    as (_ & _ & _ & _ & _ & resets & Hcalls & _
        & [(Hret & -> & _)|(n & r & e & _ & He & _)]).
  - split; [exact Hcalls|exact Hret].
  - discriminate He.
Defined.

(** The claim as it is written fails when a [reset()] throws. Two
    listeners throw on the operation; both errors are caught; the
    [reset()] of the first one throws: its error leaves
    [onOperationApplied], and the second failed listener is not
    reset. *)
Lemma reset_escapes :
  (Broadcast.onOperationApplied (λ op changes, op :: changes)
     Samples.reset_of_first tt Samples.unobserved).1
    = Thrown (JsError "reset failed")
  ∧ calls (Broadcast.onOperationApplied (λ op changes, op :: changes)
             Samples.reset_of_first tt Samples.unobserved).2
    = [Invoked 0; Caught 0 (JsError "broken");
       Invoked 1; Caught 1 (JsError "broken"); Reset 0]
  ∧ Reset 1 ∉ calls (Broadcast.onOperationApplied (λ op changes, op :: changes)
                       Samples.reset_of_first tt Samples.unobserved).2.
Proof.
  split; [reflexivity|]. split; [reflexivity|].
  change (Reset 1 ∉ [Invoked 0; Caught 0 (JsError "broken");
                     Invoked 1; Caught 1 (JsError "broken"); Reset 0]).
  intros H. repeat (apply elem_of_cons in H as [[=]|H]).
  by apply elem_of_nil in H.
Qed.

End ListenerProps.

(** ** Views: [show] and [hide] together *)

Module ViewsProps.
Import Graph Document Views.

Lemma clamp_target_range (target l : Z) :
  0 ≤ l → 0 ≤ clamp_target target l ≤ l.
Proof.
  intros Hl. unfold clamp_target.
  destruct (Z.ltb_spec (Z.min target l) 0); lia.
Qed.

(** Insertions at consecutive positions behind a prefix put the nodes
    there, in the order given. *)
Lemma insertions_apply (g : gmap string node) (target : Z) (given : list string) :
  0 ≤ target →
  ∀ (idx : nat) (pre post : list string),
    Forall (λ n, is_Some (g !! n)) given →
    length pre = (Z.to_nat target + idx)%nat →
    ∃ ops, insertions g target idx given = inr ops
      ∧ length ops = length given
      ∧ apply_array_compound ops (pre ++ post) = Some (pre ++ given ++ post).
Proof.
  intros Ht. induction given as [|n given IH]; intros idx pre post Hlive Hpre.
  { exists []. by cbn. }
  apply Forall_cons in Hlive as [[x Hn] Hlive]. cbn [insertions]. rewrite Hn.
  destruct (IH (S idx) (pre ++ [n]) post Hlive) as (ops & -> & Hlen & Happly).
  { rewrite length_app. cbn. lia. }
  eexists. split; [reflexivity|]. split; [by cbn; rewrite Hlen|].
  cbn [apply_array_compound apply_array_op].
  replace (Z.to_nat (target + Z.of_nat idx)) with (length pre) by lia.
  rewrite decide_True by (rewrite length_app; lia).
  rewrite take_app_length, drop_app_length.
  rewrite <- !app_assoc in Happly. cbn in Happly. exact Happly.
Qed.

Lemma insertions_unknown (g : gmap string node) (target : Z) (before after : list string)
    (bad : string) :
  Forall (λ n, is_Some (g !! n)) before → g !! bad = None →
  ∀ idx, insertions g target idx (before ++ bad :: after) = inl bad.
Proof.
  intros Hlive Hbad. induction Hlive as [|n before [x Hn] _ IH]; intros idx; cbn.
  - by rewrite Hbad.
  - by rewrite Hn, IH.
Qed.

(** The insertions that the loop of [show] makes for nodes of the graph. *)
Lemma insertions_ops (g : gmap string node) (target : Z) (given : list string) :
  Forall (λ n, is_Some (g !! n)) given →
  ∀ idx, insertions g target idx given
         = inr (imap (λ i n, ArrayInsert (Z.to_nat (target + Z.of_nat (idx + i))) n) given).
Proof.
  induction 1 as [|n given [x Hn] _ IH]; intros idx; [done|].
  cbn [insertions]. rewrite Hn, IH, imap_cons. do 2 f_equal.
  - f_equal. f_equal. lia.
  - apply imap_ext. intros i m _. cbn. do 2 f_equal. lia.
Qed.

(** The run of [show] on nodes of the graph. *)
Lemma show_run (viewId : string) (given : list string)
    (target : option Z) (d : document) (view : node) (view_nodes : list string) :
  get d viewId = Some view →
  properties view !! "nodes" = Some (VArray view_nodes) →
  Forall (λ n, is_Some (nodes d !! n)) given →
  given ≠ [] →
  let len := Z.of_nat (length view_nodes) in
  let at_ := Z.to_nat (clamp_target (default (-1) target) len) in
  let shown := take at_ view_nodes ++ given ++ drop at_ view_nodes in
  (show viewId (ManyIds given) target d).1 = Returned tt
  ∧ nodes (show viewId (ManyIds given) target d).2
    = <[viewId := set_property view "nodes" (VArray shown)]> (nodes d)
  ∧ applied (show viewId (ManyIds given) target d).2
    = applied d ++ [Update [viewId; "nodes"]
                      (imap (λ idx n, ArrayInsert (at_ + idx) n) given)].
Proof.
  intros Hv Hn Hlive Hne len at_ shown.
  pose proof (clamp_target_range (default (-1) target) len) as Hrange.
  assert (0 ≤ len) as Hlen by (unfold len; lia).
  specialize (Hrange Hlen).
  unfold show. rewrite Hv, Hn. fold len.
  destruct (insertions_apply (nodes d) (clamp_target (default (-1) target) len)
              given (proj1 Hrange) 0 (take at_ view_nodes) (drop at_ view_nodes) Hlive)
    as (ops & Hins & Hops & Happly).
  { rewrite length_take. unfold at_, len in *. lia. }
  assert (Hops' : ops = imap (λ idx n, ArrayInsert (at_ + idx) n) given).
  { rewrite insertions_ops in Hins by done. injection Hins as <-.
    apply imap_ext. intros i n _. cbn. f_equal. unfold at_. lia. }
  rewrite Hins. rewrite take_drop in Happly.
  rewrite decide_True by (rewrite Hops; destruct given; [done|cbn; lia]).
  unfold apply. cbn [graph_apply]. unfold get in Hv. rewrite Hv, Hn, Happly.
  rewrite Hops'.
  by destruct d.
Qed.

(** X1. [show] puts the given nodes, in their order, at the clamped
    target of the view, with one update of the view's nodes that the
    listeners are told of. The target counts from the end when negative:
    without a target, with [-1], or with a target behind the end the
    nodes are appended, and a target before the start puts them in
    front. *)
Theorem show_inserts_at_target (viewId : string) (given : list string)
    (target : option Z) (d : document) (view : node) (view_nodes : list string) :
  get d viewId = Some view →
  properties view !! "nodes" = Some (VArray view_nodes) →
  Forall (λ n, is_Some (nodes d !! n)) given →
  given ≠ [] →
  let len := Z.of_nat (length view_nodes) in
  let at_ := Z.to_nat (clamp_target (default (-1) target) len) in
  let shown := take at_ view_nodes ++ given ++ drop at_ view_nodes in
  (show viewId (ManyIds given) target d).1 = Returned tt
  ∧ nodes (show viewId (ManyIds given) target d).2
    = <[viewId := set_property view "nodes" (VArray shown)]> (nodes d)
  ∧ applied (show viewId (ManyIds given) target d).2
    = applied d ++ [Update [viewId; "nodes"]
                      (imap (λ idx n, ArrayInsert (at_ + idx) n) given)]
  ∧ (default (-1) target = -1 ∨ len ≤ default (-1) target →
     shown = view_nodes ++ given)
  ∧ (default (-1) target ≤ - (len + 1) → shown = given ++ view_nodes)
  ∧ (∀ k, target = Some k → 0 ≤ k ≤ len → at_ = Z.to_nat k)
  ∧ (∀ k, target = Some k → - (len + 1) ≤ k < 0 → at_ = Z.to_nat (len + k + 1)).
Proof.
  intros Hv Hn Hlive Hne len at_ shown.
  assert (0 ≤ len) as Hlen by (unfold len; lia).
  destruct (show_run viewId given target d view view_nodes Hv Hn Hlive Hne)
    as (H1 & H2 & H3).
  do 3 (split; [done|]).
  unfold shown, at_, clamp_target. repeat split.
  - intros Hcase.
    assert (Z.to_nat (if Z.min (default (-1) target) len <? 0
                      then Z.max 0 (len + Z.min (default (-1) target) len + 1)
                      else Z.min (default (-1) target) len) = length view_nodes) as ->.
    { destruct (Z.ltb_spec (Z.min (default (-1) target) len) 0); unfold len in *; lia. }
    by rewrite take_ge, drop_ge, app_nil_r by lia.
  - intros Hcase.
    assert (Z.to_nat (if Z.min (default (-1) target) len <? 0
                      then Z.max 0 (len + Z.min (default (-1) target) len + 1)
                      else Z.min (default (-1) target) len) = 0%nat) as ->.
    { destruct (Z.ltb_spec (Z.min (default (-1) target) len) 0); unfold len in *; lia. }
    by rewrite take_0, drop_0.
  - intros k -> Hk. cbn.
    destruct (Z.ltb_spec (Z.min k len) 0); f_equal; lia.
  - intros k -> Hk. cbn.
    destruct (Z.ltb_spec (Z.min k len) 0); f_equal; lia.
Qed.

Lemma filter_keep {A} (P : A → Prop) `{∀ x, Decision (P x)} (l : list A) :
  Forall P l → filter P l = l.
Proof.
  induction 1 as [|x l Hx _ IH]; [done|]. by rewrite filter_cons_True, IH.
Qed.

Lemma filter_drop {A} (P : A → Prop) `{∀ x, Decision (P x)} (l : list A) :
  Forall (λ x, ¬ P x) l → filter P l = [].
Proof.
  induction 1 as [|x l Hx _ IH]; [done|]. by rewrite filter_cons_False.
Qed.

(** Writing back the nodes a view has leaves the view as it is. *)
Lemma set_property_same (view : node) (p : string) (v : value) :
  properties view !! p = Some v → set_property view p v = view.
Proof. intros H. destruct view. unfold set_property. cbn in *. by rewrite insert_id. Qed.

Lemma set_property_twice (view : node) (p : string) (v w : value) :
  set_property (set_property view p v) p w = set_property view p w.
Proof. unfold set_property. cbn. by rewrite insert_insert_eq. Qed.

(** An id that is only among the nodes put between two parts of a
    list, and there once, is at one position of the whole list. *)
Lemma middle_once (pre given post : list string) (n : string) (j k : nat) :
  NoDup given → n ∉ pre → n ∉ post →
  (pre ++ given ++ post) !! j = Some n → (pre ++ given ++ post) !! k = Some n →
  j = k.
Proof.
  intros Hnd Hpre Hpost Hj Hk.
  assert (Hmid : ∀ i, (pre ++ given ++ post) !! i = Some n →
            (length pre ≤ i)%nat ∧ given !! (i - length pre)%nat = Some n).
  { intros i [Hi|[Hlen Hi]]%lookup_app_Some.
    - destruct Hpre. by eapply list_elem_of_lookup_2.
    - split; [done|]. apply lookup_app_Some in Hi as [Hi|[_ Hi]]; [done|].
      destruct Hpost. by eapply list_elem_of_lookup_2. }
  destruct (Hmid j Hj) as [Hjl Hjg], (Hmid k Hk) as [Hkl Hkg].
  pose proof (NoDup_lookup _ _ _ _ Hnd Hjg Hkg). lia.
Qed.

(** X4. [hide] on a view of at most ten nodes, in which no given id occurs
    twice: the call returns, the view keeps its other nodes in their
    order and loses every given id, and no other node of the graph is
    touched. *)
Theorem hide_removes_given (viewId : string) (given : list string) (d : document)
    (view : node) (view_nodes : list string) :
  get d viewId = Some view →
  properties view !! "nodes" = Some (VArray view_nodes) →
  (length view_nodes ≤ 10)%nat →
  (∀ n j k, n ∈ given → view_nodes !! j = Some n → view_nodes !! k = Some n → j = k) →
  let after := (hide viewId (ManyIds given) d).2 in
  (hide viewId (ManyIds given) d).1 = Returned tt
  ∧ nodes after
    = <[viewId := set_property view "nodes"
                    (VArray (filter (λ n, n ∉ given) view_nodes))]> (nodes d)
  ∧ (∀ id, id ≠ viewId → nodes after !! id = nodes d !! id)
  ∧ (∀ n, n ∈ given → n ∉ filter (λ n, n ∉ given) view_nodes)
  ∧ ((∀ n, n ∈ given → n ∉ view_nodes) → after = d).
Proof.
  intros Hv Hn Hlen Honce after.
  assert (Hnodes : (hide viewId (ManyIds given) d).1 = Returned tt
            ∧ nodes after
              = <[viewId := set_property view "nodes"
                    (VArray (filter (λ n, n ∉ given) view_nodes))]> (nodes d)).
  { destruct (decide (Exists (λ n, n ∈ view_nodes) given)) as [Hsome|Hnone].
    - apply Exists_exists in Hsome as (n & Hg & Hin).
      apply (DocumentProps.hide_one_digit viewId given d view view_nodes);
        eauto.
    - assert (Habs : ∀ n, n ∈ given → n ∉ view_nodes).
      { intros n Hg Hin. apply Hnone, Exists_exists. eauto. }
      unfold after.
      rewrite (DocumentProps.hide_absent viewId given d view view_nodes Hv Hn Habs).
      split; [done|]. cbn.
      rewrite filter_keep.
      + rewrite set_property_same by done. unfold get in Hv. by rewrite insert_id.
      + apply Forall_forall. intros n Hin Hg. by apply (Habs n). }
  destruct Hnodes as [Hret Hnodes]. split; [done|]. split; [done|]. split.
  { intros id Hne. rewrite Hnodes. by rewrite lookup_insert_ne. }
  split.
  { intros n Hg [Hnot _]%list_elem_of_filter. done. }
  intros Habs. unfold after.
  by rewrite (DocumentProps.hide_absent viewId given d view view_nodes Hv Hn Habs).
Qed.

(** The view ["content"] of the sample article loses ["p1"]. *)
Lemma hide_removes_given_witness :
  nodes (hide "content" (ManyIds ["p1"; "p9"]) Samples.article).2 !! "content"
  = Some (Samples.view_of ["p2"]).
Proof.
  destruct (hide_removes_given "content" ["p1"; "p9"] Samples.article
              (Samples.view_of ["p1"; "p2"]) ["p1"; "p2"]) as (_ & H & _).
  - reflexivity.
  - reflexivity.
  - cbn. lia.
  - intros n [|[|[|j]]] [|[|[|k]]] _ Hj Hk; cbn in Hj, Hk; congruence.
  - rewrite H, lookup_insert_eq. reflexivity.
Defined.

(** X5. On such a view, hiding the same ids a second time changes
    nothing: the second call applies no operation. *)
Theorem hide_twice (viewId : string) (given : list string) (d : document)
    (view : node) (view_nodes : list string) :
  get d viewId = Some view →
  properties view !! "nodes" = Some (VArray view_nodes) →
  (length view_nodes ≤ 10)%nat →
  (∀ n j k, n ∈ given → view_nodes !! j = Some n → view_nodes !! k = Some n → j = k) →
  let once := (hide viewId (ManyIds given) d).2 in
  hide viewId (ManyIds given) once = (Returned tt, once).
Proof.
  intros Hv Hn Hlen Honce once.
  set (rest := filter (λ n, n ∉ given) view_nodes).
  assert (Hnodes : nodes once
            = <[viewId := set_property view "nodes" (VArray rest)]> (nodes d)).
  { destruct (decide (Exists (λ n, n ∈ view_nodes) given)) as [Hsome|Hnone].
    - apply Exists_exists in Hsome as (n & Hg & Hin).
      apply (DocumentProps.hide_one_digit viewId given d view view_nodes); eauto.
    - assert (Habs : ∀ n, n ∈ given → n ∉ view_nodes).
      { intros n Hg Hin. apply Hnone, Exists_exists. eauto. }
      unfold once.
      rewrite (DocumentProps.hide_absent viewId given d view view_nodes Hv Hn Habs).
      cbn. unfold rest. rewrite filter_keep.
      + rewrite set_property_same by done. unfold get in Hv. by rewrite insert_id.
      + apply Forall_forall. intros n Hin Hg. by apply (Habs n). }
  apply (DocumentProps.hide_absent viewId given once
           (set_property view "nodes" (VArray rest)) rest).
  - unfold get. rewrite Hnodes. apply lookup_insert_eq.
  - cbn. apply lookup_insert_eq.
  - intros n Hg [Hnot _]%list_elem_of_filter. done.
Qed.

(** Hiding ["p1"] from the sample article twice. *)
Lemma hide_twice_witness :
  hide "content" (ManyIds ["p1"])
    (hide "content" (ManyIds ["p1"]) Samples.article).2
  = (Returned tt, (hide "content" (ManyIds ["p1"]) Samples.article).2).
Proof.
  apply (hide_twice "content" ["p1"] Samples.article
           (Samples.view_of ["p1"; "p2"]) ["p1"; "p2"]).
  - reflexivity.
  - reflexivity.
  - cbn. lia.
  - intros n [|[|[|j]]] [|[|[|k]]] _ Hj Hk; cbn in Hj, Hk; congruence.
Defined.

(** X2. [show] with an id the graph does not have throws for the first such
    id and applies nothing: the ids before it are not inserted either,
    whatever the target. *)
Theorem show_unknown_node (viewId : string) (before after : list string)
    (bad : string) (target : option Z) (d : document) (view : node)
    (view_nodes : list string) :
  get d viewId = Some view →
  properties view !! "nodes" = Some (VArray view_nodes) →
  Forall (λ n, is_Some (nodes d !! n)) before →
  nodes d !! bad = None →
  show viewId (ManyIds (before ++ bad :: after)) target d
  = (Thrown (DocumentError ("Invalid node id: " +:+ bad)), d).
Proof.
  intros Hv Hn Hlive Hbad. unfold show. rewrite Hv, Hn.
  by rewrite (insertions_unknown _ _ before after bad Hlive Hbad).
Qed.

(** ["p3"] is a node of the sample article, ["p7"] is not. *)
Lemma show_unknown_node_witness :
  show "content" (ManyIds ["p3"; "p7"; "p4"]) (Some 0) Samples.article
  = (Thrown (DocumentError "Invalid node id: p7"), Samples.article).
Proof.
  apply (show_unknown_node "content" ["p3"] ["p4"] "p7" (Some 0) Samples.article
           (Samples.view_of ["p1"; "p2"]) ["p1"; "p2"]).
  - reflexivity.
  - reflexivity.
  - apply (bool_decide_unpack _). by vm_compute.
  - reflexivity.
Defined.

(** Showing ["p3"] and ["p4"] in front of the last node of the sample
    article's view. *)
Lemma show_inserts_at_target_witness :
  nodes (show "content" (ManyIds ["p3"; "p4"]) (Some (-2)) Samples.article).2
    !! "content"
  = Some (Samples.view_of ["p1"; "p3"; "p4"; "p2"]).
Proof.
  destruct (show_inserts_at_target "content" ["p3"; "p4"] (Some (-2)) Samples.article
              (Samples.view_of ["p1"; "p2"]) ["p1"; "p2"]) as (_ & H & _).
  - reflexivity.
  - reflexivity.
  - apply (bool_decide_unpack _). by vm_compute.
  - done.
  - rewrite H, lookup_insert_eq. reflexivity.
Defined.

(** X3. Nodes that are not in a view and are shown there, at any target,
    are taken out again by [hide]: the graph is as before the two calls
    (as long as the positions of the view have one digit). *)
Theorem show_then_hide (viewId : string) (given : list string) (target : option Z)
    (d : document) (view : node) (view_nodes : list string) :
  get d viewId = Some view →
  properties view !! "nodes" = Some (VArray view_nodes) →
  Forall (λ n, is_Some (nodes d !! n)) given →
  given ≠ [] →
  NoDup given →
  (∀ n, n ∈ given → n ∉ view_nodes) →
  (length view_nodes + length given ≤ 10)%nat →
  let shown := (show viewId (ManyIds given) target d).2 in
  (hide viewId (ManyIds given) shown).1 = Returned tt
  ∧ nodes (hide viewId (ManyIds given) shown).2 = nodes d.
Proof.
  intros Hv Hn Hlive Hne Hnd Habs Hlen shown.
  destruct (show_run viewId given target d view view_nodes Hv Hn Hlive Hne)
    as (_ & Hshown & _).
  fold shown in Hshown.
  set (at_ := Z.to_nat (clamp_target (default (-1) target)
                          (Z.of_nat (length view_nodes)))) in *.
  set (l := take at_ view_nodes ++ given ++ drop at_ view_nodes) in *.
  destruct (DocumentProps.hide_one_digit viewId given shown
              (set_property view "nodes" (VArray l)) l) as [Hret Hnodes].
  - unfold get. rewrite Hshown. apply lookup_insert_eq.
  - cbn. apply lookup_insert_eq.
  - unfold l. rewrite !length_app, length_take, length_drop. lia.
  - intros n j k Hg. apply middle_once; [done| |].
    + intros Hin%subseteq_take. by apply (Habs n).
    + intros Hin%subseteq_drop. by apply (Habs n).
  - destruct given as [|n given']; [done|]. exists n. split; [left|].
    unfold l. set_solver.
  - split; [done|]. rewrite Hnodes, Hshown, insert_insert_eq, set_property_twice.
    unfold l. rewrite !filter_app.
    rewrite (filter_drop _ given) by (apply Forall_forall; intros n Hg Hnot; done).
    rewrite !filter_keep.
    + cbn. rewrite take_drop, set_property_same by done.
      unfold get in Hv. by rewrite insert_id.
    + apply Forall_forall. intros n Hin%subseteq_drop Hg. by apply (Habs n).
    + apply Forall_forall. intros n Hin%subseteq_take Hg. by apply (Habs n).
Qed.

(** ["p3"] and ["p4"] shown in the sample article and hidden again. *)
Lemma show_then_hide_witness :
  nodes (hide "content" (ManyIds ["p3"; "p4"])
           (show "content" (ManyIds ["p3"; "p4"]) (Some 1) Samples.article).2).2
  = nodes Samples.article.
Proof.
  apply (show_then_hide "content" ["p3"; "p4"] (Some 1) Samples.article
           (Samples.view_of ["p1"; "p2"]) ["p1"; "p2"]).
  - reflexivity.
  - reflexivity.
  - apply (bool_decide_unpack _). by vm_compute.
  - done.
  - apply (bool_decide_unpack _). by vm_compute.
  - intros n [->|[->|[]%elem_of_nil]%elem_of_cons]%elem_of_cons Hin;
      apply (bool_decide_pack _) in Hin; by vm_compute in Hin.
  - cbn. lia.
Defined.

End ViewsProps.

(** ** Committing a transaction or a simulation *)

Module CommitProps.
Import Graph Document Simulation.

(** A compound applies its operations one after the other. *)
Lemma compound_cons (o : operation) (l : list operation) (g : gmap string node) :
  graph_apply (Compound (o :: l)) g = graph_apply o g ≫= graph_apply (Compound l).
Proof. cbn. by destruct (graph_apply o g). Qed.

Lemma compound_app (l1 l2 : list operation) (g : gmap string node) :
  graph_apply (Compound (l1 ++ l2)) g
  = graph_apply (Compound l1) g ≫= graph_apply (Compound l2).
Proof.
  revert g. induction l1 as [|o l1 IH]; intros g; [done|].
  rewrite <- app_comm_cons, !compound_cons.
  destruct (graph_apply o g); cbn; [apply IH|done].
Qed.

Lemma compound_single (o : operation) (g : gmap string node) :
  graph_apply (Compound [o]) g = graph_apply o g.
Proof. rewrite compound_cons. by destruct (graph_apply o g). Qed.

(** Flattening does not change what a compound does to the graph. *)
Lemma compound_flatten_op (o : operation) :
  ∀ g, graph_apply (Compound (flatten_op o)) g = graph_apply o g.
Proof.
  revert o.
  apply (TransactionProps.operation_nested_ind
           (λ o, ∀ g, graph_apply (Compound (flatten_op o)) g = graph_apply o g));
    try (intros; apply compound_single).
  intros ops IH g. rewrite TransactionProps.flatten_op_compound.
  revert g. induction IH as [|o ops Ho _ IHl]; intros g; [done|].
  cbn [flat_map]. rewrite compound_app, Ho, compound_cons.
  destruct (graph_apply o g); cbn; [apply IHl|done].
Qed.

Lemma compound_flatten (l : list operation) (g : gmap string node) :
  graph_apply (Compound (Helpers_flatten l)) g = graph_apply (Compound l) g.
Proof.
  unfold Helpers_flatten. rewrite <- TransactionProps.flatten_op_compound.
  apply compound_flatten_op.
Qed.

Lemma compound_unwrap (o : operation) (g : gmap string node) :
  graph_apply (Compound (unwrap o)) g = graph_apply o g.
Proof. destruct o; try apply compound_single. done. Qed.

(** Nor does the unwrapping of one level that [simulation.save] does. *)
Lemma compound_collect (l : list operation) (g : gmap string node) :
  graph_apply (Compound (collect_ops l)) g = graph_apply (Compound l) g.
Proof.
  rewrite TransactionProps.collect_ops_unwrap.
  revert g. induction l as [|o l IH]; intros g; [done|].
  cbn [flat_map]. rewrite compound_app, compound_unwrap, compound_cons.
  destruct (graph_apply o g); cbn; [apply IH|done].
Qed.

(** A document after the operations [l], which took its graph to [g]. *)
Definition advance (g : gmap string node) (l : list operation) (d : document)
  : document :=
  match d with
  | Plain i s _ fd ev => Plain i s g fd (ev ++ l)
  | Transaction o _ log ev => Transaction o g (log ++ l) (ev ++ l)
  end.

Lemma advance_nil (d : document) : advance (nodes d) [] d = d.
Proof. destruct d; cbn; by rewrite ?app_nil_r. Qed.

Lemma advance_advance (g1 g2 : gmap string node) (l1 l2 : list operation)
    (d : document) :
  advance g2 l2 (advance g1 l1 d) = advance g2 (l1 ++ l2) d.
Proof. destruct d; cbn; by rewrite <- ?app_assoc. Qed.

Lemma advance_frame (g : gmap string node) (l : list operation) (d : document) :
  nodes (advance g l d) = g
  ∧ applied (advance g l d) = applied d ++ l
  ∧ fileData (advance g l d) = fileData d
  ∧ original (advance g l d) = original d.
Proof. by destruct d. Qed.

Lemma apply_advance (o : operation) (d : document) (g : gmap string node) :
  graph_apply o (nodes d) = Some g → apply o d = (Returned tt, advance g [o] d).
Proof. intros H. unfold apply. rewrite H. by destruct d. Qed.

(** A sequence of calls of [apply]: all accepted, or stopped by the
    first operation that the graph rejects. *)
Lemma each_apply_accepted (l : list operation) :
  ∀ (d : document) (g : gmap string node),
    graph_apply (Compound l) (nodes d) = Some g →
    each apply l d = (Returned tt, advance g l d).
Proof.
  induction l as [|o l IH]; intros d g H.
  - cbn in H. injection H as <-. cbn. unfold ret. by rewrite advance_nil.
  - rewrite compound_cons in H.
    destruct (graph_apply o (nodes d)) as [g1|] eqn:Ho; [|done]. cbn in H.
    cbn [each]. unfold bind. rewrite (apply_advance o d g1 Ho).
    rewrite (IH (advance g1 [o] d) g).
    + by rewrite advance_advance.
    + by rewrite (proj1 (advance_frame _ _ _)).
Qed.

Lemma each_apply_rejected (pre post : list operation) (bad : operation)
    (d : document) (g : gmap string node) :
  graph_apply (Compound pre) (nodes d) = Some g →
  graph_apply bad g = None →
  each apply (pre ++ bad :: post) d
  = (Thrown (OperationError "rejected"), advance g pre d).
Proof.
  revert d. induction pre as [|o pre IH]; intros d H Hbad.
  - cbn in H. injection H as <-. cbn. unfold bind.
    rewrite TransactionProps.apply_rejected by done. by rewrite advance_nil.
  - rewrite compound_cons in H.
    destruct (graph_apply o (nodes d)) as [g1|] eqn:Ho; [|done]. cbn in H.
    cbn [each app]. unfold bind. rewrite (apply_advance o d g1 Ho).
    rewrite (IH (advance g1 [o] d)).
    + by rewrite advance_advance.
    + by rewrite (proj1 (advance_frame _ _ _)).
    + done.
Qed.

(** Where a compound is rejected: behind a prefix that is accepted. *)
Lemma compound_rejected (l : list operation) :
  ∀ g, graph_apply (Compound l) g = None →
       ∃ pre bad post g1, l = pre ++ bad :: post
         ∧ graph_apply (Compound pre) g = Some g1 ∧ graph_apply bad g1 = None.
Proof.
  induction l as [|o l IH]; intros g H; [done|].
  rewrite compound_cons in H.
  destruct (graph_apply o g) as [g1|] eqn:Ho.
  - cbn in H. destruct (IH g1 H) as (pre & bad & post & g2 & -> & Hpre & Hbad).
    exists (o :: pre), bad, post, g2. split; [done|]. split; [|done].
    by rewrite compound_cons, Ho.
  - exists [], o, l, g. by repeat split.
Qed.

Lemma each_apply_returned (l : list operation) (d : document) :
  (each apply l d).1 = Returned tt →
  ∃ g, graph_apply (Compound l) (nodes d) = Some g.
Proof.
  intros H. destruct (graph_apply (Compound l) (nodes d)) as [g|] eqn:E; [by exists g|].
  destruct (compound_rejected l _ E) as (pre & bad & post & g1 & -> & Hpre & Hbad).
  by rewrite (each_apply_rejected pre post bad d g1 Hpre Hbad) in H.
Qed.

(** The same for [simulation.apply], which logs an operation before it
    applies it. *)
Lemma each_simulation_apply_accepted (l : list operation) :
  ∀ (s : simulation) (g : gmap string node),
    graph_apply (Compound l) (nodes (sim s)) = Some g →
    each simulation_apply l s
    = (Returned tt, Sim (self s) (advance g l (sim s)) (ops s ++ l)).
Proof.
  induction l as [|o l IH]; intros s g H.
  - cbn in H. injection H as <-. cbn. unfold ret.
    rewrite advance_nil, app_nil_r. by destruct s.
  - rewrite compound_cons in H.
    destruct (graph_apply o (nodes (sim s))) as [g1|] eqn:Ho; [|done]. cbn in H.
    cbn [each]. unfold bind, simulation_apply at 1.
    rewrite (apply_advance o (sim s) g1 Ho).
    rewrite (IH _ g); cbn [self sim ops].
    + by rewrite advance_advance, <- app_assoc.
    + by rewrite (proj1 (advance_frame _ _ _)).
Qed.

Lemma each_simulation_apply_rejected (pre post : list operation) (bad : operation)
    (g : gmap string node) :
  ∀ s : simulation,
    graph_apply (Compound pre) (nodes (sim s)) = Some g →
    graph_apply bad g = None →
    each simulation_apply (pre ++ bad :: post) s
    = (Thrown (OperationError "rejected"),
       Sim (self s) (advance g pre (sim s)) (ops s ++ pre ++ [bad])).
Proof.
  induction pre as [|o pre IH]; intros s H Hbad.
  - cbn in H. injection H as <-. cbn. unfold bind, simulation_apply.
    rewrite TransactionProps.apply_rejected by done. by rewrite advance_nil.
  - rewrite compound_cons in H.
    destruct (graph_apply o (nodes (sim s))) as [g1|] eqn:Ho; [|done]. cbn in H.
    cbn [each app]. unfold bind, simulation_apply at 1.
    rewrite (apply_advance o (sim s) g1 Ho).
    rewrite IH; cbn [self sim ops].
    + by rewrite advance_advance, <- app_assoc.
    + by rewrite (proj1 (advance_frame _ _ _)).
    + done.
Qed.

Lemma each_simulation_apply_returned (l : list operation) (s : simulation) :
  (each simulation_apply l s).1 = Returned tt →
  ∃ g, graph_apply (Compound l) (nodes (sim s)) = Some g.
Proof.
  intros H.
  destruct (graph_apply (Compound l) (nodes (sim s))) as [g|] eqn:E; [by exists g|].
  destruct (compound_rejected l _ E) as (pre & bad & post & g1 & -> & Hpre & Hbad).
  by rewrite (each_simulation_apply_rejected pre post bad g1 s Hpre Hbad) in H.
Qed.

(** X6. A transaction whose operations were all accepted is committed
    by [save]: the original then has the nodes of the transaction, its
    listeners have been told of one compound of the flattened log (of
    nothing when the log is empty), and its file data is as before. *)
Theorem save_commits_transaction (d tx0 : document) (l : list operation) :
  (startTransaction d).1 = Returned tx0 →
  (each apply l tx0).1 = Returned tt →
  let tx := (each apply l tx0).2 in
  (save tx).1 = Returned tt
  ∧ nodes (save tx).2 = nodes tx
  ∧ ∃ d', original (save tx).2 = Some d'
      ∧ nodes d' = nodes tx
      ∧ applied d'
        = applied d ++ match l with
                       | [] => []
                       | _ => [Compound (Helpers_flatten l)]
                       end
      ∧ fileData d' = fileData d.
Proof.
  intros Hstart Hrun tx. cbn in Hstart. injection Hstart as <-.
  destruct (each_apply_returned _ _ Hrun) as [g Hg].
  unfold tx. rewrite (each_apply_accepted l _ g Hg). cbn [snd advance app].
  cbn [nodes] in Hg.
  unfold save. cbn [fileData]. rewrite TransactionProps.write_back_own.
  destruct l as [|o l].
  { cbn in Hg. injection Hg as <-. cbn. rewrite app_nil_r.
    split; [done|]. split; [done|]. by exists d. }
  rewrite (apply_advance (Compound (Helpers_flatten (o :: l))) d g)
    by (by rewrite compound_flatten).
  cbn [fst snd nodes original]. split; [done|]. split; [done|].
  eexists. split; [done|]. by destruct d.
Qed.

(** A paragraph created and shown inside a transaction on a document
    with an empty view. *)
Lemma save_commits_transaction_witness :
  let d := Samples.document_of [] in
  let l := [Create (Samples.paragraph "p1");
            Compound [Update ["content"; "nodes"] [ArrayInsert 0 "p1"]]] in
  let tx := (each apply l (Transaction d (nodes d) [] [])).2 in
  (save tx).1 = Returned tt
  ∧ nodes (save tx).2 = nodes tx
  ∧ ∃ d', original (save tx).2 = Some d'
      ∧ nodes d' = nodes tx
      ∧ applied d' = applied d ++ [Compound (Helpers_flatten l)]
      ∧ fileData d' = fileData d.
Proof.
  apply (save_commits_transaction (Samples.document_of [])
           (Transaction (Samples.document_of [])
              (nodes (Samples.document_of [])) [] [])
           [Create (Samples.paragraph "p1");
            Compound [Update ["content"; "nodes"] [ArrayInsert 0 "p1"]]]).
  - reflexivity.
  - by vm_compute.
Defined.

(** X7. A simulation whose operations were all accepted is committed by
    [simulation.save]: the document it was started on then has the nodes
    of the simulation, its listeners have been told of one compound of
    the collected log (of nothing when that is empty), and the
    simulation itself is left as it was. *)
Theorem simulation_save_commits (this : document) (l : list operation) :
  (each simulation_apply l (startSimulation this)).1 = Returned tt →
  let s := (each simulation_apply l (startSimulation this)).2 in
  let saved := (simulation_save s).2 in
  (simulation_save s).1 = Returned tt
  ∧ nodes (self saved) = nodes (sim s)
  ∧ applied (self saved)
    = applied this ++ match collect_ops l with
                      | [] => []
                      | _ops => [Compound _ops]
                      end
  ∧ fileData (self saved) = fileData this
  ∧ sim saved = sim s
  ∧ ops saved = l.
Proof.
  intros Hrun s saved.
  destruct (each_simulation_apply_returned _ _ Hrun) as [g Hg].
  unfold saved, s. rewrite (each_simulation_apply_accepted l _ g Hg).
  cbn [snd startSimulation self sim ops app fromSnapshot toJSON snap_nodes advance
       nodes] in *.
  unfold simulation_save. cbn [self sim ops fileData].
  rewrite map_fold_empty.
  destruct (collect_ops l) as [|o _ops] eqn:E.
  { cbn. rewrite <- compound_collect, E in Hg. cbn in Hg. injection Hg as <-.
    by rewrite app_nil_r. }
  rewrite (apply_advance (Compound (o :: _ops)) this g)
    by (by rewrite <- E, compound_collect).
  cbn [fst snd self sim ops nodes]. by destruct this.
Qed.

(** The same two operations in a simulation. *)
Lemma simulation_save_commits_witness :
  let this := Samples.document_of [] in
  let l := [Create (Samples.paragraph "p1");
            Compound [Update ["content"; "nodes"] [ArrayInsert 0 "p1"]]] in
  let s := (each simulation_apply l (startSimulation this)).2 in
  let saved := (simulation_save s).2 in
  (simulation_save s).1 = Returned tt
  ∧ nodes (self saved) = nodes (sim s)
  ∧ applied (self saved)
    = [Compound [Create (Samples.paragraph "p1");
                 Update ["content"; "nodes"] [ArrayInsert 0 "p1"]]]
  ∧ fileData (self saved) = fileData this
  ∧ sim saved = sim s
  ∧ ops saved = l.
Proof.
  apply (simulation_save_commits (Samples.document_of [])
           [Create (Samples.paragraph "p1");
            Compound [Update ["content"; "nodes"] [ArrayInsert 0 "p1"]]]).
  by vm_compute.
Defined.

(** X8. [simulation.apply] logs an operation before it applies it: an
    operation that the simulation rejects stays in the log, so that
    [simulation.save] throws as well and leaves the document the
    simulation was started on, and the simulation, as they were. *)
Theorem simulation_save_after_rejected (this : document)
    (pre post : list operation) (bad : operation) (g : gmap string node) :
  graph_apply (Compound pre) (nodes this) = Some g →
  graph_apply bad g = None →
  let run := each simulation_apply (pre ++ bad :: post) (startSimulation this) in
  run.1 = Thrown (OperationError "rejected")
  ∧ ops run.2 = pre ++ [bad]
  ∧ nodes (sim run.2) = g
  ∧ self run.2 = this
  ∧ simulation_save run.2 = (Thrown (OperationError "rejected"), run.2).
Proof.
  intros Hpre Hbad run. unfold run.
  rewrite (each_simulation_apply_rejected pre post bad g (startSimulation this))
    by done.
  cbn [fst snd startSimulation self sim ops app fromSnapshot toJSON snap_nodes
       advance nodes].
  do 4 (split; [done|]).
  unfold simulation_save. cbn [self sim ops fileData].
  rewrite map_fold_empty.
  assert (Hnone : graph_apply (Compound (collect_ops (pre ++ [bad]))) (nodes this)
                  = None).
  { rewrite compound_collect, compound_app, Hpre. cbn.
    by rewrite Hbad. }
  destruct (collect_ops (pre ++ [bad])) as [|o _ops] eqn:E; [done|].
  by rewrite TransactionProps.apply_rejected.
Qed.

(** A paragraph created twice in a simulation. *)
Lemma simulation_save_after_rejected_witness :
  let run := each simulation_apply
               [Create (Samples.paragraph "p1"); Create (Samples.paragraph "p1")]
               (startSimulation (Samples.document_of [])) in
  simulation_save run.2 = (Thrown (OperationError "rejected"), run.2).
Proof.
  cbv zeta.
  apply (simulation_save_after_rejected (Samples.document_of [])
           [Create (Samples.paragraph "p1")] [] (Create (Samples.paragraph "p1"))
           (<["p1" := Samples.paragraph "p1"]> {["content" := Samples.view_of []]})).
  - by vm_compute.
  - by vm_compute.
Defined.

End CommitProps.

(** ** The listener registry and the transaction life cycle *)

Module RegistryProps.
Import Versioned Registry.

Lemma StronglySorted_impl {A} (R1 R2 : relation A) (l : list A) :
  (∀ x y, R1 x y → R2 x y) → StronglySorted R1 l → StronglySorted R2 l.
Proof.
  intros H. induction 1 as [|x l _ IH Hx]; constructor; [done|].
  eapply Forall_impl; [exact Hx|]. intros y. apply H.
Qed.


Section Registry.
Context {Op Data ChangeMap History LState : Type}.
Variable new_ChangeMap : ChangeMap.
Variable ChangeMap_update : Op → ChangeMap → ChangeMap.
Variable setRecoveryPoint : History → History.
Variable restoreLastRecoveryPoint : History → Data → History * Data.

Local Notation "'Document'" :=
  (Document (Op := Op) (Data := Data) (ChangeMap := ChangeMap)
     (History := History) (LState := LState)).

(** The registered listeners are in the order of their priorities. *)
Definition ordered (D : Document) : Prop :=
  StronglySorted (λ a b, priority D a ≤ priority D b) (operationListeners D).






Lemma onOperationApplied_null (op : Op) (D : Document) :
  transactionChanges D = None →
  onOperationApplied ChangeMap_update op D
  = (Thrown (TypeError "Cannot read properties of null"), D).
Proof. intros H. unfold onOperationApplied. by rewrite H. Qed.

Instance compare_priority_total (heap : nat → listener (Op := Op) (LState := LState)) :
  Total (compare_priority heap).
Proof. intros a b. unfold compare_priority. lia. Qed.

Instance compare_priority_trans (heap : nat → listener (Op := Op) (LState := LState)) :
  Transitive (compare_priority heap).
Proof. intros a b c. unfold compare_priority. lia. Qed.

Lemma sort_insert_Permutation (heap : nat → listener (Op := Op) (LState := LState))
    (a : nat) (l : list nat) :
  sort_insert heap a l ≡ₚ a :: l.
Proof.
  induction l as [|b l IH]; cbn; [done|].
  destruct (decide (compare_priority heap a b)); [done|].
  rewrite IH. apply Permutation_swap.
Qed.

Lemma Array_sort_Permutation (heap : nat → listener (Op := Op) (LState := LState))
    (l : list nat) :
  Array_sort heap l ≡ₚ l.
Proof.
  induction l as [|a l IH]; cbn; [done|].
  rewrite sort_insert_Permutation. by f_equiv.
Qed.

Lemma sort_insert_sorted (heap : nat → listener (Op := Op) (LState := LState))
    (a : nat) (l : list nat) :
  StronglySorted (compare_priority heap) l →
  StronglySorted (compare_priority heap) (sort_insert heap a l).
Proof.
  induction 1 as [|b l Hs IH Hall]; cbn; [by repeat constructor|].
  destruct (decide (compare_priority heap a b)) as [Hab|Hab].
  - constructor; [by constructor|]. constructor; [done|].
    eapply Forall_impl; [exact Hall|]. intros c Hbc. by transitivity b.
  - constructor; [done|]. rewrite sort_insert_Permutation.
    constructor; [|done]. unfold compare_priority in *. lia.
Qed.

Lemma Array_sort_sorted (heap : nat → listener (Op := Op) (LState := LState))
    (l : list nat) :
  StronglySorted (compare_priority heap) (Array_sort heap l).
Proof.
  induction l as [|a l IH]; cbn; [constructor|by apply sort_insert_sorted].
Qed.

Lemma addOperationListener_run (r : nat) (p : option Z) (D : Document) :
  let after := (addOperationListener r p D).2 in
  operationListeners after ≡ₚ operationListeners D ++ [r]
  ∧ ordered after
  ∧ priority after r = (if truthy p then default 0 p else 10)
  ∧ (∀ r', r' ≠ r → heap after r' = heap D r')
  ∧ l_state (heap after r) = l_state (heap D r)
  ∧ isTransacting after = isTransacting D
  ∧ transactionChanges after = transactionChanges D.
Proof.
  cbn. split; [apply Array_sort_Permutation|]. split.
  { unfold ordered. cbn.
    eapply StronglySorted_impl; [|apply Array_sort_sorted].
    intros a b. unfold compare_priority, priority. cbn. lia. }
  unfold priority. cbn. rewrite fn_lookup_insert. cbn.
  split; [done|]. split; [|done].
  intros r' Hne. by rewrite fn_lookup_insert_ne.
Qed.


(** X9. [addOperationListener] keeps every registration and adds the
    new one; the list is then in ascending order of the priorities; the
    listener has the priority given, and [10] when none or [0] is
    given; the other listeners and the listener's state are as
    before. *)
Theorem addOperationListener_order (r : nat) (p : option Z) (D : Document) :
  let after := (addOperationListener r p D).2 in
  (addOperationListener r p D).1 = Returned tt
  ∧ operationListeners after ≡ₚ operationListeners D ++ [r]
  ∧ StronglySorted (λ a b, priority after a ≤ priority after b)
      (operationListeners after)
  ∧ priority after r = match p with
                       | Some 0 | None => 10
                       | Some given => given
                       end
  ∧ (∀ r', r' ≠ r → heap after r' = heap D r')
  ∧ l_state (heap after r) = l_state (heap D r).
Proof.
  intros after.
  destruct (addOperationListener_run r p D) as (Hperm & Ho & Hp & Hh & Hs & _).
  split; [done|]. split; [done|]. split; [done|]. split; [|done].
  fold after in Hp. rewrite Hp. by destruct p as [[]|].
Qed.


(** X11. [removeOperationListener] takes out the first registration of
    the listener and no other: a listener that was registered twice
    stays registered once, and one that is not registered changes
    nothing. *)
Theorem removeOperationListener_first (r : nat) (D : Document) :
  let after := (removeOperationListener r D).2 in
  (removeOperationListener r D).1 = Returned tt
  ∧ (∀ before behind,
       operationListeners D = before ++ r :: behind → r ∉ before →
       operationListeners after = before ++ behind)
  ∧ (r ∉ operationListeners D → after = D)
  ∧ data after = data D ∧ heap after = heap D ∧ calls after = calls D
  ∧ isTransacting after = isTransacting D
  ∧ transactionChanges after = transactionChanges D.
Proof.
  intros after. unfold after, removeOperationListener.
  destruct (list_find _ _) as [[idx x]|] eqn:E.
  - apply list_find_Some in E as (Hidx & -> & Hfirst). cbn.
    split; [done|]. split; [|split; [|done]].
    + intros before behind Hl Hbefore.
      assert (idx = length before) as ->.
      { destruct (Nat.lt_trichotomy idx (length before)) as [Hlt|[->|Hgt]]; [|done|].
        - destruct Hbefore. rewrite Hl, lookup_app_l in Hidx by done.
          by eapply list_elem_of_lookup_2.
        - destruct (Hfirst (length before) r); [|done..].
          by rewrite Hl, list_lookup_middle. }
      by rewrite Hl, delete_middle.
    + intros Hnot. destruct Hnot. by eapply list_elem_of_lookup_2.
  - cbn. split; [done|]. split; [|done].
    intros before behind Hl _. apply list_find_None in E.
    rewrite Hl in E. apply Forall_app in E as [_ E].
    by apply Forall_cons in E as [E _].
Qed.



(** X13. Before the first transaction the document has no change map:
    an operation applied then makes [onOperationApplied] throw a type
    error before any listener is told, however many listeners have been
    registered. *)
Theorem operation_before_first_transaction (op : Op) (D : Document) :
  registering D →
  onOperationApplied ChangeMap_update op D
  = (Thrown (TypeError "Cannot read properties of null"), D)
  ∧ calls D = [] ∧ isTransacting D = false.
Proof.
  intros H.
  assert (Hnull : transactionChanges D = None ∧ calls D = []
                  ∧ isTransacting D = false).
  { induction H as [d h hp|D r p _ IH|D r _ IH]; [done|done|].
    unfold removeOperationListener. by destruct (list_find _ _) as [[idx x]|]. }
  destruct Hnull as (Hnull & Hcalls & Hfree).
  by rewrite onOperationApplied_null.
Qed.

End Registry.

(** Listeners registered with the same priority stay in the order of
    their registration. *)
Example addOperationListener_equal_priorities :
  operationListeners
    (addOperationListener 2 None
       (addOperationListener 1 None
          (addOperationListener 0 None
             (new_Document (Data := unit) (ChangeMap := list unit) (Op := unit)
                tt 0%nat (λ _, Samples.counting))).2).2).2
  = [0; 1; 2]%nat.
Proof. reflexivity. Qed.



(** A counting listener registered on a new document. *)
Lemma operation_before_first_transaction_witness :
  let D := (addOperationListener 0 (Some 5)
              (new_Document (ChangeMap := list unit) tt tt
                 (λ _, Samples.counting))).2 in
  onOperationApplied (λ op changes, op :: changes) tt D
  = (Thrown (TypeError "Cannot read properties of null"), D)
  ∧ calls D = [] ∧ isTransacting D = false.
Proof.
  cbv zeta.
  apply (operation_before_first_transaction (λ op changes, op :: changes) tt).
  apply registering_add, registering_new.
Defined.

End RegistryProps.

(** ** The commands of the annotator *)

Module CommandsProps.
Import Annotator Commands.

(** Every annotation is stored under its id. *)
Definition wf (d : doc) : Prop := ∀ k a, nodes d !! k = Some a → ann_id a = k.

(** [util.uuid()] gives no id that is in use, and none twice. *)
Definition fresh (d : doc) : Prop :=
  (∀ n, (uuid_count d ≤ n)%nat → nodes d !! uuid_source d n = None)
  ∧ (∀ n m, uuid_source d n = uuid_source d m → n = m).

(** An annotation that leaves the inside of a range free. *)
Definition clear (b : annotation) (range : Z * Z) : Prop :=
  (ann_range b).2 ≤ range.1 ∨ range.2 ≤ (ann_range b).1.

Lemma values_elem (m : gmap string annotation) (a : annotation) :
  a ∈ (map_to_list m).*2 ↔ ∃ k, m !! k = Some a.
Proof.
  rewrite list_elem_of_fmap. split.
  - intros ([k b] & -> & H%elem_of_map_to_list). by exists k.
  - intros [k H]. exists (k, a). split; [done|]. by apply elem_of_map_to_list.
Qed.

Lemma values_ids (m : gmap string annotation) :
  (∀ k a, m !! k = Some a → ann_id a = k) →
  ann_id <$> (map_to_list m).*2 = (map_to_list m).*1.
Proof.
  intros H. rewrite <- list_fmap_compose. apply list_fmap_ext.
  intros i [k a] Hi. cbn. apply H. eapply elem_of_map_to_list.
  by eapply list_elem_of_lookup_2.
Qed.

Lemma values_NoDup (m : gmap string annotation) :
  (∀ k a, m !! k = Some a → ann_id a = k) →
  NoDup (ann_id <$> (map_to_list m).*2).
Proof. intros H. rewrite values_ids by done. apply NoDup_fst_map_to_list. Qed.

Lemma index_get_elem (d : doc) (path : list string) (a : annotation) :
  wf d →
  a ∈ index_get d path
  ↔ nodes d !! ann_id a = Some a ∧ path `prefix_of` ann_path a.
Proof.
  intros Hwf. unfold index_get. rewrite list_elem_of_filter, values_elem. split.
  - intros [Hp [k Hk]]. by rewrite (Hwf k a Hk).
  - intros [Hn Hp]. eauto.
Qed.

Lemma index_get_NoDup (d : doc) (path : list string) :
  wf d → NoDup (ann_id <$> index_get d path).
Proof.
  intros Hwf. eapply sublist_NoDup; [exact (values_NoDup (nodes d) Hwf)|].
  unfold index_get. apply fmap_sublist, sublist_filter.
Qed.

(** What [getAnnotations] gives [annotate]: the annotations of the
    node that meet the range. *)
Lemma selected_lookup (d : doc) (node : string) (range : Z * option Z)
    (k : string) (a : annotation) :
  wf d →
  _filterByNodeAndRange (index_get d [node]) (Some range) !! k = Some a
  ↔ nodes d !! k = Some a ∧ [node] `prefix_of` ann_path a
    ∧ overlap a range.1 range.2 = true.
Proof.
  intros Hwf. destruct range as [s e]. split.
  - intros (Hin & <- & Hov)%AnnotatorProps.filter_sound.
    by apply index_get_elem in Hin as [Hn Hp].
  - intros (Hn & Hp & Hov). rewrite <- (Hwf k a Hn).
    apply AnnotatorProps.filter_complete; [by apply index_get_NoDup| |done].
    apply index_get_elem; [done|]. by rewrite (Hwf k a Hn).
Qed.

(** The run of [_truncate] on an annotation of the graph. *)
Lemma truncate_run (self : behavior) (d : doc) (a : annotation) (s2 e2 : Z) :
  nodes d !! ann_id a = Some a →
  nodes d !! uuid_source d (uuid_count d) = None →
  let s1 := (ann_range a).1 in
  let e1 := (ann_range a).2 in
  let new_id := uuid_source d (uuid_count d) in
  let tail := Annotation new_id (ann_type a) (ann_path a) (e2, e1) in
  _truncate self a (s2, e2) d =
    if (s1 >=? s2) && (e1 <=? e2) then
      (Returned tt, with_nodes d (delete (ann_id a) (nodes d)))
    else if (s1 >=? s2) && (e1 >? e2) then
      (Returned tt, with_nodes d (<[ann_id a := set_range a (e2, e1)]> (nodes d)))
    else if (s1 <? s2) && (e1 <=? e2) then
      (Returned tt, with_nodes d (<[ann_id a := set_range a (s1, s2)]> (nodes d)))
    else if isSplittable self (ann_type a) then
      (Returned tt,
       {| nodes := <[new_id := tail]> (<[ann_id a := set_range a (s1, s2)]> (nodes d));
          uuid_source := uuid_source d; uuid_count := S (uuid_count d) |})
    else (Returned tt, with_nodes d (delete (ann_id a) (nodes d))).
Proof.
  intros Ha Hnew s1 e1 new_id tail.
  assert (Hne : new_id ≠ ann_id a) by (intros E; unfold new_id in E; congruence).
  unfold _truncate. cbn [fst snd]. fold s1 e1.
  destruct ((s1 >=? s2) && (e1 <=? e2)); [by apply AnnotatorProps.delete_present|].
  destruct ((s1 >=? s2) && (e1 >? e2)); [by apply AnnotatorProps.update_present|].
  destruct ((s1 <? s2) && (e1 <=? e2)); [by apply AnnotatorProps.update_present|].
  destruct (isSplittable self (ann_type a)); [|by apply AnnotatorProps.delete_present].
  eff_unfold. rewrite (AnnotatorProps.update_present _ _ _ Ha).
  pose proof (AnnotatorProps.create_fresh (ann_path a) (ann_type a) (e2, e1)
    (with_nodes d (<[ann_id a := set_range a (s1, s2)]> (nodes d)))) as Hc.
  cbn in Hc. rewrite Hc; [done|].
  rewrite lookup_insert_ne; [done|]. intros E. apply Hne. symmetry. exact E.
Qed.

(** What one truncation of [a] leaves: no other annotation is touched,
    and what is left of [a] is clear of the range. *)
Definition truncated (a : annotation) (range : Z * Z) (d d' : doc) : Prop :=
  wf d' ∧ fresh d'
  ∧ (∀ k b, nodes d' !! k = Some b →
       (k ≠ ann_id a ∧ nodes d !! k = Some b)
       ∨ (ann_path b = ann_path a ∧ ann_type b = ann_type a ∧ clear b range))
  ∧ (∀ k b, k ≠ ann_id a → nodes d !! k = Some b → nodes d' !! k = Some b)
  ∧ uuid_source d' = uuid_source d ∧ (uuid_count d ≤ uuid_count d')%nat.

Lemma truncate_step (self : behavior) (d : doc) (a : annotation) (range : Z * Z) :
  wf d → fresh d → nodes d !! ann_id a = Some a →
  ∃ d', _truncate self a range d = (Returned tt, d') ∧ truncated a range d d'.
Proof.
  intros Hwf [Hfresh Hinj] Ha. destruct range as [s2 e2].
  assert (Hnew : nodes d !! uuid_source d (uuid_count d) = None) by by apply Hfresh.
  rewrite (truncate_run self d a s2 e2 Ha Hnew).
  assert (Hdel : ∃ d', (Returned tt, with_nodes d (delete (ann_id a) (nodes d)))
                       = (Returned tt, d') ∧ truncated a (s2, e2) d d').
  { eexists. split; [done|]. unfold truncated, wf, fresh, with_nodes. cbn.
    split; [|split; [|split; [|split]]].
    - intros k b [_ Hb]%lookup_delete_Some. by apply Hwf.
    - split; [|done]. intros n Hn. apply lookup_delete_None. right.
      by apply Hfresh.
    - intros k b [Hne Hb]%lookup_delete_Some. left. by split.
    - intros k b Hne Hb. by rewrite lookup_delete_ne.
    - done. }
  assert (Hupd : ∀ r, clear (set_range a r) (s2, e2) →
    ∃ d', (Returned tt, with_nodes d (<[ann_id a := set_range a r]> (nodes d)))
          = (Returned tt, d') ∧ truncated a (s2, e2) d d').
  { intros r Hclear. eexists. split; [done|].
    unfold truncated, wf, fresh, with_nodes. cbn.
    split; [|split; [|split; [|split]]].
    - intros k b [[<- <-]|[_ Hb]]%lookup_insert_Some; [done|by apply Hwf].
    - split; [|done]. intros n Hn. apply lookup_insert_None.
      split; [by apply Hfresh|]. intros E. specialize (Hfresh n Hn). congruence.
    - intros k b [[<- <-]|[Hne Hb]]%lookup_insert_Some; [right|left]; eauto.
    - intros k b Hne Hb. by rewrite lookup_insert_ne.
    - done. }
  cbn [fst snd]. set (s1 := (ann_range a).1). set (e1 := (ann_range a).2).
  destruct (Z.geb_spec s1 s2), (Z.leb_spec e1 e2), (Z.gtb_spec e1 e2),
    (Z.ltb_spec s1 s2); cbn [andb]; try lia; try exact Hdel;
    try (apply Hupd; unfold clear; cbn; lia).
  destruct (isSplittable self (ann_type a)); [|exact Hdel].
  eexists. split; [done|]. unfold truncated, wf, fresh. cbn.
  assert (Hne : uuid_source d (uuid_count d) ≠ ann_id a) by congruence.
  split; [|split; [|split; [|split]]].
  - intros k b [[<- <-]|[_ [[<- <-]|[_ Hb]]%lookup_insert_Some]]%lookup_insert_Some;
      [done|done|by apply Hwf].
  - split; [|done]. intros n Hn. rewrite !lookup_insert_None.
    split; [split|].
    + apply Hfresh. lia.
    + intros E. assert (nodes d !! uuid_source d n = None) by (apply Hfresh; lia).
      congruence.
    + intros E%Hinj. lia.
  - intros k b [[<- <-]|[Hk [[<- <-]|[Hne' Hb]]%lookup_insert_Some]]%lookup_insert_Some.
    + right. repeat split. unfold clear. cbn. lia.
    + right. repeat split. unfold clear. cbn. fold s1. lia.
    + left. by split.
  - intros k b Hk Hb. rewrite lookup_insert_ne, lookup_insert_ne; [done|done|].
    intros <-. congruence.
  - split; [done|lia].
Qed.

(** The loop of [annotate] over annotations of the graph: every
    truncation returns, the annotations that are exclusive with the
    type are left clear of the range, and the others as they were. *)
Lemma truncate_each_run (self : behavior) (type : string) (range : Z * Z)
    (l : list annotation) :
  ∀ (toggled : bool) (d : doc),
    wf d → fresh d → NoDup (ann_id <$> l) →
    (∀ a, a ∈ l → nodes d !! ann_id a = Some a) →
    ∃ d', truncate_each self type range l toggled d
          = (Returned (toggled || bool_decide (Exists (λ a, type = ann_type a) l)), d')
      ∧ wf d' ∧ fresh d'
      ∧ (∀ k b, nodes d' !! k = Some b →
           (nodes d !! k = Some b
            ∧ ¬ (b ∈ l ∧ isExclusive self type (ann_type b) = true))
           ∨ (∃ a, a ∈ l ∧ isExclusive self type (ann_type a) = true
                ∧ ann_path b = ann_path a ∧ ann_type b = ann_type a
                ∧ clear b range))
      ∧ (∀ k b, nodes d !! k = Some b →
           ¬ (b ∈ l ∧ isExclusive self type (ann_type b) = true) →
           nodes d' !! k = Some b)
      ∧ uuid_source d' = uuid_source d ∧ (uuid_count d ≤ uuid_count d')%nat.
Proof.
  induction l as [|a l IH]; intros toggled d Hwf Hfresh Hnd Hl.
  { exists d. cbn. rewrite orb_false_r. split; [done|]. split; [done|].
    split; [done|]. split; [|done].
    intros k b Hb. left. split; [done|]. by intros [?%elem_of_nil _]. }
  cbn in Hnd. apply NoDup_cons in Hnd as [Ha Hnd].
  assert (Hpresent : nodes d !! ann_id a = Some a) by (apply Hl; left).
  assert (Hsame : ∀ b, b ∈ l → ann_id b ≠ ann_id a).
  { intros b Hb E. apply Ha. rewrite <- E. apply list_elem_of_fmap. eauto. }
  cbn [truncate_each].
  assert (Hflag : ∀ t : bool,
    (if bool_decide (type = ann_type a) then true else t)
    || bool_decide (Exists (λ a, type = ann_type a) l)
    = t || bool_decide (Exists (λ a0, type = ann_type a0) (a :: l))).
  { intros t. destruct (decide (type = ann_type a)) as [E|E].
    - rewrite (bool_decide_eq_true_2 (type = ann_type a)) by done.
      rewrite (bool_decide_eq_true_2 (Exists _ (a :: l))) by (by left).
      by rewrite orb_true_r.
    - rewrite (bool_decide_eq_false_2 (type = ann_type a)) by done.
      f_equal. apply bool_decide_ext. by rewrite Exists_cons; tauto. }
  destruct (isExclusive self type (ann_type a)) eqn:Hex.
  - destruct (truncate_step self d a range Hwf Hfresh Hpresent)
      as (d1 & Hrun & Hwf1 & Hfresh1 & Hfrom & Hto & Hsrc & Hcount).
    destruct (IH (if bool_decide (type = ann_type a) then true else toggled) d1
                Hwf1 Hfresh1 Hnd)
      as (d' & Hrun' & Hwf' & Hfresh' & Hfrom' & Hto' & Hsrc' & Hcount').
    { intros b Hb. apply Hto; [by apply Hsame|]. apply Hl. by right. }
    exists d'. eff_unfold. rewrite Hrun, Hrun', Hflag.
    split; [done|]. split; [done|]. split; [done|]. split.
    + intros k b [[Hb Hnot]|(a' & Ha' & Hex' & Hp & Ht & Hc)]%Hfrom'.
      * apply Hfrom in Hb as [[Hne Hb]|(Hp & Ht & Hc)].
        -- left. split; [done|]. intros [[->|Hin]%elem_of_cons Hex'].
           ++ apply Hne. symmetry. by apply Hwf.
           ++ by apply Hnot.
        -- right. exists a. split; [left|]. done.
      * right. exists a'. split; [by right|]. done.
    + split; [|split; [congruence|lia]].
      intros k b Hb Hnot. apply Hto'.
      * apply Hto; [|done]. intros ->. apply Hnot. split; [|congruence].
        rewrite Hpresent in Hb. injection Hb as ->. left.
      * intros [Hin Hex']. apply Hnot. split; [by right|done].
  - destruct (IH toggled d Hwf Hfresh Hnd)
      as (d' & Hrun' & Hwf' & Hfresh' & Hfrom' & Hto' & Hsrc' & Hcount').
    { intros b Hb. apply Hl. by right. }
    exists d'. rewrite Hrun'.
    assert (type ≠ ann_type a) as Hne.
    { intros E. rewrite <- E in Hex. apply not_true_iff_false in Hex. apply Hex.
      by apply AnnotatorProps.isExclusive_lookup. }
    specialize (Hflag toggled).
    rewrite (bool_decide_eq_false_2 (type = ann_type a)) in Hflag by done.
    rewrite Hflag.
    split; [done|]. split; [done|]. split; [done|]. split.
    + intros k b [[Hb Hnot]|(a' & Ha' & Hex' & Hp & Ht & Hc)]%Hfrom'.
      * left. split; [done|]. intros [[->|Hin]%elem_of_cons Hex']; [congruence|].
        by apply Hnot.
      * right. exists a'. split; [by right|]. done.
    + split; [|done].
      intros k b Hb Hnot. apply Hto'; [done|].
      intros [Hin Hex']. apply Hnot. split; [by right|done].
Qed.

(** X14. [annotate] over a selection that is not collapsed: the call
    returns; afterwards every annotation of the node whose type is
    exclusive with the new type, the created one apart, is clear of the
    selected range; annotations of other nodes or of other groups are
    as before; and an annotation over the range is created, under an id
    not in use, exactly when no annotation of the same type met the
    range. *)
Theorem annotate_exclusive (self : behavior) (sel : selection) (type : string)
    (d : doc) :
  wf d → fresh d →
  (sel_start sel).1 = (sel_end sel).1 →
  isCollapsed sel = false →
  cursor_node sel ≠ "" →
  (sel_end sel).2 ≠ 0 →
  let node := cursor_node sel in
  let range := ((sel_start sel).2, (sel_end sel).2) in
  let met (b : annotation) :=
    [node] `prefix_of` ann_path b ∧ overlap b range.1 (Some range.2) = true in
  ∃ created d',
    annotate self sel type d = (Returned created, d')
    ∧ wf d'
    ∧ (∀ k b, nodes d' !! k = Some b → [node] `prefix_of` ann_path b →
         isExclusive self type (ann_type b) = true → created ≠ Some b →
         clear b range)
    ∧ (∀ k b, ¬ ([node] `prefix_of` ann_path b
                 ∧ isExclusive self type (ann_type b) = true) →
         nodes d' !! k = Some b ↔ nodes d !! k = Some b)
    ∧ (created = None ↔ ∃ k b, nodes d !! k = Some b ∧ met b ∧ ann_type b = type)
    ∧ (∀ new, created = Some new →
         new = Annotation (uuid_source d' (pred (uuid_count d'))) type
                 [node; "content"] range
         ∧ nodes d' !! ann_id new = Some new
         ∧ nodes d !! ann_id new = None).
Proof.
  intros Hwf Hfresh Hnode Hcollapsed Hid Hend node range met.
  unfold annotate. rewrite Hnode, bool_decide_eq_true_2 by done. cbn [negb].
  rewrite Hcollapsed. unfold getAnnotations. cbn [opt_node opt_range opt_filter].
  assert (truthy_string (Some (cursor_node sel)) = true) as ->.
  { cbn. by rewrite bool_decide_eq_false_2. }
  cbn [default fst snd]. fold node.
  set (M := _filterByNodeAndRange _ _).
  assert (HM : ∀ k a, M !! k = Some a ↔ nodes d !! k = Some a ∧ met a).
  { intros k a. unfold M. by rewrite selected_lookup. }
  set (l := (map_to_list M).*2).
  assert (Hl : ∀ a, a ∈ l ↔ nodes d !! ann_id a = Some a ∧ met a).
  { intros a. unfold l. rewrite values_elem. split.
    - intros [k Hk]. apply HM in Hk as [Hk Hmet]. by rewrite (Hwf k a Hk).
    - intros [Hk Hmet]. exists (ann_id a). by apply HM. }
  destruct (truncate_each_run self type range l false d Hwf Hfresh)
    as (d1 & Hrun & Hwf1 & [Hfresh1 Hinj1] & Hfrom & Hto & Hsrc & Hcount).
  { apply values_NoDup. intros k a [Hk _]%HM. by apply Hwf. }
  { intros a Ha. by apply Hl. }
  assert (Hclear : ∀ k b, nodes d1 !! k = Some b → [node] `prefix_of` ann_path b →
            isExclusive self type (ann_type b) = true → clear b range).
  { intros k b [[Hb Hnot]|(a & _ & _ & _ & _ & Hc)]%Hfrom Hp Hex; [|done].
    assert (overlap b range.1 (Some range.2) ≠ true) as Hov.
    { intros Hov. apply Hnot. split; [|done]. apply Hl.
      by rewrite (Hwf k b Hb). }
    unfold overlap, clear, truthy, range in *. cbn [fst snd] in *.
    destruct (Z.eqb_spec (sel_end sel).2 0) as [|_]; [done|]. cbn [negb] in Hov.
    destruct (Z.geb_spec (ann_range b).2 (sel_start sel).2),
      (Z.leb_spec (ann_range b).1 (sel_end sel).2); cbn in Hov; try done; lia. }
  assert (Hrest : ∀ k b, ¬ ([node] `prefix_of` ann_path b
                            ∧ isExclusive self type (ann_type b) = true) →
            nodes d1 !! k = Some b ↔ nodes d !! k = Some b).
  { intros k b Hnot. split.
    - intros [[Hb _]|(a & Ha & Hex & Hp & Ht & _)]%Hfrom; [done|].
      destruct Hnot. apply Hl in Ha as [_ [Hpa _]]. by rewrite Hp, Ht.
    - intros Hb. apply Hto; [done|]. intros [[_ [Hp _]]%Hl Hex]. by apply Hnot. }
  assert (Htoggled : bool_decide (Exists (λ a, type = ann_type a) l) = true
            ↔ ∃ k b, nodes d !! k = Some b ∧ met b ∧ ann_type b = type).
  { rewrite bool_decide_eq_true, Exists_exists. split.
    - intros (a & [Ha Hmet]%Hl & E). by exists (ann_id a), a.
    - intros (k & b & Hb & Hmet & E). exists b. split; [|done].
      apply Hl. by rewrite (Hwf k b Hb). }
  unfold mbind, Eff_bind, bind. fold range. rewrite Hrun. cbn [orb].
  destruct (bool_decide (Exists (λ a, type = ann_type a) l)) eqn:Ht; cbn [negb].
  - exists None, d1. split; [done|]. split; [done|].
    split; [by intros k b Hb Hp Hex _; eapply Hclear|]. split; [done|].
    split; [|done]. split; [intros _; by apply Htoggled|done].
  - pose proof (AnnotatorProps.create_fresh [node; "content"] type range d1) as Hc.
    cbn zeta in Hc. rewrite Hc by (by apply Hfresh1). clear Hc. cbn [ann_id].
    set (new := Annotation _ _ _ _).
    eexists (Some new), _. split; [done|]. cbn [nodes uuid_count uuid_source pred].
    assert (Hnone : nodes d !! ann_id new = None).
    { cbn. rewrite Hsrc. by apply Hfresh. }
    split.
    { unfold wf. cbn [nodes].
      intros k b [[<- <-]|[_ Hb]]%lookup_insert_Some; [done|]. by apply Hwf1. }
    split.
    { intros k b [[<- <-]|[_ Hb]]%lookup_insert_Some Hp Hex Hneq; [done|].
      by eapply Hclear. }
    split.
    { intros k b Hnot. rewrite <- (Hrest k b Hnot). rewrite lookup_insert_Some.
      split; [|].
      - intros [[<- <-]|[_ Hb]]; [|done]. destruct Hnot. split.
        + by exists ["content"].
        + by apply AnnotatorProps.isExclusive_lookup.
      - intros Hb. right. split; [|done]. intros <-.
        by rewrite (Hfresh1 (uuid_count d1)) in Hb. }
    split.
    { split; [done|]. intros H%Htoggled. by rewrite H in Ht. }
    intros ? [= <-]. split; [done|]. split; [apply lookup_insert_eq|done].
Qed.

(** The sample document with one annotation, and its source of ids. *)
Lemma sample_wf (a : annotation) : wf (Samples.doc_of a).
Proof.
  unfold wf, Samples.doc_of. cbn.
  intros k b [<- <-]%lookup_singleton_Some. done.
Qed.

Lemma sample_fresh (a : annotation) :
  (∀ n, ann_id a ≠ Samples.uuids n) → fresh (Samples.doc_of a).
Proof.
  intros Hne. split.
  - intros n _. cbn. apply lookup_singleton_None. apply Hne.
  - intros n m E. unfold Samples.doc_of, Samples.uuids in E. cbn in E.
    injection E as E. apply (inj pretty). exact E.
Qed.

(** ["emphasis"] over [[4,6]] of a text whose [[2,8]] is ["strong"]:
    the strong annotation is split. *)
Lemma annotate_exclusive_witness :
  ∃ created d',
    annotate defaultBehavior (Selection (0, 4) (0, 6) "text_1" false) "emphasis"
      (Samples.doc_of Samples.strong_2_8)
    = (Returned created, d') ∧ wf d'.
Proof.
  destruct (annotate_exclusive defaultBehavior
              (Selection (0, 4) (0, 6) "text_1" false) "emphasis"
              (Samples.doc_of Samples.strong_2_8))
    as (created & d' & Hrun & Hwf & _).
  - apply sample_wf.
  - apply sample_fresh. intros n E. discriminate E.
  - reflexivity.
  - reflexivity.
  - discriminate.
  - discriminate.
  - by exists created, d'.
Defined.

Lemma with_nodes_same (d : doc) : with_nodes d (nodes d) = d.
Proof. by destruct d. Qed.

(** A loop whose step rewrites only the entry of the annotation it is
    given: every annotation of the list is rewritten, from the state it
    had at the start, and no other entry is touched. *)
Lemma each_own_entry (step : annotation → Eff doc unit)
    (g : annotation → option annotation) :
  (∀ a d, nodes d !! ann_id a = Some a →
     ∃ m, step a d = (Returned tt, with_nodes d m)
       ∧ m !! ann_id a = g a ∧ ∀ k, k ≠ ann_id a → m !! k = nodes d !! k) →
  ∀ (l : list annotation) (d : doc),
    NoDup (ann_id <$> l) →
    (∀ a, a ∈ l → nodes d !! ann_id a = Some a) →
    ∃ m, each step l d = (Returned tt, with_nodes d m)
      ∧ (∀ a, a ∈ l → m !! ann_id a = g a)
      ∧ (∀ k, (∀ a, a ∈ l → ann_id a ≠ k) → m !! k = nodes d !! k).
Proof.
  intros Hstep. induction l as [|a l IH]; intros d Hnd Hl.
  { exists (nodes d). cbn. unfold ret. rewrite with_nodes_same.
    split; [done|]. split; [|done]. by intros a ?%elem_of_nil. }
  cbn in Hnd. apply NoDup_cons in Hnd as [Ha Hnd].
  assert (Hother : ∀ b, b ∈ l → ann_id b ≠ ann_id a).
  { intros b Hb E. apply Ha. rewrite <- E. apply list_elem_of_fmap. eauto. }
  destruct (Hstep a d) as (m1 & Hrun & Hown & Hrest); [apply Hl; left|].
  destruct (IH (with_nodes d m1) Hnd) as (m & Hrun' & Hown' & Hrest').
  { intros b Hb. cbn. rewrite Hrest by (by apply Hother). apply Hl. by right. }
  exists m. cbn [each]. unfold bind. rewrite Hrun, Hrun'. split; [done|]. split.
  - intros b [->|Hb]%elem_of_cons; [|by apply Hown'].
    rewrite Hrest'; [done|]. intros b Hb. by apply Hother.
  - intros k Hk. rewrite Hrest'.
    + cbn. apply Hrest. intros ->. by apply (Hk a); [left|].
    + intros b Hb. apply Hk. by right.
Qed.

(** X15. [annotate] over a collapsed selection switches the type off:
    it deletes the annotations of the node that have the type and meet
    the cursor, leaves every other annotation as it is, and creates
    nothing. With the cursor at character [0] the end of the range
    counts as missing, so that every annotation of the type that ends
    at or behind the start is deleted, wherever it begins. *)
Theorem annotate_collapsed (self : behavior) (sel : selection) (type : string)
    (d : doc) :
  wf d →
  (sel_start sel).1 = (sel_end sel).1 →
  isCollapsed sel = true →
  cursor_node sel ≠ "" →
  let node := cursor_node sel in
  let met (b : annotation) :=
    [node] `prefix_of` ann_path b
    ∧ overlap b (sel_start sel).2 (Some (sel_end sel).2) = true in
  ∃ d',
    annotate self sel type d = (Returned None, d')
    ∧ uuid_count d' = uuid_count d
    ∧ (∀ k b, nodes d' !! k = Some b
              ↔ nodes d !! k = Some b ∧ ¬ (met b ∧ ann_type b = type))
    ∧ ((sel_end sel).2 = 0 →
       ∀ k b, nodes d !! k = Some b → [node] `prefix_of` ann_path b →
         ann_type b = type → (sel_start sel).2 ≤ (ann_range b).2 →
         nodes d' !! k = None).
Proof.
  intros Hwf Hnode Hcollapsed Hid node met.
  unfold annotate. rewrite Hnode, bool_decide_eq_true_2 by done. cbn [negb].
  rewrite Hcollapsed. unfold getAnnotations. cbn [opt_node opt_range opt_filter].
  assert (truthy_string (Some (cursor_node sel)) = true) as ->.
  { cbn. by rewrite bool_decide_eq_false_2. }
  cbn [default fst snd]. fold node.
  set (M := _filterByNodeAndRange _ _).
  assert (HM : ∀ k a, M !! k = Some a ↔ nodes d !! k = Some a ∧ met a).
  { intros k a. unfold M. by rewrite selected_lookup. }
  set (l := (map_to_list M).*2).
  assert (Hl : ∀ a, a ∈ l ↔ nodes d !! ann_id a = Some a ∧ met a).
  { intros a. unfold l. rewrite values_elem. split.
    - intros [k Hk]. apply HM in Hk as [Hk Hmet]. by rewrite (Hwf k a Hk).
    - intros [Hk Hmet]. exists (ann_id a). by apply HM. }
  destruct (each_own_entry
              (λ a, if bool_decide (ann_type a = type) then _delete a else ret tt)
              (λ a, if bool_decide (ann_type a = type) then None else Some a)) with
    (l := l) (d := d) as (m & Hrun & Hown & Hrest).
  { intros a d0 Ha. destruct (bool_decide (ann_type a = type)).
    - rewrite (AnnotatorProps.delete_present a d0 Ha). eexists. split; [done|].
      split; [apply lookup_delete_eq|]. intros k Hk. by apply lookup_delete_ne.
    - exists (nodes d0). unfold ret. by rewrite with_nodes_same. }
  { apply values_NoDup. intros k a [Hk _]%HM. by apply Hwf. }
  { intros a Ha. by apply Hl. }
  unfold mbind, Eff_bind, bind. rewrite Hrun.
  eexists. split; [done|]. cbn [nodes with_nodes uuid_count]. split; [done|].
  assert (Hafter : ∀ k b, m !! k = Some b
            ↔ nodes d !! k = Some b ∧ ¬ (met b ∧ ann_type b = type)).
  { intros k b. destruct (nodes d !! k) as [a|] eqn:Hk.
    - pose proof (Hwf k a Hk) as <-.
      destruct (decide (met a)) as [Hmet|Hnot].
      + rewrite Hown by (by apply Hl). case_bool_decide as Ht.
        * split; [done|]. intros [[= ->] Hno]. destruct Hno. done.
        * split; [intros [= ->]; split; [done|]; by intros [_ ?]|by intros [? _]].
      + rewrite Hrest, Hk.
        * split; [intros [= ->]; split; [done|]; by intros [? _]|by intros [? _]].
        * intros a' [Ha' Hmet']%Hl E. rewrite E, Hk in Ha'. injection Ha' as ->.
          done.
    - rewrite Hrest, Hk; [split; [done|by intros [? _]]|].
      intros a [Ha _]%Hl E. rewrite E in Ha. congruence. }
  split; [done|].
  intros Hzero k b Hb Hp Ht Hend.
  destruct (m !! k) as [b'|] eqn:Hm; [|done].
  apply Hafter in Hm as [Hm Hno]. rewrite Hb in Hm. injection Hm as <-.
  destruct Hno. split; [|done]. split; [done|].
  unfold overlap. rewrite Hzero. cbn. by apply Z.geb_le.
Qed.

(** The cursor at the start of a text whose [[2,8]] is ["strong"]. *)
Lemma annotate_collapsed_witness :
  ∃ d',
    annotate defaultBehavior (Selection (0, 0) (0, 0) "text_1" true) "strong"
      (Samples.doc_of Samples.strong_2_8)
    = (Returned None, d')
    ∧ nodes d' !! "a1" = None.
Proof.
  destruct (annotate_collapsed defaultBehavior
              (Selection (0, 0) (0, 0) "text_1" true) "strong"
              (Samples.doc_of Samples.strong_2_8))
    as (d' & Hrun & _ & _ & Hzero).
  - apply sample_wf.
  - reflexivity.
  - reflexivity.
  - discriminate.
  - exists d'. split; [done|].
    apply (Hzero eq_refl "a1" Samples.strong_2_8); [reflexivity| |reflexivity|done].
    by exists ["content"].
Defined.

Section Transform.
Context {Diff : Type}.
Variable Range_transform : Z * Z → Diff → bool → bool → bool * (Z * Z).

(** What becomes of an annotation when an operation is transformed
    into it. *)
Definition transformed (self : behavior) (op : operation Diff) (b : annotation)
  : option annotation :=
  if bool_decide (ann_path b = op_path op) then
    match op_kind op with
    | OpUpdate =>
        let result :=
          Range_transform (ann_range b) (op_diff op)
            (expandLeft self b) (expandRight self b) in
        if result.1 then
          if result.2.1 =? result.2.2 then None else Some (set_range b result.2)
        else Some b
    | OpDelete | OpSet => None
    | OpCreate => Some b
    end
  else Some b.

(** One step of [transform]: [_transform] rewrites the entry of its
    annotation and no other. *)
Lemma transform_step (self : behavior) (op : operation Diff) (a : annotation)
    (d0 : doc) :
  nodes d0 !! ann_id a = Some a →
  ∃ m, _transform Range_transform self op a d0 = (Returned tt, with_nodes d0 m)
    ∧ m !! ann_id a = transformed self op a
    ∧ ∀ k, k ≠ ann_id a → m !! k = nodes d0 !! k.
Proof.
  intros Ha.
  unfold _transform, transformed.
  destruct (bool_decide (ann_path a = op_path op)); cbn [negb].
  - destruct (op_kind op).
    + exists (nodes d0). eff_unfold. by rewrite with_nodes_same.
    + rewrite (AnnotatorProps.delete_present a d0 Ha). eexists. split; [done|].
      split; [apply lookup_delete_eq|]. intros k Hk. by apply lookup_delete_ne.
    + destruct (Range_transform _ _ _ _) as [[] r]; cbn [fst snd].
      * destruct (r.1 =? r.2).
        -- rewrite (AnnotatorProps.delete_present a d0 Ha). eexists.
           split; [done|]. split; [apply lookup_delete_eq|].
           intros k Hk. by apply lookup_delete_ne.
        -- unfold document_set_range. rewrite Ha. eexists. split; [done|].
           split; [apply lookup_insert_eq|]. intros k Hk.
           by apply lookup_insert_ne.
      * exists (nodes d0). eff_unfold. by rewrite with_nodes_same.
    + rewrite (AnnotatorProps.delete_present a d0 Ha). eexists. split; [done|].
      split; [apply lookup_delete_eq|]. intros k Hk. by apply lookup_delete_ne.
  - exists (nodes d0). eff_unfold. by rewrite with_nodes_same.
Qed.

Lemma transform_returns (self : behavior) (op : operation Diff) (d : doc) :
  wf d → ∃ d', transform Range_transform self op d = (Returned tt, d').
Proof.
  intros Hwf. unfold transform.
  destruct (each_own_entry (_transform Range_transform self op)
              (transformed self op)) with
    (l := index_get d (op_path op)) (d := d) as (m & Hrun & _).
  { intros a d0. apply transform_step. }
  { by apply index_get_NoDup. }
  { intros a Ha. by apply index_get_elem in Ha as [Ha _]. }
  eauto.
Qed.

(** X16. [transform(op)] returns and treats every annotation on its
    own: the annotations whose path is the path of the operation are
    deleted by a [set] or [delete] of the property; on an update they
    take the transformed range, or are deleted when that range is
    collapsed; annotations of other paths, and all annotations on a
    [create], stay as they are. *)
Theorem transform_each (self : behavior) (op : operation Diff) (d : doc) :
  wf d →
  ∃ d',
    transform Range_transform self op d = (Returned tt, d')
    ∧ uuid_count d' = uuid_count d
    ∧ (∀ k, nodes d' !! k = nodes d !! k ≫= transformed self op)
    ∧ (op_kind op = OpSet ∨ op_kind op = OpDelete →
       ∀ k b, nodes d' !! k = Some b
              ↔ nodes d !! k = Some b ∧ ann_path b ≠ op_path op).
Proof.
  intros Hwf. unfold transform.
  destruct (each_own_entry (_transform Range_transform self op)
              (transformed self op)) with
    (l := index_get d (op_path op)) (d := d) as (m & Hrun & Hown & Hrest).
  { intros a d0. apply transform_step. }
  { by apply index_get_NoDup. }
  { intros a Ha. by apply index_get_elem in Ha as [Ha _]. }
  rewrite Hrun. eexists. split; [done|]. cbn [nodes with_nodes uuid_count].
  split; [done|].
  assert (Hafter : ∀ k, m !! k = nodes d !! k ≫= transformed self op).
  { intros k. destruct (nodes d !! k) as [a|] eqn:Hk; cbn.
    - pose proof (Hwf k a Hk) as <-.
      destruct (decide (op_path op `prefix_of` ann_path a)) as [Hp|Hp].
      + apply Hown. by apply index_get_elem.
      + rewrite Hrest, Hk.
        * unfold transformed. rewrite bool_decide_eq_false_2; [done|].
          intros E. apply Hp. by rewrite E.
        * intros a' [Ha' Hp']%index_get_elem E; [|done].
          rewrite E, Hk in Ha'. by injection Ha' as ->.
    - rewrite Hrest, Hk; [done|].
      intros a [Ha _]%index_get_elem E; [|done]. rewrite E in Ha. congruence. }
  split; [done|].
  intros Hkind k b. rewrite Hafter.
  destruct (nodes d !! k) as [a|]; cbn; [|by split; [|intros [? _]]].
  unfold transformed. case_bool_decide as Hp.
  - destruct Hkind as [E|E]; rewrite E; (split; [done|]); by intros [[= ->] ?].
  - split; [by intros [= ->]|by intros [[= ->] _]].
Qed.

End Transform.

(** The text is set anew: its annotation goes. *)
Lemma transform_each_witness :
  ∃ d',
    transform Samples.delete_transform defaultBehavior
      (Operation OpSet Samples.text_path (0, 0))
      (Samples.doc_of Samples.strong_2_8)
    = (Returned tt, d')
    ∧ nodes d' !! "a1" = None.
Proof.
  destruct (transform_each Samples.delete_transform defaultBehavior
              (Operation OpSet Samples.text_path (0, 0))
              (Samples.doc_of Samples.strong_2_8))
    as (d' & Hrun & _ & Hafter & _).
  - apply sample_wf.
  - exists d'. split; [done|]. by rewrite Hafter.
Defined.

(** [annotate] over a selection that is not collapsed, as the loop
    over the annotations of the node that meet the range. *)
Lemma annotate_not_collapsed (self : behavior) (sel : selection) (type : string)
    (d : doc) :
  wf d →
  (sel_start sel).1 = (sel_end sel).1 →
  isCollapsed sel = false →
  cursor_node sel ≠ "" →
  let node := cursor_node sel in
  let range := ((sel_start sel).2, (sel_end sel).2) in
  ∃ l,
    annotate self sel type d
    = (toggled ← truncate_each self type range l false;
       if negb toggled then
         a ← _create [node; "content"] type range;
         ret (Some a)
       else ret None) d
    ∧ NoDup (ann_id <$> l)
    ∧ (∀ a, a ∈ l ↔ nodes d !! ann_id a = Some a
                    ∧ [node] `prefix_of` ann_path a
                    ∧ overlap a range.1 (Some range.2) = true).
Proof.
  intros Hwf Hnode Hcollapsed Hid node range.
  unfold annotate. rewrite Hnode, bool_decide_eq_true_2 by done. cbn [negb].
  rewrite Hcollapsed. unfold getAnnotations. cbn [opt_node opt_range opt_filter].
  assert (truthy_string (Some (cursor_node sel)) = true) as ->.
  { cbn. by rewrite bool_decide_eq_false_2. }
  cbn [default fst snd]. fold node.
  set (M := _filterByNodeAndRange _ _).
  assert (HM : ∀ k a, M !! k = Some a ↔ nodes d !! k = Some a
            ∧ [node] `prefix_of` ann_path a
            ∧ overlap a range.1 (Some range.2) = true).
  { intros k a. unfold M. by rewrite selected_lookup. }
  exists (map_to_list M).*2. split; [done|]. split.
  - apply values_NoDup. intros k a [Hk _]%HM. by apply Hwf.
  - intros a. rewrite values_elem. split.
    + intros [k Hk]. apply HM in Hk as [Hk Hmet]. by rewrite (Hwf k a Hk).
    + intros [Hk Hmet]. exists (ann_id a). by apply HM.
Qed.

(** The loop of [annotate] when every annotation to truncate lies
    inside the range: they are all deleted. *)
Lemma truncate_each_covered (self : behavior) (type : string) (range : Z * Z)
    (l : list annotation) :
  (∀ a, a ∈ l → isExclusive self type (ann_type a) = true →
     range.1 ≤ (ann_range a).1 ∧ (ann_range a).2 ≤ range.2) →
  NoDup (ann_id <$> l) →
  ∀ (toggled : bool) (d : doc),
    (∀ a, a ∈ l → nodes d !! ann_id a = Some a) →
    ∃ m, truncate_each self type range l toggled d
         = (Returned (toggled || bool_decide (Exists (λ a, type = ann_type a) l)),
            with_nodes d m)
      ∧ (∀ a, a ∈ l → isExclusive self type (ann_type a) = true →
           m !! ann_id a = None)
      ∧ (∀ k, (∀ a, a ∈ l → isExclusive self type (ann_type a) = true →
                 ann_id a ≠ k) → m !! k = nodes d !! k).
Proof.
  induction l as [|a l IH]; intros Hcovered Hnd toggled d Hl.
  { exists (nodes d). cbn. unfold ret. rewrite orb_false_r, with_nodes_same.
    split; [done|]. split; [|done]. by intros a ?%elem_of_nil. }
  cbn in Hnd. apply NoDup_cons in Hnd as [Ha Hnd].
  assert (Hother : ∀ b, b ∈ l → ann_id b ≠ ann_id a).
  { intros b Hb E. apply Ha. rewrite <- E. apply list_elem_of_fmap. eauto. }
  assert (Hflag : ∀ t : bool,
    (if bool_decide (type = ann_type a) then true else t)
    || bool_decide (Exists (λ a, type = ann_type a) l)
    = t || bool_decide (Exists (λ a0, type = ann_type a0) (a :: l))).
  { intros t. destruct (decide (type = ann_type a)) as [E|E].
    - rewrite (bool_decide_eq_true_2 (type = ann_type a)) by done.
      rewrite (bool_decide_eq_true_2 (Exists _ (a :: l))) by (by left).
      by rewrite orb_true_r.
    - rewrite (bool_decide_eq_false_2 (type = ann_type a)) by done.
      f_equal. apply bool_decide_ext. by rewrite Exists_cons; tauto. }
  cbn [truncate_each]. destruct (isExclusive self type (ann_type a)) eqn:Hex.
  - destruct (Hcovered a) as [Hs He]; [left|done|].
    assert (_truncate self a range d
            = (Returned tt, with_nodes d (delete (ann_id a) (nodes d)))) as Hrun.
    { unfold _truncate.
      rewrite (proj2 (Z.geb_le _ _)), (proj2 (Z.leb_le _ _)) by done. cbn.
      apply AnnotatorProps.delete_present. apply Hl. left. }
    destruct (IH (λ b Hb, Hcovered b (list_elem_of_further _ _ _ Hb)) Hnd
                (if bool_decide (type = ann_type a) then true else toggled)
                (with_nodes d (delete (ann_id a) (nodes d))))
      as (m & Hrun' & Hgone & Hrest).
    { intros b Hb. cbn. rewrite lookup_delete_ne by (symmetry; by apply Hother).
      apply Hl. by right. }
    exists m. eff_unfold. rewrite Hrun, Hrun', Hflag. split; [done|]. split.
    + intros b [->|Hb]%elem_of_cons Hexb; [|by apply Hgone].
      rewrite Hrest; [cbn; apply lookup_delete_eq|].
      intros c Hc _. by apply Hother.
    + intros k Hk. rewrite Hrest.
      * cbn. apply lookup_delete_ne. apply Hk; [left|done].
      * intros b Hb Hexb. apply Hk; [by right|done].
  - destruct (IH (λ b Hb, Hcovered b (list_elem_of_further _ _ _ Hb)) Hnd
                toggled d) as (m & Hrun' & Hgone & Hrest).
    { intros b Hb. apply Hl. by right. }
    exists m. rewrite Hrun'.
    assert (type ≠ ann_type a) as Hne.
    { intros E. rewrite <- E in Hex. apply not_true_iff_false in Hex. apply Hex.
      by apply AnnotatorProps.isExclusive_lookup. }
    specialize (Hflag toggled).
    rewrite (bool_decide_eq_false_2 (type = ann_type a)) in Hflag by done.
    rewrite Hflag. split; [done|]. split.
    + intros b [->|Hb]%elem_of_cons Hexb; [congruence|by apply Hgone].
    + intros k Hk. apply Hrest. intros b Hb Hexb. apply Hk; [by right|done].
Qed.

(** X24. [annotate] twice over the same selection switches the type on
    and off again: where no annotation that is exclusive with the type
    meets the range, the first call creates the annotation over the
    range, and the second call deletes it and creates nothing, so that
    the annotations are the ones before the two calls. *)
Theorem annotate_twice (self : behavior) (sel : selection) (type : string)
    (d : doc) :
  wf d → fresh d →
  (sel_start sel).1 = (sel_end sel).1 →
  isCollapsed sel = false →
  cursor_node sel ≠ "" →
  (sel_start sel).2 ≤ (sel_end sel).2 → (sel_end sel).2 ≠ 0 →
  (∀ k b, nodes d !! k = Some b → [cursor_node sel] `prefix_of` ann_path b →
     overlap b (sel_start sel).2 (Some (sel_end sel).2) = true →
     isExclusive self type (ann_type b) = false) →
  let new :=
    Annotation (uuid_source d (uuid_count d)) type [cursor_node sel; "content"]
      ((sel_start sel).2, (sel_end sel).2) in
  let first := annotate self sel type d in
  let second := annotate self sel type first.2 in
  first.1 = Returned (Some new)
  ∧ nodes first.2 = <[ann_id new := new]> (nodes d)
  ∧ second.1 = Returned None
  ∧ nodes second.2 = nodes d.
Proof.
  intros Hwf [Hfresh Hinj] Hnode Hcollapsed Hid Hle Hend Hfree new first second.
  assert (Hself : isExclusive self type type = true)
    by (by apply AnnotatorProps.isExclusive_lookup).
  assert (Hnew : nodes d !! ann_id new = None) by (by apply Hfresh).
  (* the first call *)
  destruct (annotate_not_collapsed self sel type d Hwf Hnode Hcollapsed Hid)
    as (l1 & Hrun1 & Hnd1 & Hl1).
  destruct (truncate_each_covered self type
              ((sel_start sel).2, (sel_end sel).2) l1) with
    (toggled := false) (d := d) as (m1 & Hloop1 & _ & Hrest1); [|done| |].
  { intros a (Ha & Hp & Hov)%Hl1 Hex. by rewrite (Hfree _ _ Ha Hp Hov) in Hex. }
  { intros a Ha. by apply Hl1. }
  assert (m1 = nodes d) as ->.
  { apply map_eq. intros k. apply Hrest1.
    intros a (Ha & Hp & Hov)%Hl1 Hex. by rewrite (Hfree _ _ Ha Hp Hov) in Hex. }
  rewrite with_nodes_same in Hloop1.
  assert (Hnone1 : bool_decide (Exists (λ a, type = ann_type a) l1) = false).
  { apply bool_decide_eq_false. intros (a & (Ha & Hp & Hov)%Hl1 & E)%Exists_exists.
    pose proof (Hfree _ _ Ha Hp Hov) as Hex. rewrite <- E in Hex. congruence. }
  assert (Hfirst : first
            = (Returned (Some new),
               {| nodes := <[ann_id new := new]> (nodes d);
                  uuid_source := uuid_source d;
                  uuid_count := S (uuid_count d) |})).
  { unfold first. rewrite Hrun1. unfold mbind, Eff_bind, bind.
    rewrite Hloop1, Hnone1. cbn [orb negb].
    by rewrite (AnnotatorProps.create_fresh _ _ _ d Hnew). }
  unfold second. rewrite Hfirst. cbn [fst snd nodes]. split; [done|]. split; [done|].
  (* the second call *)
  set (d1 := Doc _ _ _) in *.
  assert (Hwf1 : wf d1).
  { unfold wf, d1. cbn [nodes].
    intros k b [[<- <-]|[_ Hb]]%lookup_insert_Some; [done|by apply Hwf]. }
  destruct (annotate_not_collapsed self sel type d1 Hwf1 Hnode Hcollapsed Hid)
    as (l2 & Hrun2 & Hnd2 & Hl2).
  assert (Hin : new ∈ l2).
  { apply Hl2. split; [apply lookup_insert_eq|]. split; [by exists ["content"]|].
    unfold overlap, truthy. cbn.
    destruct (Z.eqb_spec (sel_end sel).2 0); [done|]. cbn.
    rewrite andb_true_iff, Z.geb_le, Z.leb_le. lia. }
  assert (Honly : ∀ a, a ∈ l2 → isExclusive self type (ann_type a) = true → a = new).
  { intros a (Ha & Hp & Hov)%Hl2 Hex. unfold d1 in Ha. cbn [nodes] in Ha.
    apply lookup_insert_Some in Ha as [[_ <-]|[_ Ha]]; [done|].
    by rewrite (Hfree _ _ Ha Hp Hov) in Hex. }
  destruct (truncate_each_covered self type
              ((sel_start sel).2, (sel_end sel).2) l2) with
    (toggled := false) (d := d1) as (m2 & Hloop2 & Hgone2 & Hrest2); [|done| |].
  { intros a Ha Hex. rewrite (Honly a Ha Hex). cbn. lia. }
  { intros a Ha. by apply Hl2. }
  assert (m2 = nodes d) as ->.
  { apply map_eq. intros k. destruct (decide (k = ann_id new)) as [->|Hne].
    - rewrite Hgone2, Hnew; done.
    - rewrite Hrest2.
      + cbn. by rewrite lookup_insert_ne.
      + intros a Ha Hex. by rewrite (Honly a Ha Hex). }
  rewrite Hrun2. unfold mbind, Eff_bind, bind. rewrite Hloop2.
  rewrite (bool_decide_eq_true_2 (Exists _ l2)).
  - done.
  - apply Exists_exists. by exists new.
Qed.

(** ["strong"] switched on and off over [[10,12]] of a text whose
    [[2,8]] is an ["idea"]. *)
Lemma annotate_twice_witness :
  nodes (annotate defaultBehavior (Selection (0, 10) (0, 12) "text_1" false)
           "strong"
           (annotate defaultBehavior (Selection (0, 10) (0, 12) "text_1" false)
              "strong" (Samples.doc_of Samples.idea_2_8)).2).2
  = nodes (Samples.doc_of Samples.idea_2_8).
Proof.
  apply (annotate_twice defaultBehavior (Selection (0, 10) (0, 12) "text_1" false)
           "strong" (Samples.doc_of Samples.idea_2_8)).
  - apply sample_wf.
  - apply sample_fresh. intros n E. discriminate E.
  - reflexivity.
  - reflexivity.
  - discriminate.
  - cbn. lia.
  - discriminate.
  - intros k b Hb _ _. unfold Samples.doc_of in Hb. cbn in Hb.
    by apply lookup_singleton_Some in Hb as [_ <-].
Defined.

(** A map built by entering the annotations of a list that pass a
    test under their ids. *)
Lemma keyed_lookup (f : annotation → bool) (l : list annotation)
    (k : string) (a : annotation) :
  NoDup (ann_id <$> l) →
  foldl (λ (acc : gmap string annotation) b,
           if f b then <[ann_id b := b]> acc else acc) ∅ l !! k = Some a
  ↔ a ∈ l ∧ ann_id a = k ∧ f a = true.
Proof.
  assert (H : ∀ acc : gmap string annotation,
            NoDup (ann_id <$> l) →
            (∀ b, b ∈ l → acc !! ann_id b = None) →
            foldl (λ acc b, if f b then <[ann_id b := b]> acc else acc) acc l !! k
            = Some a
            ↔ acc !! k = Some a ∨ (a ∈ l ∧ ann_id a = k ∧ f a = true)).
  { induction l as [|b l IH]; intros acc Hnd Hacc; cbn [foldl].
    { split; [by left|]. by intros [?|[?%elem_of_nil _]]. }
    cbn in Hnd. apply NoDup_cons in Hnd as [Hb Hnd].
    rewrite IH; [|done|].
    - pose proof (Hacc b (list_elem_of_here _ _)) as Hnone.
      rewrite elem_of_cons. destruct (f b) eqn:Hf.
      + rewrite lookup_insert_Some. split.
        * intros [[[<- <-]|[_ ?]]|(? & ? & ?)]; eauto 6.
        * intros [Hk|([->|?] & Hid & Hfa)]; eauto 6.
          left. right. split; [|done]. intros <-. congruence.
      + split.
        * intros [?|(? & ? & ?)]; eauto 6.
        * intros [?|([->|?] & ? & ?)]; eauto 6. congruence.
    - intros b' Hb'.
      assert (ann_id b' ≠ ann_id b) as Hne.
      { intros E. apply Hb. rewrite <- E. apply list_elem_of_fmap. eauto. }
      destruct (f b); [rewrite lookup_insert_ne by done|]; apply Hacc; by right. }
  intros Hnd. rewrite H; [|done|by intros b _].
  rewrite lookup_empty. split; [by intros [?|?]|by right].
Qed.

(** The annotations gathered over the ranges of a selection. *)
Lemma selection_lookup (d : doc) (ranges : list (string * (Z * Z))) (k' : string)
    (a' : annotation) :
  wf d →
  foldl (λ annotations range,
           _filterByNodeAndRange (index_get d [range.1])
             (Some (range.2.1, Some range.2.2)) ∪ annotations)
        ∅ ranges !! k' = Some a'
  ↔ nodes d !! k' = Some a'
    ∧ ∃ range, range ∈ ranges ∧ [range.1] `prefix_of` ann_path a'
        ∧ overlap a' range.2.1 (Some range.2.2) = true.
Proof.
  intros Hwf.
  assert (H : ∀ acc : gmap string annotation,
            (∀ i b, acc !! i = Some b → nodes d !! i = Some b) →
            foldl (λ annotations range,
                     _filterByNodeAndRange (index_get d [range.1])
                       (Some (range.2.1, Some range.2.2)) ∪ annotations)
                  acc ranges !! k' = Some a'
            ↔ acc !! k' = Some a'
              ∨ (nodes d !! k' = Some a'
                 ∧ ∃ range, range ∈ ranges
                     ∧ [range.1] `prefix_of` ann_path a'
                     ∧ overlap a' range.2.1 (Some range.2.2) = true)).
  { induction ranges as [|range ranges IH]; intros acc Hacc; cbn [foldl].
    { split; [by left|]. by intros [?|[_ (? & ?%elem_of_nil & _)]]. }
    rewrite IH.
    - rewrite lookup_union_Some_raw, selected_lookup by done. cbn [fst snd].
      split.
      + intros [[(Hn & Hp & Hov)|[_ Hk]]|(Hn & r & Hr & Hp & Hov)].
        * right. split; [done|]. exists range. split; [left|done].
        * by left.
        * right. split; [done|]. exists r. split; [by right|done].
      + intros [Hk|(Hn & r & [->|Hr]%elem_of_cons & Hp & Hov)].
        * left.
          destruct (_filterByNodeAndRange (index_get d [range.1])
                      (Some (range.2.1, Some range.2.2)) !! k')
            as [b|] eqn:Hb; [|by right].
          left. apply selected_lookup in Hb as (Hb & Hp & Hov); [|done].
          apply Hacc in Hk. rewrite Hk in Hb. injection Hb as <-. done.
        * left. left. done.
        * right. split; [done|]. by exists r.
    - intros i b [(? & _)%selected_lookup|[_ ?]]%lookup_union_Some_raw;
        [done|done|by apply Hacc]. }
  rewrite H by (by intros i b ?). rewrite lookup_empty.
  split; [by intros [?|?]|by right].
Qed.

(** X17. What [getAnnotations(options)] returns from a graph that
    stores every annotation under its id: the annotations of the graph
    that are chosen by the options and pass the filter, if one is
    given. With a node id, the annotations of the node that meet the
    range (all of the node without a range); else with a selection, the
    annotations that meet one of its ranges in the node of that range;
    else every annotation. *)
Theorem getAnnotations_chosen (options : options) (d : doc) (k : string)
    (a : annotation) :
  wf d →
  let chosen :=
    if truthy_string (opt_node options) then
      [default "" (opt_node options)] `prefix_of` ann_path a
      ∧ (∀ range, opt_range options = Some range →
           overlap a range.1 range.2 = true)
    else
      match opt_selection options with
      | Some ranges =>
          ∃ range, range ∈ ranges ∧ [range.1] `prefix_of` ann_path a
            ∧ overlap a range.2.1 (Some range.2.2) = true
      | None => True
      end in
  getAnnotations options d !! k = Some a
  ↔ nodes d !! k = Some a ∧ chosen
    ∧ (∀ f, opt_filter options = Some f → f a = true).
Proof.
  intros Hwf chosen. unfold getAnnotations.
  set (annotations := if truthy_string (opt_node options) then _ else _).
  assert (Hchosen : ∀ k a', annotations !! k = Some a' ↔
            nodes d !! k = Some a'
            ∧ if truthy_string (opt_node options) then
                [default "" (opt_node options)] `prefix_of` ann_path a'
                ∧ (∀ range, opt_range options = Some range →
                     overlap a' range.1 range.2 = true)
              else
                match opt_selection options with
                | Some ranges =>
                    ∃ range, range ∈ ranges ∧ [range.1] `prefix_of` ann_path a'
                      ∧ overlap a' range.2.1 (Some range.2.2) = true
                | None => True
                end).
  { intros k' a'. unfold annotations.
    destruct (truthy_string (opt_node options)).
    - destruct (opt_range options) as [range|].
      + rewrite selected_lookup by done. split.
        * intros (? & ? & ?). split; [done|]. split; [done|]. by intros ? [= <-].
        * intros (? & ? & Hov). split; [done|]. split; [done|]. by apply Hov.
      + unfold _filterByNodeAndRange.
        rewrite (keyed_lookup (λ _, true)) by (by apply index_get_NoDup).
        rewrite index_get_elem by done. split.
        * intros ([Hn ?] & <- & _). done.
        * intros (Hn & ? & _). pose proof (Hwf _ _ Hn) as <-. done.
    - destruct (opt_selection options) as [ranges|].
      + by apply selection_lookup.
      + rewrite (keyed_lookup (λ _, true))
          by (apply values_NoDup; by apply Hwf).
        rewrite values_elem. split.
        * intros ([i Hi] & <- & _). by rewrite <- (Hwf i a' Hi) in Hi.
        * intros [Hn _]. pose proof (Hwf _ _ Hn) as <-. eauto. }
  destruct (opt_filter options) as [f|].
  - rewrite keyed_lookup.
    + rewrite values_elem. split.
      * intros ([i Hi] & <- & Hf). apply Hchosen in Hi as [Hi Hc].
        pose proof (Hwf _ _ Hi) as <-. split; [done|]. split; [done|].
        by intros ? [= <-].
      * intros (Hn & Hc & Hf). pose proof (Hwf _ _ Hn) as <-.
        split; [|split; [done|by apply Hf]].
        exists (ann_id a). apply Hchosen. done.
    + apply values_NoDup. intros i b [Hi _]%Hchosen. by apply Hwf.
  - rewrite Hchosen. split.
    + intros [? ?]. done.
    + intros (? & ? & _). done.
Qed.

(** The strong annotation [[2,8]] met by a selection of the text. *)
Lemma getAnnotations_chosen_witness :
  getAnnotations
    {| opt_node := None; opt_range := None;
       opt_selection := Some [("text_1", (5, 9))]; opt_filter := Some isTrue |}
    (Samples.doc_of Samples.strong_2_8) !! "a1"
  = Some Samples.strong_2_8.
Proof.
  apply (getAnnotations_chosen _ _ "a1" Samples.strong_2_8 (sample_wf _)).
  split; [reflexivity|]. split.
  - exists ("text_1", (5, 9)). split; [left|]. split; [by exists ["content"]|done].
  - by intros f [= <-].
Defined.

Lemma foldl_collect {A B} (f : A → bool) (g : A → B) (l : list A) :
  ∀ acc, foldl (λ result a, if f a then result ++ [g a] else result) acc l
         = acc ++ (g <$> filter (λ a, f a = true) l).
Proof.
  induction l as [|a l IH]; intros acc; cbn [foldl].
  { by rewrite filter_nil, app_nil_r. }
  rewrite IH. destruct (f a) eqn:Hf.
  - rewrite filter_cons_True by done. cbn. by rewrite <- app_assoc.
  - rewrite filter_cons_False by (by rewrite Hf). done.
Qed.

Lemma foldl_collect_all {A B} (g : A → B) (l : list A) :
  ∀ acc, foldl (λ result a, result ++ [g a]) acc l = acc ++ (g <$> l).
Proof.
  induction l as [|a l IH]; intros acc; cbn; [by rewrite app_nil_r|].
  by rewrite IH, <- app_assoc.
Qed.

(** X18. [getAnnotations(path, start, end)] of the later document
    class gives, in the order of the index, the annotations that end at
    or behind [start] and, when an end is given, begin at or before
    it. A [start] of [0], like a missing one, switches the filter off
    altogether, whatever the end; an end of [0] counts as missing. *)
Theorem getAnnotations_in_range (annotations : list annotation)
    (get : string → option annotation) (start end_ : option Z) :
  let keeps (a : annotation) : bool :=
    if truthy start then
      ((ann_range a).2 >=? default 0 start)
      && (if truthy end_ then (ann_range a).1 <=? default 0 end_ else true)
    else true in
  Versioned.getAnnotations annotations get start end_
  = (λ a, get (ann_id a)) <$> filter (λ a, keeps a = true) annotations
  ∧ (start = None ∨ start = Some 0 →
     Versioned.getAnnotations annotations get start end_
     = (λ a, get (ann_id a)) <$> annotations)
  ∧ (∀ s, start = Some s → s ≠ 0 → end_ = None ∨ end_ = Some 0 →
     ∀ a, keeps a = true ↔ s ≤ (ann_range a).2)
  ∧ (∀ s e, start = Some s → s ≠ 0 → end_ = Some e → e ≠ 0 →
     ∀ a, keeps a = true ↔ s ≤ (ann_range a).2 ∧ (ann_range a).1 ≤ e).
Proof.
  intros keeps. split; [|split; [|split]].
  - unfold Versioned.getAnnotations, keeps. destruct (truthy start).
    + destruct (truthy end_).
      * by rewrite (foldl_collect
                      (λ a, ((ann_range a).2 >=? default 0 start)
                            && ((ann_range a).1 <=? default 0 end_))
                      (λ a, get (ann_id a))).
      * rewrite (foldl_collect (λ a, (ann_range a).2 >=? default 0 start)
                   (λ a, get (ann_id a))).
        cbn. f_equal. apply list_filter_iff. intros a. by rewrite andb_true_r.
    + rewrite (foldl_collect_all (λ a, get (ann_id a))). cbn. f_equal.
      symmetry. apply ViewsProps.filter_keep. by apply Forall_forall.
  - intros Hstart. unfold Versioned.getAnnotations.
    assert (truthy start = false) as -> by (by destruct Hstart as [-> | ->]).
    by rewrite (foldl_collect_all (λ a, get (ann_id a))).
  - intros s -> Hs Hend a. unfold keeps, truthy.
    destruct (Z.eqb_spec s 0); [done|]. cbn [negb default].
    assert ((match end_ with Some z => negb (z =? 0) | None => false end) = false)
      as -> by (by destruct Hend as [-> | ->]).
    rewrite andb_true_r. rewrite Z.geb_le. done.
  - intros s e -> Hs -> He a. unfold keeps, truthy.
    destruct (Z.eqb_spec s 0); [done|]. destruct (Z.eqb_spec e 0); [done|].
    cbn [negb default]. rewrite andb_true_iff, Z.geb_le, Z.leb_le. done.
Qed.

(** The part of its node that is selected, for an annotation. *)
Definition range_of (ranges : gmap string (Z * option Z)) (a : annotation)
  : option (Z * option Z) :=
  head (ann_path a) ≫= (ranges !!.).

(** The annotations [copy] takes: the ones that lie in the selected
    part as a whole, and of the others those of a splittable type. *)
Definition copied (self : behavior) (ranges : gmap string (Z * option Z))
    (a : annotation) : bool :=
  match range_of ranges a with
  | Some range => negb (isPartial range a) || isSplittable self (ann_type a)
  | None => false
  end.

(** A copy [c] of the annotation [a]: the same type and path, and the
    range counted from the start of the selected part; the start of a
    partly selected annotation is not put before that start. *)
Definition fragment (ranges : gmap string (Z * option Z)) (c a : annotation)
  : Prop :=
  ∃ range, range_of ranges a = Some range
    ∧ ann_type c = ann_type a ∧ ann_path c = ann_path a
    ∧ ann_range c
      = ((if isPartial range a then Z.max 0 ((ann_range a).1 - range.1)
          else (ann_range a).1 - range.1),
         (ann_range a).2 - range.1).

Lemma getRanges_nodes (sel : extent) (n : string) :
  n ∈ getNodes sel → is_Some (_getRanges sel !! n).
Proof.
  intros Hn. unfold _getRanges.
  assert (Hin : ∃ i, (i, n) ∈ imap pair (getNodes sel)).
  { apply list_elem_of_lookup_1 in Hn as [i Hi]. exists i.
    apply elem_of_lookup_imap. eauto. }
  destruct Hin as [i Hin]. revert Hin.
  generalize (imap pair (getNodes sel)). generalize (length (getNodes sel)).
  intros len l. generalize (∅ : gmap string (Z * option Z)).
  induction l as [|[j m] l IH]; intros acc Hin; [by apply elem_of_nil in Hin|].
  cbn [foldl]. apply elem_of_cons in Hin as [[= <- <-]|Hin]; [|by apply IH].
  clear IH. cbn [fst snd].
  generalize ((if decide (i = 0%nat) then startChar sel else 0),
              (if decide (i = (len - 1)%nat) then Some (endChar sel) else None)).
  intros range.
  assert (H : ∀ acc : gmap string (Z * option Z), is_Some (acc !! n) →
            is_Some (foldl (λ (ranges : gmap string (Z * option Z))
                              (entry : nat * string),
                         <[entry.2 :=
                             (if decide (entry.1 = 0%nat) then startChar sel else 0,
                              if decide (entry.1 = (len - 1)%nat)
                              then Some (endChar sel) else None)]> ranges)
                       acc l !! n)).
  { induction l as [|[j m] l IH]; intros acc' Hacc; [done|].
    cbn [foldl]. apply IH. cbn [fst snd].
    destruct (decide (m = n)) as [->|Hne].
    - rewrite lookup_insert_eq. eauto.
    - by rewrite lookup_insert_ne. }
  apply H. rewrite lookup_insert_eq. eauto.
Qed.

Lemma copy_each_run (self : behavior) (ranges : gmap string (Z * option Z))
    (l : list annotation) :
  (∀ a, a ∈ l → is_Some (range_of ranges a)) →
  ∀ (result : list annotation) (d : doc),
    ∃ copies d',
      copy_each self ranges l result d = (Returned (result ++ copies), d')
      ∧ nodes d' = nodes d ∧ uuid_source d' = uuid_source d
      ∧ uuid_count d' = (uuid_count d + length copies)%nat
      ∧ ann_id <$> copies
        = uuid_source d <$> seq (uuid_count d) (length copies)
      ∧ Forall2 (fragment ranges) copies
          (filter (λ a, copied self ranges a = true) l).
Proof.
  induction l as [|a l IH]; intros Hl result d.
  { exists [], d. rewrite filter_nil. cbn. rewrite app_nil_r, Nat.add_0_r.
    do 5 (split; [done|]). constructor. }
  destruct (Hl a) as [range Hrange]; [left|].
  assert (Hl' : ∀ b, b ∈ l → is_Some (range_of ranges b))
    by (intros b Hb; apply Hl; by right).
  cbn [copy_each]. unfold range_of in Hrange. rewrite Hrange.
  assert (Hstep : ∀ r,
    ∃ copies d',
      (id ← uuid;
       copy_each self ranges l
         (result ++ [{| ann_id := id; ann_type := ann_type a;
                        ann_path := ann_path a; ann_range := r |}])) d
      = (Returned (result ++ copies), d')
      ∧ nodes d' = nodes d ∧ uuid_source d' = uuid_source d
      ∧ uuid_count d' = (uuid_count d + length copies)%nat
      ∧ ann_id <$> copies
        = uuid_source d <$> seq (uuid_count d) (length copies)
      ∧ ∃ c copies', copies = c :: copies'
          ∧ ann_type c = ann_type a ∧ ann_path c = ann_path a ∧ ann_range c = r
          ∧ Forall2 (fragment ranges) copies'
              (filter (λ a, copied self ranges a = true) l)).
  { intros r. unfold mbind, Eff_bind, bind, uuid.
    set (c := Annotation _ _ _ _).
    destruct (IH Hl' (result ++ [c])
                {| nodes := nodes d; uuid_source := uuid_source d;
                   uuid_count := S (uuid_count d) |})
      as (copies & d' & Hrun & Hn & Hs & Hc & Hids & Hall).
    exists (c :: copies), d'. rewrite Hrun, <- app_assoc. cbn in *.
    split; [done|]. split; [done|]. split; [done|]. split; [lia|].
    split; [by rewrite Hids|]. by exists c, copies. }
  unfold copied at 1. unfold range_of at 1.
  destruct (isPartial range a) eqn:Hpartial.
  - destruct (isSplittable self (ann_type a)) eqn:Hsplit.
    + destruct (Hstep (Z.max 0 ((ann_range a).1 - range.1),
                       (ann_range a).2 - range.1))
        as (copies & d' & Hrun & Hn & Hs & Hc & Hids & c & copies' & -> & Ht & Hp
            & Hr & Hall).
      exists (c :: copies'), d'. do 5 (split; [done|]).
      rewrite filter_cons_True
        by (unfold copied, range_of; by rewrite Hrange, Hpartial, Hsplit).
      constructor; [|done]. exists range. unfold range_of.
      by rewrite Hrange, Hpartial.
    + destruct (IH Hl' result d) as (copies & d' & Hrun & Hn & Hs & Hc & Hids & Hall).
      exists copies, d'. do 5 (split; [done|]).
      rewrite filter_cons_False; [done|].
      unfold copied, range_of. by rewrite Hrange, Hpartial, Hsplit.
  - destruct (Hstep ((ann_range a).1 - range.1, (ann_range a).2 - range.1))
      as (copies & d' & Hrun & Hn & Hs & Hc & Hids & c & copies' & -> & Ht & Hp
          & Hr & Hall).
    exists (c :: copies'), d'. do 5 (split; [done|]).
    rewrite filter_cons_True
      by (unfold copied, range_of; by rewrite Hrange, Hpartial).
    constructor; [|done]. exists range. unfold range_of.
    by rewrite Hrange, Hpartial.
Qed.

(** X21. [copy] returns, for the annotations that meet the selection,
    copies under new ids and leaves the document as it is: an
    annotation that lies in the selected part of its node as a whole
    is copied with its range counted from the start of that part; one
    that is only partly selected is copied if its type is splittable,
    with a start that is not negative but with its end not cut to the
    selection, and is left out otherwise. *)
Theorem copy_fragments (self : behavior) (sel : extent) (d : doc) :
  wf d → fresh d →
  (∀ range, range ∈ getRanges sel → range.1 ∈ getNodes sel) →
  let met :=
    (map_to_list
       (getAnnotations
          {| opt_node := None; opt_range := None;
             opt_selection := Some (getRanges sel); opt_filter := None |} d)).*2 in
  ∃ copies d',
    copy self sel d = (Returned copies, d')
    ∧ nodes d' = nodes d
    ∧ Forall2 (fragment (_getRanges sel)) copies
        (filter (λ a, copied self (_getRanges sel) a = true) met)
    ∧ NoDup (ann_id <$> copies)
    ∧ (∀ c, c ∈ copies → nodes d !! ann_id c = None)
    ∧ (∀ range a, isPartial range a = false
                  ↔ range.1 ≤ (ann_range a).1
                    ∧ (ann_range a).2 ≤ default 0 range.2).
Proof.
  intros Hwf [Hfresh Hinj] Hsel met. unfold copy. fold met.
  destruct (copy_each_run self (_getRanges sel) met) with (result := @nil annotation)
    (d := d) as (copies & d' & Hrun & Hn & Hs & Hc & Hids & Hall).
  { intros a [k Hk]%values_elem.
    unfold getAnnotations in Hk.
    cbn [opt_node opt_selection opt_filter truthy_string] in Hk.
    apply selection_lookup in Hk as (_ & range & Hr & Hp & _); [|done].
    cbn in Hp. destruct Hp as [rest Hp]. unfold range_of. rewrite Hp. cbn.
    apply getRanges_nodes. by apply Hsel. }
  exists copies, d'. split; [done|]. split; [done|]. split; [done|].
  split; [|split].
  - rewrite Hids. apply NoDup_fmap_2_strong; [|apply NoDup_seq].
    intros n m _ _ E. by apply Hinj.
  - intros c Hc'. apply (list_elem_of_fmap_2 ann_id) in Hc'. rewrite Hids in Hc'.
    apply list_elem_of_fmap in Hc' as (n & -> & Hin%elem_of_seq).
    apply Hfresh. lia.
  - intros range a. unfold isPartial. rewrite orb_false_iff.
    rewrite Z.gtb_ltb, !Z.ltb_ge. done.
Qed.

(** The characters [[4,6]] of a text whose [[2,8]] is ["strong"]: the
    copy is [[0,4]], two characters longer than the selection. *)
Lemma copy_fragments_witness :
  (∃ copies d',
     copy defaultBehavior (Extent ["text_1"] 4 6 [("text_1", (4, 6))])
       (Samples.doc_of Samples.strong_2_8)
     = (Returned copies, d')
     ∧ nodes d' = nodes (Samples.doc_of Samples.strong_2_8))
  ∧ (copy defaultBehavior (Extent ["text_1"] 4 6 [("text_1", (4, 6))])
       (Samples.doc_of Samples.strong_2_8)).1
    = Returned [Annotation "uuid_0" "strong" Samples.text_path (0, 4)].
Proof.
  split; [|by vm_compute].
  destruct (copy_fragments defaultBehavior (Extent ["text_1"] 4 6 [("text_1", (4, 6))])
              (Samples.doc_of Samples.strong_2_8))
    as (copies & d' & Hrun & Hn & _).
  - apply sample_wf.
  - apply sample_fresh. intros n E. discriminate E.
  - intros range [->|[]%elem_of_nil]%elem_of_cons. left.
  - by exists copies, d'.
Defined.

Section Handle.
Context {Diff : Type}.
Variable Range_transform : Z * Z → Diff → bool → bool → bool * (Z * Z).
Variable typeChain : string → list string.
Variable content : string → option string.

(** X23. [handleOperation] after the deletion of a node that is not an
    annotation deletes the annotations below the path of the node and
    no other. The creation of any node and the deletion of an
    annotation change nothing; a change of a property is transformed
    into the annotations when the annotator was made with
    [withTransformation] and the node is in the document and no
    annotation, and changes nothing otherwise. *)
Theorem handleOperation_cascade (self : behavior) (withTransformation : bool)
    (op : operation Diff) (val_type : string) (d : doc) :
  wf d →
  let handled :=
    handleOperation Range_transform typeChain content self withTransformation
      op val_type d in
  handled.1 = Returned tt
  ∧ (op_kind op = OpDelete → "annotation" ∉ typeChain val_type →
     uuid_count handled.2 = uuid_count d
     ∧ ∀ k b, nodes handled.2 !! k = Some b
              ↔ nodes d !! k = Some b ∧ ¬ op_path op `prefix_of` ann_path b)
  ∧ (op_kind op = OpCreate ∨ "annotation" ∈ typeChain val_type →
     op_kind op = OpCreate ∨ op_kind op = OpDelete → handled.2 = d)
  ∧ (op_kind op = OpUpdate ∨ op_kind op = OpSet →
     ∀ type, head (op_path op) ≫= node_type content d = Some type →
       "annotation" ∉ typeChain type → withTransformation = true →
       handled = transform Range_transform self op d)
  ∧ (op_kind op = OpUpdate ∨ op_kind op = OpSet →
     withTransformation = false
     ∨ head (op_path op) ≫= node_type content d = None
     ∨ (∃ type, head (op_path op) ≫= node_type content d = Some type
          ∧ "annotation" ∈ typeChain type) →
     handled.2 = d).
Proof.
  intros Hwf handled.
  destruct (each_own_entry _delete (λ _, None)) with
    (l := index_get d (op_path op)) (d := d) as (m & Hrun & Hown & Hrest).
  { intros a d0 Ha. rewrite (AnnotatorProps.delete_present a d0 Ha).
    eexists. split; [done|]. split; [apply lookup_delete_eq|].
    intros k Hk. by apply lookup_delete_ne. }
  { by apply index_get_NoDup. }
  { intros a Ha. by apply index_get_elem in Ha as [Ha _]. }
  destruct (transform_returns Range_transform self op d Hwf) as (dt & Ht).
  split; [|split; [|split; [|split]]].
  - unfold handled, handleOperation. destruct (op_kind op).
    + by case_bool_decide.
    + case_bool_decide; [done|by rewrite Hrun].
    + destruct (head (op_path op) ≫= node_type content d); [|done].
      case_bool_decide; [done|]. destruct withTransformation; [by rewrite Ht|done].
    + destruct (head (op_path op) ≫= node_type content d); [|done].
      case_bool_decide; [done|]. destruct withTransformation; [by rewrite Ht|done].
  - intros Hkind Hval. unfold handled, handleOperation.
    rewrite Hkind, bool_decide_eq_false_2 by done. rewrite Hrun. cbn.
    split; [done|]. intros k b.
    destruct (nodes d !! k) as [a|] eqn:Hk.
    + pose proof (Hwf k a Hk) as <-.
      destruct (decide (op_path op `prefix_of` ann_path a)) as [Hp|Hp].
      * rewrite Hown by (by apply index_get_elem).
        split; [done|]. by intros [[= <-] ?].
      * rewrite Hrest, Hk.
        -- split; [by intros [= <-]|by intros [? _]].
        -- intros a' [Ha' Hp']%index_get_elem E; [|done].
           rewrite E, Hk in Ha'. by injection Ha' as ->.
    + rewrite Hrest, Hk; [by split; [|intros [? _]]|].
      intros a [Ha _]%index_get_elem E; [|done]. rewrite E in Ha. congruence.
  - intros Hcase Hkind. unfold handled, handleOperation.
    destruct Hkind as [E|E]; rewrite E in *; case_bool_decide; try done.
    destruct Hcase as [?|?]; [done|contradiction].
  - intros Hkind type Htype Hno ->. unfold handled, handleOperation.
    destruct Hkind as [E|E]; rewrite E, Htype;
      by rewrite (bool_decide_eq_false_2 ("annotation" ∈ typeChain type)).
  - intros Hkind Hcase. unfold handled, handleOperation.
    destruct Hkind as [E|E]; rewrite E;
      (destruct Hcase as [->|[->|(type & -> & Hyes)]];
         [destruct (head (op_path op) ≫= node_type content d); [|done];
          by case_bool_decide
         |done
         |by rewrite (bool_decide_eq_true_2 ("annotation" ∈ typeChain type))]).
Qed.

End Handle.

(** The paragraph ["text_1"] is deleted: its annotation goes. *)
Lemma handleOperation_cascade_witness :
  nodes (handleOperation Samples.delete_transform
           (λ type, if bool_decide (type = "paragraph")
                    then ["paragraph"; "content"] else [type; "annotation"])
           (λ _, None) defaultBehavior false
           (Operation OpDelete ["text_1"] (0, 0)) "paragraph"
           (Samples.doc_of Samples.strong_2_8)).2
  = ∅.
Proof.
  destruct (handleOperation_cascade Samples.delete_transform
              (λ type, if bool_decide (type = "paragraph")
                       then ["paragraph"; "content"] else [type; "annotation"])
              (λ _, None) defaultBehavior false
              (Operation OpDelete ["text_1"] (0, 0)) "paragraph"
              (Samples.doc_of Samples.strong_2_8) (sample_wf _))
    as (_ & Hdelete & _).
  destruct Hdelete as [_ Hnodes]; [reflexivity| |].
  - intros H. apply (bool_decide_pack _) in H. by vm_compute in H.
  - apply map_eq. intros k. rewrite lookup_empty.
    destruct (nodes _ !! k) as [b|] eqn:Hb; [|done].
    apply Hnodes in Hb as [Hb Hnot]. exfalso. apply Hnot.
    unfold Samples.doc_of in Hb. cbn in Hb.
    apply lookup_singleton_Some in Hb as [_ <-]. by exists ["content"].
Defined.

End CommandsProps.

(** ** The composite nodes of the test document *)

Module CompositesProps.
Import Graph Document Composites.

Lemma indexOf_middle (pre post : list string) (x : string) :
  x ∉ pre → indexOf (pre ++ x :: post) x = Some (length pre).
Proof.
  intros Hpre. unfold indexOf.
  assert (list_find (λ y, y = x) (pre ++ x :: post) = Some (length pre, x)) as ->;
    [|done].
  apply list_find_Some. split; [by apply list_lookup_middle|]. split; [done|].
  intros j y Hj Hlt ->. apply Hpre.
  rewrite lookup_app_l in Hj by done. by eapply list_elem_of_lookup_2.
Qed.

(** X19. A node put among the items of a list with [insertChild] and
    taken out again with [deleteChild]: after the first call the list
    has the node at the position given; the second call takes it out
    of the items and deletes the node itself from the graph, so that the
    graph is the one before the two calls without that node. *)
Theorem list_child_round_trip (this child : string) (pos : nat) (d : document)
    (parent item : node) (items : list string) :
  get d this = Some parent →
  properties parent !! "items" = Some (VArray items) →
  get d child = Some item → node_id item = child →
  this ≠ child → child ∉ items → (pos ≤ length items)%nat →
  let inserted := List.insertChild this pos child d in
  let deleted := List.deleteChild this child inserted.2 in
  inserted.1 = Returned tt
  ∧ List.getNodes <$> get inserted.2 this
    = Some (take pos items ++ child :: drop pos items)
  ∧ deleted.1 = Returned tt
  ∧ nodes deleted.2 = base.delete child (nodes d)
  ∧ List.getNodes <$> get deleted.2 this = Some items
  ∧ applied deleted.2
    = applied d ++ [Update [this; "items"] [ArrayInsert pos child];
                    Update [this; "items"] [ArrayDelete pos (Some child)];
                    Delete item].
Proof.
  intros Hlist Hitems Hitem Hid Hne Hnot Hpos inserted deleted.
  set (items' := take pos items ++ child :: drop pos items).
  set (parent' := set_property parent "items" (VArray items')).
  assert (Hins : inserted
            = (Returned tt,
               CommitProps.advance (<[this := parent']> (nodes d))
                 [Update [this; "items"] [ArrayInsert pos child]] d)).
  { unfold inserted, List.insertChild, update.
    apply CommitProps.apply_advance. cbn. unfold get in Hlist.
    rewrite Hlist, Hitems. cbn. by rewrite decide_True. }
  destruct (CommitProps.advance_frame (<[this := parent']> (nodes d))
              [Update [this; "items"] [ArrayInsert pos child]] d)
    as (Hn1 & Ha1 & _ & _).
  set (d1 := CommitProps.advance _ _ d) in *.
  assert (Hget1 : get d1 this = Some parent').
  { unfold get. rewrite Hn1. apply lookup_insert_eq. }
  assert (Hupd : update [this; "items"] [ArrayDelete pos (Some child)] d1
            = (Returned tt,
               CommitProps.advance (nodes d)
                 [Update [this; "items"] [ArrayDelete pos (Some child)]] d1)).
  { unfold update. apply CommitProps.apply_advance. cbn. unfold get in Hget1.
    rewrite Hget1. cbn. rewrite lookup_insert_eq. cbn.
    assert (items' !! pos = Some child) as Hat.
    { apply list_lookup_middle. by rewrite length_take_le. }
    rewrite decide_True by done. f_equal.
    pose proof (delete_middle (take pos items) (drop pos items) child) as Hd.
    rewrite length_take_le, take_drop in Hd by done. fold items' in Hd.
    rewrite Hd. unfold parent'.
    rewrite Hn1, insert_insert_eq, ViewsProps.set_property_twice.
    rewrite ViewsProps.set_property_same by done.
    unfold get in Hlist. by rewrite insert_id. }
  destruct (CommitProps.advance_frame (nodes d)
              [Update [this; "items"] [ArrayDelete pos (Some child)]] d1)
    as (Hn2 & Ha2 & _ & _).
  set (d2 := CommitProps.advance (nodes d) _ d1) in *.
  assert (Hdel : deleted
            = (Returned tt,
               CommitProps.advance (base.delete child (nodes d)) [Delete item] d2)).
  { unfold deleted. rewrite Hins. cbn [snd]. unfold List.deleteChild.
    rewrite Hget1. unfold List.items, parent'. cbn [properties set_property].
    rewrite lookup_insert_eq.
    assert (indexOf items' child = Some pos) as ->.
    { unfold items'. rewrite indexOf_middle.
      - by rewrite length_take_le.
      - intros Hin%subseteq_take. done. }
    unfold mbind, Eff_bind, bind. rewrite Hupd. unfold delete.
    assert (get d2 child = Some item) as -> by (unfold get; by rewrite Hn2).
    apply CommitProps.apply_advance. cbn. rewrite Hn2, Hid.
    unfold get in Hitem. by rewrite Hitem. }
  destruct (CommitProps.advance_frame (base.delete child (nodes d)) [Delete item] d2)
    as (Hn3 & Ha3 & _ & _).
  rewrite Hdel, Hins. cbn [fst snd].
  split; [done|]. split.
  { rewrite Hget1. cbn. unfold List.getNodes, List.items, parent'. cbn.
    by rewrite lookup_insert_eq. }
  split; [done|]. split; [done|]. split.
  { unfold get. rewrite Hn3, lookup_delete_ne by done. unfold get in Hlist.
    rewrite Hlist. cbn. unfold List.getNodes, List.items. by rewrite Hitems. }
  rewrite Ha3, Ha2, Ha1, <- !app_assoc. done.
Qed.

(** A list with two items and a third paragraph that is in no list. *)
Definition checklist : document :=
  Plain None None
    (<["list_1" := Node "list_1" "list" {["items" := VArray ["p1"; "p2"]]}]>
       (list_to_map ((λ id, (id, Samples.paragraph id)) <$> ["p1"; "p2"; "p3"])))
    ∅ [].

Lemma list_child_round_trip_witness :
  let inserted := List.insertChild "list_1" 1 "p3" checklist in
  let deleted := List.deleteChild "list_1" "p3" inserted.2 in
  List.getNodes <$> get inserted.2 "list_1" = Some ["p1"; "p3"; "p2"]
  ∧ nodes deleted.2 = base.delete "p3" (nodes checklist).
Proof.
  destruct (list_child_round_trip "list_1" "p3" 1 checklist
              (Node "list_1" "list" {["items" := VArray ["p1"; "p2"]]})
              (Samples.paragraph "p3") ["p1"; "p2"])
    as (_ & H1 & _ & H2 & _).
  - reflexivity.
  - reflexivity.
  - reflexivity.
  - reflexivity.
  - discriminate.
  - intros H. apply (bool_decide_pack _) in H. by vm_compute in H.
  - cbn. lia.
  - split; [exact H1|exact H2].
Defined.

(** X20. [deleteChild] of a figure: for the image it empties the
    [image] property and deletes the image node, so that [getNodes]
    lists the caption alone; for the caption it only empties the text
    of the caption node, which stays a child; for any other node it
    does nothing. *)
Theorem figure_deleteChild (this image caption : string) (d : document)
    (figure img cap : node) :
  get d this = Some figure →
  properties figure !! "image" = Some (VString image) →
  properties figure !! "caption" = Some (VString caption) →
  get d image = Some img → node_id img = image →
  get d caption = Some cap →
  image ≠ "" → caption ≠ "" → image ≠ caption → this ≠ image → this ≠ caption →
  let without_image := Figure.deleteChild this image d in
  let without_caption := Figure.deleteChild this caption d in
  Figure.getNodes figure = [VString image; VString caption]
  ∧ without_image.1 = Returned tt
  ∧ nodes without_image.2
    = base.delete image (<[this := set_property figure "image" VNull]> (nodes d))
  ∧ Figure.getNodes <$> get without_image.2 this = Some [VString caption]
  ∧ applied without_image.2
    = applied d ++ [Set_ [this; "image"] (VString image) VNull; Delete img]
  ∧ without_caption.1 = Returned tt
  ∧ nodes without_caption.2
    = <[caption := set_property cap "content" (VString "")]> (nodes d)
  ∧ Figure.getNodes <$> get without_caption.2 this
    = Some [VString image; VString caption]
  ∧ (∀ other, other ≠ image → other ≠ caption →
       Figure.deleteChild this other d = (Returned tt, d)).
Proof.
  intros Hfig Himage Hcaption Himg Hid Hcap Hi Hc Hne Hti Htc
    without_image without_caption.
  assert (Hnodes : Figure.getNodes figure = [VString image; VString caption]).
  { unfold Figure.getNodes. rewrite Himage, Hcaption. cbn.
    by rewrite !bool_decide_eq_false_2. }
  split; [done|].
  assert (H1 : without_image
            = (Returned tt,
               CommitProps.advance
                 (base.delete image
                    (<[this := set_property figure "image" VNull]> (nodes d)))
                 [Set_ [this; "image"] (VString image) VNull; Delete img] d)).
  { unfold without_image, Figure.deleteChild. rewrite Hfig.
    rewrite bool_decide_eq_true_2 by done.
    unfold mbind, Eff_bind, bind, set. rewrite Hfig, Himage. cbn [default].
    rewrite (CommitProps.apply_advance _ d
               (<[this := set_property figure "image" VNull]> (nodes d)))
      by (cbn; unfold get in Hfig; by rewrite Hfig).
    unfold delete, get.
    rewrite (proj1 (CommitProps.advance_frame _ _ _)).
    rewrite lookup_insert_ne by done. unfold get in Himg. rewrite Himg.
    rewrite (CommitProps.apply_advance _ _
               (base.delete image
                  (<[this := set_property figure "image" VNull]> (nodes d)))).
    - by rewrite CommitProps.advance_advance.
    - cbn. rewrite (proj1 (CommitProps.advance_frame _ _ _)), Hid.
      by rewrite lookup_insert_ne, Himg. }
  assert (H2 : without_caption
            = (Returned tt,
               CommitProps.advance
                 (<[caption := set_property cap "content" (VString "")]> (nodes d))
                 [Set_ [caption; "content"]
                    (default VNull (properties cap !! "content")) (VString "")] d)).
  { unfold without_caption, Figure.deleteChild. rewrite Hfig.
    rewrite bool_decide_eq_false_2 by (rewrite Himage; congruence).
    rewrite bool_decide_eq_true_2 by done.
    unfold set. rewrite Hcap.
    apply CommitProps.apply_advance. cbn. unfold get in Hcap. by rewrite Hcap. }
  rewrite H1, H2. cbn [fst snd].
  destruct (CommitProps.advance_frame
              (base.delete image
                 (<[this := set_property figure "image" VNull]> (nodes d)))
              [Set_ [this; "image"] (VString image) VNull; Delete img] d)
    as (Hn1 & Ha1 & _ & _).
  destruct (CommitProps.advance_frame
              (<[caption := set_property cap "content" (VString "")]> (nodes d))
              [Set_ [caption; "content"]
                 (default VNull (properties cap !! "content")) (VString "")] d)
    as (Hn2 & _ & _ & _).
  split; [done|]. split; [done|]. split.
  { unfold get. rewrite Hn1, lookup_delete_ne, lookup_insert_eq by done. cbn.
    unfold Figure.getNodes. cbn. rewrite lookup_insert_eq.
    rewrite lookup_insert_ne by done. rewrite Hcaption. cbn.
    by rewrite bool_decide_eq_false_2. }
  split; [done|]. split; [done|]. split; [done|]. split.
  { unfold get. rewrite Hn2, lookup_insert_ne by done. unfold get in Hfig.
    rewrite Hfig. cbn. by rewrite Hnodes. }
  intros other Ho1 Ho2. unfold Figure.deleteChild. rewrite Hfig.
  rewrite !bool_decide_eq_false_2; [done|rewrite Hcaption|rewrite Himage]; congruence.
Qed.

(** A figure with an image and a caption. *)
Definition plate : document :=
  Plain None None
    (<["figure_1" := Node "figure_1" "figure"
                      (<["image" := VString "image_1"]>
                         {["caption" := VString "caption_1"]})]>
       (<["image_1" := Node "image_1" "image" {["url" := VString "a.png"]}]>
          {["caption_1" := Node "caption_1" "paragraph"
                             {["content" := VString "A plate"]}]}))
    ∅ [].

Lemma figure_deleteChild_witness :
  Figure.getNodes <$> get (Figure.deleteChild "figure_1" "image_1" plate).2 "figure_1"
  = Some [VString "caption_1"]
  ∧ nodes (Figure.deleteChild "figure_1" "caption_1" plate).2
    = <["caption_1" := Node "caption_1" "paragraph" {["content" := VString ""]}]>
        (nodes plate).
Proof.
  destruct (figure_deleteChild "figure_1" "image_1" "caption_1" plate
              (Node "figure_1" "figure"
                 (<["image" := VString "image_1"]>
                    {["caption" := VString "caption_1"]}))
              (Node "image_1" "image" {["url" := VString "a.png"]})
              (Node "caption_1" "paragraph" {["content" := VString "A plate"]}))
    as (_ & _ & _ & H1 & _ & _ & H2 & _); try reflexivity; try discriminate.
  split; [exact H1|]. rewrite H2. by vm_compute.
Defined.

End CompositesProps.

(** ** [paste] stopped by an id that is in use *)

Module PasteProps.
Import Objects.

Lemma each_app {S A} (f : A → Eff S unit) (l1 l2 : list A) (s : S) :
  each f (l1 ++ l2) s = bind (each f l1) (λ _, each f l2) s.
Proof.
  revert s. induction l1 as [|x l1 IH]; intros s; [done|].
  cbn [app each]. unfold bind.
  destruct (f x s) as [[[]|e] s1]; [|done]. rewrite IH. done.
Qed.

(** One object whose id is in use: the arrays are written, then the
    creation fails. *)
Lemma paste_one_rejected (n : option string) (k : option Z) (l l0 : positive)
    (s : store) (o : object) (p : list string) (r : Z * Z) :
  objects s !! l = Some o → paths s !! o_path o = Some p →
  ranges s !! o_range o = Some r → nodes s !! o_id o = Some l0 →
  let q := fresh (dom (paths s)) in
  paste_one n k l s =
    (Thrown (DuplicateIdError (o_id o)),
     {| objects := match n with
                   | Some _ => <[l := Object (o_id o) (o_type o) q (o_range o)]> (objects s)
                   | None => objects s
                   end;
        paths := match n with
                 | Some x => <[q := set_first x p]> (paths s)
                 | None => paths s
                 end;
        ranges := match k with
                  | Some z => <[o_range o := (r.1 + z, r.2 + z)]> (ranges s)
                  | None => ranges s
                  end;
        nodes := nodes s |}).
Proof.
  intros Ho Hp Hr Hn q. unfold paste_one, clone_path, shift_range, create, read.
  destruct n as [x|], k as [z|]; eff_unfold;
    repeat first
      [ rewrite lookup_insert_eq | rewrite Ho | rewrite Hp | rewrite Hr
      | rewrite Hn | progress cbn ];
    try done.
  all: by destruct s.
Qed.

(** X22. [paste] is not undone when it fails: if an object of the list
    has an id that the document uses already, the objects before it
    stay pasted, the call throws for that id after it has already
    shifted the range of the object (and given it its new path), and
    the objects behind it are not reached; the node that had the id
    stays. *)
Theorem paste_stops_at_duplicate (before behind : list positive) (l l0 : positive)
    (newNodeId : option string) (offset : option Z) (s : store) (o : object)
    (p : list string) (r : Z * Z) :
  ready s before →
  l ∉ before →
  objects s !! l = Some o → paths s !! o_path o = Some p →
  ranges s !! o_range o = Some r → nodes s !! o_id o = Some l0 →
  (∀ l' o', l' ∈ before → objects s !! l' = Some o' → o_range o' ≠ o_range o) →
  ∃ s',
    paste (before ++ l :: behind) newNodeId offset s
    = (Thrown (DuplicateIdError (o_id o)), s')
    ∧ (∀ l' o', l' ∈ before → objects s !! l' = Some o' →
         nodes s' !! o_id o' = Some l')
    ∧ nodes s' !! o_id o = Some l0
    ∧ ranges s' !! o_range o = Some (shifted offset r)
    ∧ (∀ l', l' ∉ before → l' ≠ l → objects s' !! l' = objects s !! l')
    ∧ (∀ i, i ≠ o_id o →
         (∀ l' o', l' ∈ before → objects s !! l' = Some o' → o_id o' ≠ i) →
         nodes s' !! i = nodes s !! i).
Proof.
  intros Hready Hl Ho Hp Hr Hn Hshare.
  destruct (ObjectsProps.paste_effect newNodeId offset before s Hready)
    as (s1 & Hrun & Hpasted & Hobjects & Hpaths & Hranges & Hnodes).
  assert (Hids : ∀ l' o', l' ∈ before → objects s !! l' = Some o' → o_id o' ≠ o_id o).
  { intros l' o' Hl' Ho' E. destruct Hready as (_ & Hpresent & _).
    destruct (Hpresent l' Hl') as (o'' & Ho'' & _ & _ & Hfree).
    rewrite Ho' in Ho''. injection Ho'' as <-. rewrite E in Hfree. congruence. }
  unfold paste. rewrite each_app. unfold bind. fold (paste before newNodeId offset s).
  rewrite Hrun. cbn [each]. unfold bind.
  pose proof (paste_one_rejected newNodeId offset l l0 s1 o p r) as Hone.
  cbn zeta in Hone. rewrite Hone; clear Hone.
  - eexists. split; [done|]. cbn [nodes ranges objects]. split; [|split; [|split; [|split]]].
    + intros l' o' Hl' Ho'.
      by destruct (Hpasted l' o' Hl' Ho') as (? & _ & _ & _ & _ & _ & _ & _ & ?).
    + rewrite Hnodes; [done|]. intros l' o' Hl' Ho'. by apply (Hids l' o').
    + destruct offset as [z|]; cbn; [by rewrite lookup_insert_eq|].
      rewrite Hranges; [done|]. intros l' o' Hl' Ho'. by apply (Hshare l' o').
    + intros l' Hl' Hne. destruct newNodeId.
      * rewrite lookup_insert_ne by done. by apply Hobjects.
      * by apply Hobjects.
    + intros i Hi Hother. by apply Hnodes.
  - rewrite Hobjects by done. done.
  - by apply Hpaths.
  - rewrite Hranges; [done|]. intros l' o' Hl' Ho'. by apply (Hshare l' o').
  - rewrite Hnodes; [done|]. intros l' o' Hl' Ho'. by apply (Hids l' o').
Qed.

(** The two copied annotations pasted into a document that has the id
    of the second: the first is pasted, the second only shifted. *)
Definition taken : store :=
  {| objects := objects Samples.copied; paths := paths Samples.copied;
     ranges := ranges Samples.copied; nodes := {["c2" := 9%positive]} |}.

Lemma paste_stops_at_duplicate_witness :
  ∃ s',
    paste [1; 2]%positive (Some "text_2") (Some 10) taken
    = (Thrown (DuplicateIdError "c2"), s')
    ∧ nodes s' !! "c1" = Some 1%positive
    ∧ nodes s' !! "c2" = Some 9%positive
    ∧ ranges s' !! 2%positive = Some (12, 16).
Proof.
  destruct (paste_stops_at_duplicate [1%positive] [] 2 9 (Some "text_2") (Some 10)
              taken (Object "c2" "idea" 2 2) Samples.text_path (2, 6))
    as (s' & Hrun & Hbefore & Hstays & Hshifted & _).
  - split; [|split].
    + apply NoDup_singleton.
    + intros l ->%list_elem_of_singleton. by eexists.
    + intros l1 l2 o1 o2 ->%list_elem_of_singleton ->%list_elem_of_singleton. done.
  - by intros [= ]%list_elem_of_singleton.
  - reflexivity.
  - reflexivity.
  - reflexivity.
  - reflexivity.
  - intros l' o' ->%list_elem_of_singleton [= <-]. done.
  - exists s'. split; [exact Hrun|]. split; [|split; [exact Hstays|exact Hshifted]].
    apply (Hbefore 1%positive (Object "c1" "strong" 1 1)); [left|reflexivity].
Defined.

End PasteProps.
